(** * The delta replicator of scylla-cdc-go (replicator/main.go)

    A shallow embedding of the replicator: the consumer factory
    ([CreateChangeConsumer]), the construction of a [DeltaReplicator] with its
    precomputed query strings, and [Consume] with the four per-operation
    handlers.

    Go features modelled explicitly:
    - slices of strings are headers [(base, len)] into a heap of backing
      arrays, and [append] writes into spare capacity in place, so that the
      aliasing of [keyColumns := append(r.pkColumns, r.ckColumns...)] and of
      [condsWithBounds := eqConds] is part of the model;
    - panics (index out of range, nil dereference, failed type assertion,
      reflection on the wrong kind, the explicit [panic] of [Consume]) are
      outcomes of their own;
    - the destination session is an object of the world: it records every
      request it was sent and answers as a function of that history;
    - [int64] and [int8] arithmetic wraps around.

    The printing done under [debugQueries] writes to standard output only and
    is left out. *)

From Stdlib Require Import ZArith Lia Ascii String.
From stdpp Require Import base option list strings gmap.

Set Warnings "-register-all".

Local Open Scope Z_scope.
Local Open Scope nat_scope.

(** ** Go primitives *)

(** [strings.Join]. *)
Fixpoint Join (elems : list string) (sep : string) : string :=
  match elems with
  | [] => ""
  | [x] => x
  | x :: rest => x +:+ sep +:+ Join rest sep
  end.

(** [cut c s] splits [s] at the first occurrence of the character [c]. *)
Fixpoint cut (c : ascii) (s : string) : option (string * string) :=
  match s with
  | EmptyString => None
  | String a rest =>
      if Ascii.eqb a c then Some (EmptyString, rest)
      else match cut c rest with
           | Some (before, after) => Some (String a before, after)
           | None => None
           end
  end.

(** [strings.SplitN(s, ".", 2)]: at most two pieces, split at the first dot. *)
Definition SplitN_dot_2 (s : string) : list string :=
  match cut "."%char s with
  | Some (before, after) => [before; after]
  | None => [s]
  end.

(** Whether a character occurs in a string. *)
Fixpoint contains_char (c : ascii) (s : string) : bool :=
  match s with
  | EmptyString => false
  | String a rest => Ascii.eqb a c || contains_char c rest
  end.

(** Two's complement wrap-around of a [bits]-bit signed integer. *)
Definition wrap (bits : Z) (z : Z) : Z :=
  ((z + 2 ^ (bits - 1)) mod 2 ^ bits - 2 ^ (bits - 1))%Z.

Definition wrap64 : Z -> Z := wrap 64.
Definition wrap8 : Z -> Z := wrap 8.

Definition int64_min : Z := (- 2 ^ 63)%Z.
Definition int64_max : Z := (2 ^ 63 - 1)%Z.

(** ** Panics and the two monads *)

(** Where an index expression stands in the source. *)
Inductive site : Type :=
| InDelta             (* c.Delta[pos+1] *)
| InRangeQueries      (* r.rangeDeleteQueryStrs[queryIdx] *)
| InElementValues.    (* elementValues[idx] *)

Inductive panic : Type :=
| NilDereference
| TypeAssertionFailed
| ReflectWrongKind
| IndexOutOfRange (at_ : site) (index : Z) (size : nat)
| UnsupportedOperation (op : Z)
| LoopBudgetExhausted.

Inductive outcome (A : Type) : Type :=
| Done (a : A)
| Panicked (p : panic).
Arguments Done {A} a.
Arguments Panicked {A} p.

Definition obind {A B : Type} (c : outcome A) (k : A -> outcome B) : outcome B :=
  match c with
  | Done a => k a
  | Panicked p => Panicked p
  end.

Notation "'check' x <- c ;; k" := (obind c (fun x => k))
  (at level 10, x name, c at level 99, k at level 200).

(** Monadic map over a list, left to right. *)
Fixpoint omap {A B : Type} (f : A -> outcome B) (l : list A) : outcome (list B) :=
  match l with
  | [] => Done []
  | x :: rest =>
      check y <- f x ;;
      check ys <- omap f rest ;;
      Done (y :: ys)
  end.

(** ** Slices and the heap of backing arrays *)

(** A slice header. Every slice of the program starts at offset zero of its
    backing array, and its capacity is the length of that array. *)
Record slice : Type := mkSlice { base : nat; len : nat }.

Abbreviation heap := (list (list string)).

(** The backing array of address zero is empty: the nil slice points at it. *)
Definition nilSlice : slice := mkSlice 0 0.
Definition emptyHeap : heap := [[]].

Definition backing (h : heap) (s : slice) : list string :=
  default [] (h !! base s).

Definition cap (h : heap) (s : slice) : nat := length (backing h s).

(** The elements of a slice. *)
Definition view (h : heap) (s : slice) : list string :=
  take (len s) (backing h s).

(** Overwrite [arr] from position [i] on with [xs]. *)
Definition write_at (i : nat) (xs : list string) (arr : list string) : list string :=
  take i arr ++ xs ++ drop (i + length xs) arr.

Section Slices.
(** The capacity Go's runtime picks when [append] has to grow an array of
    capacity [old] to hold [needed] elements. It depends on the Go version
    and on the allocator's size classes; every policy is covered. *)
Variable growslice : nat -> nat -> nat.

Definition newcap (old needed : nat) : nat := Nat.max needed (growslice old needed).

(** [append(s, xs...)]: in place when the capacity allows, otherwise into a
    fresh array that receives a copy of the elements of [s]. *)
Definition appendSlice (h : heap) (s : slice) (xs : list string) : heap * slice :=
  if decide (len s + length xs <= cap h s) then
    (<[base s := write_at (len s) xs (backing h s)]> h,
     mkSlice (base s) (len s + length xs))
  else
    let n := len s + length xs in
    (h ++ [view h s ++ xs ++ replicate (newcap (cap h s) n - n) ""],
     mkSlice (length h) n).

(** [make([]string, 0, n)] followed by [n] appends, or a literal: a fresh
    array that the elements fill exactly. *)
Definition allocSlice (h : heap) (xs : list string) : heap * slice :=
  (h ++ [xs], mkSlice (length h) (length xs)).
End Slices.

(** The growth policy of Go's runtime for small slices, size classes apart:
    the capacity doubles. *)
Definition doubling (old needed : nat) : nat := 2 * old.

(** ** Values held in [interface{}] variables *)

(** The dynamic values the replicator handles, as far as the code tells them
    apart: the nil interface, [gocql.UnsetValue], the kinds reflection
    distinguishes, and [[]interface{}] (which [appendValueByType] asserts). A
    [None] inside a pointer, slice or map is the typed nil of that kind. *)
Inductive value : Type :=
| Nil
| UnsetValue
| Int (z : Z)
| Text (s : string)
| Pointer (target : option value)
| Slice (elems : option (list value))
| Interfaces (elems : option (list value))
| Map (entries : option (list (value * value))).

(** [v != nil] on an interface. *)
Definition nonNil (v : value) : bool :=
  match v with
  | Nil => false
  | _ => true
  end.

(** [v == gocql.UnsetValue]. *)
Definition isUnset (v : value) : bool :=
  match v with
  | UnsetValue => true
  | _ => false
  end.

(** [reflect.ValueOf(v).IsNil()]: defined on pointers, slices and maps (and
    on kinds no value here has), a panic elsewhere. *)
Definition reflect_IsNil (v : value) : outcome bool :=
  match v with
  | Pointer t => Done (bool_decide (t = None))
  | Slice l | Interfaces l => Done (bool_decide (l = None))
  | Map m => Done (bool_decide (m = None))
  | Nil | UnsetValue | Int _ | Text _ => Panicked ReflectWrongKind
  end.

(** [reflect.ValueOf(v).MapRange()] run to its end: the entries in the order
    this iteration visits them. A nil map has none. *)
Definition reflect_MapRange (v : value) : outcome (list (value * value)) :=
  match v with
  | Map m => Done (default [] m)
  | _ => Panicked ReflectWrongKind
  end.

(** The bytes of a string, as [Index] on a string value yields them. *)
Fixpoint bytes_of (s : string) : list value :=
  match s with
  | EmptyString => []
  | String a rest => Int (Z.of_nat (nat_of_ascii a)) :: bytes_of rest
  end.

(** [n := rv.Len(); for i := 0; i < n; i++ { rv.Index(i) }]: the elements
    read by the loop. [Len] accepts slices, maps and strings, [Index] slices
    and strings only, so a map panics at its first element. *)
Definition reflect_Elements (v : value) : outcome (list value) :=
  match v with
  | Slice l | Interfaces l => Done (default [] l)
  | Text s => Done (bytes_of s)
  | Map None | Map (Some []) => Done []
  | Map (Some (_ :: _)) => Panicked ReflectWrongKind
  | Nil | UnsetValue | Int _ | Pointer _ => Panicked ReflectWrongKind
  end.

(** ** Column types (types.go of the replicator, which src/ does not hold) *)

(** Modelled from the spec: the [Type] tag of a column type. The spec's
    ColumnType is the tagged variant Scalar, List, Set, Map, UDT, Tuple. *)
Inductive TypeTag : Type :=
| TypeNative | TypeList | TypeSet | TypeMap | TypeUDT | TypeTuple.

#[global] Instance TypeTag_eq_dec : EqDecision TypeTag.
Proof. solve_decision. Defined.

(** Modelled from the spec: the [TypeInfo] interface and its implementations.
    Frozen-ness is a wrapper around the type it freezes; a tuple carries its
    ordered element types and a UDT its ordered fields. *)
Inductive TypeInfo : Type :=
| NativeType (name : string)
| ListType (Element : TypeInfo)
| SetType (Element : TypeInfo)
| MapType (Key Val : TypeInfo)
| UDTType (name : string) (Fields : list (string * TypeInfo))
| TupleType (Elements : list TypeInfo)
| FrozenType (Inner : TypeInfo).

(** Modelled from the spec: [typ.Type()], which looks through [frozen<>]. *)
Fixpoint Type_ (typ : TypeInfo) : TypeTag :=
  match typ with
  | NativeType _ => TypeNative
  | ListType _ => TypeList
  | SetType _ => TypeSet
  | MapType _ _ => TypeMap
  | UDTType _ _ => TypeUDT
  | TupleType _ => TypeTuple
  | FrozenType inner => Type_ inner
  end.

(** Modelled from the spec: [typ.IsFrozen()]. *)
Definition IsFrozen (typ : TypeInfo) : bool :=
  match typ with
  | FrozenType _ => true
  | _ => false
  end.

(** Modelled from the spec: [typ.Unfrozen()]. *)
Fixpoint Unfrozen (typ : TypeInfo) : TypeInfo :=
  match typ with
  | FrozenType inner => Unfrozen inner
  | _ => typ
  end.

(** Modelled from the spec: [Type.IsCollection()]. The types edited at cell
    granularity when not frozen are lists, sets, maps and UDTs; scalars and
    tuples are replaced as a whole. *)
Definition IsCollection (t : TypeTag) : bool :=
  match t with
  | TypeList | TypeSet | TypeMap | TypeUDT => true
  | TypeNative | TypeTuple => false
  end.

(** ** The driver's metadata (gocql) *)

(** A [gocql.TypeInfo]: the replicator only ever asks whether it is a
    [gocql.UDTTypeInfo], and then for the names of its elements in declared
    order; everything else goes to [parseType]. *)
Inductive gocqlTypeInfo : Type :=
| UDTTypeInfo (Elements : list string)
| OtherTypeInfo (descr : string).

Inductive ColumnKind : Type :=
| ColumnUnkownKind | ColumnPartitionKey | ColumnClusteringKey | ColumnRegular
| ColumnCompact | ColumnStatic.

Record ColumnMetadata : Type := mkColumnMetadata {
  Kind : ColumnKind;
  ColumnType : gocqlTypeInfo
}.

Record TableMetadata : Type := mkTableMetadata {
  Keyspace : string;
  Name : string;
  Columns : gmap string ColumnMetadata;
  OrderedColumns : list string
}.

Record KeyspaceMetadata : Type := mkKeyspaceMetadata {
  Tables : gmap string TableMetadata
}.

Record ColumnInfo : Type := mkColumnInfo {
  ColumnName : string;
  ColumnTypeInfo : gocqlTypeInfo
}.

Inductive Consistency : Type := One | Quorum | All.

Inductive BatchType : Type := LoggedBatch | UnloggedBatch | CounterBatch.

Record BatchEntry : Type := mkEntry {
  Stmt : string;
  Args : list value
}.

(** A batch as [processInsertOrUpdate] hands it to the session: created by
    [NewBatch], filled by [Query], then given its consistency and its default
    timestamp. *)
Record Batch : Type := mkBatch {
  BatchKind : BatchType;
  Entries : list BatchEntry;
  BatchConsistency : Consistency;
  BatchTimestamp : Z
}.

(** ** The CDC library's change rows (scylla_cdc, which src/ does not hold) *)

(** Modelled from the spec: the operation kinds of a change event, numbered
    as the CDC log's operation column numbers them. The replicator subtracts
    [RangeDeleteStartInclusive] (resp. [RangeDeleteEndInclusive]) from the
    operation of a start (resp. end) event, and the spec fixes the result:
    Inclusive is 0 and Exclusive is 1. *)
Definition OperationType : Type := Z.
Definition PreImage : OperationType := 0%Z.
Definition Update : OperationType := 1%Z.
Definition Insert : OperationType := 2%Z.
Definition RowDelete : OperationType := 3%Z.
Definition PartitionDelete : OperationType := 4%Z.
Definition RangeDeleteStartInclusive : OperationType := 5%Z.
Definition RangeDeleteStartExclusive : OperationType := 6%Z.
Definition RangeDeleteEndInclusive : OperationType := 7%Z.
Definition RangeDeleteEndExclusive : OperationType := 8%Z.
Definition PostImage : OperationType := 9%Z.

Record ScalarChange : Type := mkScalarChange {
  Value : value;
  IsDeleted : bool
}.

Record ListChange : Type := mkListChange {
  AppendedElements : value;
  RemovedElements : value;
  ListIsReset : bool
}.

Record SetChange : Type := mkSetChange {
  AddedElements : value;
  SetRemovedElements : value;
  SetIsReset : bool
}.

Record UDTChange : Type := mkUDTChange {
  AddedFields : list (string * value);
  RemovedFields : list Z;
  UDTIsReset : bool
}.

(** Modelled from the spec: a change row through the accessors the replicator
    calls. [GetValue] is Go's [(v, ok)]: [None] when the row carries no value
    for the column. *)
Record ChangeRow : Type := mkChangeRow {
  GetOperation : OperationType;
  GetTTL : Z;
  GetValue : string -> option value;
  GetScalarChange : string -> ScalarChange;
  GetListChange : string -> ListChange;
  GetSetChange : string -> SetChange;
  GetUDTChange : string -> UDTChange;
  ChangeColumns : list ColumnInfo
}.

(** Modelled from the spec: a change, the deltas of one write in log order
    with the write's timestamp. *)
Record Change : Type := mkChange {
  GetCassandraTimestamp : Z;
  Delta : list ChangeRow
}.

Record CreateChangeConsumerInput : Type := mkInput {
  TableName : string
}.

(** ** The destination session and the world *)

Inductive request : Type :=
| ReqKeyspaceMetadata (keyspace : string)
| ReqClose
| ReqQuery (stmt : string) (args : list value) (cons : Consistency)
           (idempotent : bool) (timestamp : Z)
| ReqBatch (b : Batch).

(** The destination session: what it was sent so far, and how the cluster
    behind it answers, as functions of that history (so that a closed
    session, a timeout or a failed write are all behaviours of it). An
    execution answers with an error or with none. *)
Record Session : Type := mkSession {
  history : list request;
  metadataAnswer : list request -> string -> string + KeyspaceMetadata;
  execAnswer : list request -> request -> option string
}.

Record World : Type := mkWorld {
  arrays : heap;
  destination : Session
}.

Definition Go (A : Type) : Type := World -> outcome A * World.

Definition ret {A : Type} (a : A) : Go A := fun w => (Done a, w).

Definition bind {A B : Type} (c : Go A) (k : A -> Go B) : Go B :=
  fun w =>
    match c w with
    | (Done a, w') => k a w'
    | (Panicked p, w') => (Panicked p, w')
    end.

Notation "'do' x <- c ;; k" := (bind c (fun x => k))
  (at level 10, x name, c at level 99, k at level 200).
Notation "'do' ' pat <- c ;; k" := (bind c (fun x => match x with pat => k end))
  (at level 10, pat pattern, c at level 99, k at level 200).

Definition raise {A : Type} (p : panic) : Go A := fun w => (Panicked p, w).

Definition lift {A : Type} (c : outcome A) : Go A := fun w => (c, w).

Definition send (q : request) (s : Session) : Session :=
  mkSession (history s ++ [q]) (metadataAnswer s) (execAnswer s).

(** [session.KeyspaceMetadata(keyspace)]. *)
Definition KeyspaceMetadataOf (keyspace : string) : Go (string + KeyspaceMetadata) :=
  fun w =>
    let s := destination w in
    (Done (metadataAnswer s (history s) keyspace),
     mkWorld (arrays w) (send (ReqKeyspaceMetadata keyspace) s)).

(** [session.Close()]. *)
Definition Close : Go unit :=
  fun w => (Done tt, mkWorld (arrays w) (send ReqClose (destination w))).

(** [Exec] of a query and [ExecuteBatch]: the request reaches the session and
    the session's answer is the returned error. *)
Definition Exec (q : request) : Go (option string) :=
  fun w =>
    let s := destination w in
    (Done (execAnswer s (history s) q), mkWorld (arrays w) (send q s)).

(** ** The replicator *)

Record replicatorFactory : Type := mkFactory {
  factoryConsistency : Consistency
}.

(** [DeltaReplicator]. Its [session] field is the destination session of the
    world. The four column lists are slices into the heap;
    [rangeDeleteQueryStrs] is made with its final capacity, filled once and
    only indexed afterwards. *)
Record DeltaReplicator : Type := mkReplicator {
  tableName : string;
  consistency : Consistency;
  pkColumns : slice;
  ckColumns : slice;
  otherColumns : slice;
  columnTypes : gmap string TypeInfo;
  allColumns : slice;
  rowDeleteQueryStr : string;
  partitionDeleteQueryStr : string;
  rangeDeleteQueryStrs : list string
}.

(** [r.columnTypes[name]] followed by a method call on the result: a column
    without a type yields the nil interface, and the call panics. *)
Definition typeOfColumn (r : DeltaReplicator) (name : string) : outcome TypeInfo :=
  match columnTypes r !! name with
  | Some typ => Done typ
  | None => Panicked NilDereference
  end.

Definition makeBindMarkerForType (typ : TypeInfo) : string :=
  if decide (Type_ typ ≠ TypeTuple) then "?"
  else
    match Unfrozen typ with
    | TupleType Elements => "(" +:+ Join (replicate (length Elements) "?") ", " +:+ ")"
    | _ => "?"
    end.

Definition appendValueByType (vals : list value) (v : value) (typ : TypeInfo)
  : outcome (list value) :=
  if decide (Type_ typ = TypeTuple) then
    match v with
    | Interfaces vTup => Done (vals ++ default [] vTup)
    | _ => Panicked TypeAssertionFailed
    end
  else Done (vals ++ [v]).

Definition appendKeyValuesToBind (vals : list value) (names : list string)
    (c : ChangeRow) : list value :=
  vals ++ map (fun name => default UnsetValue (GetValue c name)) names.

Definition makeBindMarkerAssignmentList (r : DeltaReplicator)
    (columnNames : list string) : outcome (list string) :=
  omap (fun name =>
          check typ <- typeOfColumn r name ;;
          Done (name +:+ " = " +:+ makeBindMarkerForType typ))
       columnNames.

Definition makeBindMarkerAssignments (r : DeltaReplicator)
    (columnNames : list string) (sep : string) : outcome string :=
  check assignments <- makeBindMarkerAssignmentList r columnNames ;;
  Done (Join assignments sep).

(** *** Query templates *)

Definition startOps : list string := [">="; ">"; ""].
Definition endOps : list string := ["<="; "<"; ""].

Section Replicator.
Variable growslice : nat -> nat -> nat.
Variable parseType : gocqlTypeInfo -> TypeInfo.

Definition goAppend (s : slice) (xs : list string) : Go slice :=
  fun w =>
    let '(h, s') := appendSlice growslice (arrays w) s xs in
    (Done s', mkWorld h (destination w)).

Definition goAlloc (xs : list string) : Go slice :=
  fun w =>
    let '(h, s') := allocSlice (arrays w) xs in
    (Done s', mkWorld h (destination w)).

Definition goView (s : slice) : Go (list string) :=
  fun w => (Done (view (arrays w) s), w).

(** [append(s, t...)] for a slice [t]. *)
Definition goAppendSlice (s t : slice) : Go slice :=
  do xs <- goView t ;;
  goAppend s xs.

Definition computeRowDeleteQuery (r : DeltaReplicator) : Go DeltaReplicator :=
  do empty <- goAlloc [] ;;
  do pks <- goAppendSlice empty (pkColumns r) ;;
  do keyColumns <- goAppendSlice pks (ckColumns r) ;;
  do keyNames <- goView keyColumns ;;
  do conds <- lift (makeBindMarkerAssignments r keyNames " AND ") ;;
  ret (mkReplicator (tableName r) (consistency r) (pkColumns r) (ckColumns r)
         (otherColumns r) (columnTypes r) (allColumns r)
         ("DELETE FROM " +:+ tableName r +:+ " WHERE " +:+ conds)
         (partitionDeleteQueryStr r) (rangeDeleteQueryStrs r)).

Definition computePartitionDeleteQuery (r : DeltaReplicator) : Go DeltaReplicator :=
  do pkNames <- goView (pkColumns r) ;;
  do conds <- lift (makeBindMarkerAssignments r pkNames " AND ") ;;
  ret (mkReplicator (tableName r) (consistency r) (pkColumns r) (ckColumns r)
         (otherColumns r) (columnTypes r) (allColumns r)
         (rowDeleteQueryStr r)
         ("DELETE FROM " +:+ tableName r +:+ " WHERE " +:+ conds)
         (rangeDeleteQueryStrs r)).

(** One turn of the inner loop of [computeRangeDeleteQueries]: the query
    string of bound combination [typ] for clustering column [ckCol], built
    by appending to (an alias of) [eqConds]. *)
Definition rangeDeleteQuery (prefix : string) (eqConds : slice)
    (ckCol : string) (typ : nat) : Go string :=
  let startOp := default "" (startOps !! (typ mod 3)) in
  let endOp := default "" (endOps !! (typ / 3)) in
  let condsWithBounds := eqConds in
  do condsWithBounds <-
    (if decide (startOp ≠ "") then
       goAppend condsWithBounds [ckCol +:+ " " +:+ startOp +:+ " ?"]
     else ret condsWithBounds) ;;
  do condsWithBounds <-
    (if decide (endOp ≠ "") then
       goAppend condsWithBounds [ckCol +:+ " " +:+ endOp +:+ " ?"]
     else ret condsWithBounds) ;;
  do conds <- goView condsWithBounds ;;
  ret (prefix +:+ Join conds " AND ").

(** [for typ := 0; typ < 8; typ++] over the combinations [typs]. *)
Fixpoint rangeDeleteQueriesFor (prefix : string) (eqConds : slice)
    (ckCol : string) (typs : list nat) (acc : list string) : Go (list string) :=
  match typs with
  | [] => ret acc
  | typ :: rest =>
      do queryStr <- rangeDeleteQuery prefix eqConds ckCol typ ;;
      rangeDeleteQueriesFor prefix eqConds ckCol rest (acc ++ [queryStr])
  end.

(** [for _, ckCol := range r.ckColumns]. *)
Fixpoint rangeDeleteQueriesLoop (prefix : string) (eqConds : slice)
    (cks : list string) (acc : list string) : Go (list string) :=
  match cks with
  | [] => ret acc
  | ckCol :: rest =>
      do acc <- rangeDeleteQueriesFor prefix eqConds ckCol (seq 0 8) acc ;;
      do eqConds <- goAppend eqConds [ckCol +:+ " = ?"] ;;
      rangeDeleteQueriesLoop prefix eqConds rest acc
  end.

Definition computeRangeDeleteQueries (r : DeltaReplicator) : Go DeltaReplicator :=
  let prefix := "DELETE FROM " +:+ tableName r +:+ " WHERE " in
  do pkNames <- goView (pkColumns r) ;;
  do assignments <- lift (makeBindMarkerAssignmentList r pkNames) ;;
  do eqConds <- goAlloc assignments ;;
  do ckNames <- goView (ckColumns r) ;;
  do strs <- rangeDeleteQueriesLoop prefix eqConds ckNames [] ;;
  ret (mkReplicator (tableName r) (consistency r) (pkColumns r) (ckColumns r)
         (otherColumns r) (columnTypes r) (allColumns r)
         (rowDeleteQueryStr r) (partitionDeleteQueryStr r) strs).

(** *** Construction *)

(** The first loop of [NewDeltaReplicator]: the columns by kind, in the
    order of [meta.OrderedColumns]. [colDesc.Kind] dereferences the
    descriptor, which is nil for a name [meta.Columns] does not hold. *)
Fixpoint classifyColumns (meta : TableMetadata) (names : list string)
    (pk ck other : slice) : Go (slice * slice * slice) :=
  match names with
  | [] => ret (pk, ck, other)
  | name :: rest =>
      match Columns meta !! name with
      | None => raise NilDereference
      | Some colDesc =>
          match Kind colDesc with
          | ColumnPartitionKey =>
              do pk <- goAppend pk [name] ;; classifyColumns meta rest pk ck other
          | ColumnClusteringKey =>
              do ck <- goAppend ck [name] ;; classifyColumns meta rest pk ck other
          | _ =>
              do other <- goAppend other [name] ;; classifyColumns meta rest pk ck other
          end
      end
  end.

Definition NewDeltaReplicator (kmeta : KeyspaceMetadata) (meta : TableMetadata)
    (cons : Consistency) : Go (DeltaReplicator + string) :=
  do '(pkColumns, ckColumns, otherColumns) <-
    classifyColumns meta (OrderedColumns meta) nilSlice nilSlice nilSlice ;;
  let columnTypes := (fun colMeta => parseType (ColumnType colMeta)) <$> Columns meta in
  do empty <- goAlloc [] ;;
  do all <- goAppendSlice empty otherColumns ;;
  do all <- goAppendSlice all pkColumns ;;
  do all <- goAppendSlice all ckColumns ;;
  let dr := mkReplicator (Keyspace meta +:+ "." +:+ Name meta) cons
              pkColumns ckColumns otherColumns columnTypes all "" "" [] in
  do dr <- computeRowDeleteQuery dr ;;
  do dr <- computePartitionDeleteQuery dr ;;
  do dr <- computeRangeDeleteQueries dr ;;
  ret (inl dr).

(** *** Inserts and updates *)

(** The row marker an insert starts its batch with. *)
Definition insertMarker (r : DeltaReplicator) (c : ChangeRow)
    (keyColumns : list string) : outcome (list BatchEntry) :=
  check bindMarkers <-
    omap (fun columnName =>
            check typ <- typeOfColumn r columnName ;;
            Done (makeBindMarkerForType typ))
         keyColumns ;;
  let insertStr :=
    "INSERT INTO " +:+ tableName r +:+ " (" +:+ Join keyColumns ", "
    +:+ ") VALUES (" +:+ Join bindMarkers ", " +:+ ") USING TTL ?" in
  let vals := appendKeyValuesToBind [] keyColumns c in
  let vals := vals ++ [Int (GetTTL c)] in
  Done [mkEntry insertStr vals].

(** A column that is not a non-frozen collection. *)
Definition scalarMutations (r : DeltaReplicator) (c : ChangeRow)
    (keyColumns : list string) (pkConditions colName : string) (typ : TypeInfo)
  : outcome (list BatchEntry) :=
  let scalarChange := GetScalarChange c colName in
  if IsDeleted scalarChange then
    let deleteStr :=
      "DELETE " +:+ colName +:+ " FROM " +:+ tableName r
      +:+ " WHERE " +:+ pkConditions in
    Done [mkEntry deleteStr (appendKeyValuesToBind [] keyColumns c)]
  else if nonNil (Value scalarChange) then
    let updateStr :=
      "UPDATE " +:+ tableName r +:+ " USING TTL ? SET " +:+ colName +:+ " = "
      +:+ makeBindMarkerForType typ +:+ " WHERE " +:+ pkConditions in
    check vals <- appendValueByType [Int (GetTTL c)] (Value scalarChange) typ ;;
    Done [mkEntry updateStr (appendKeyValuesToBind vals keyColumns c)]
  else Done [].

(** A non-frozen list. *)
Definition listMutations (r : DeltaReplicator) (c : ChangeRow) (timestamp : Z)
    (keyColumns : list string) (pkConditions colName : string) (typ : TypeInfo)
  : outcome (list BatchEntry) :=
  let listChange := GetListChange c colName in
  let cleared :=
    if ListIsReset listChange then
      let deleteStr :=
        "DELETE " +:+ colName +:+ " FROM " +:+ tableName r
        +:+ " USING TIMESTAMP ? WHERE " +:+ pkConditions in
      let clearTimestamp :=
        if nonNil (AppendedElements listChange) then wrap64 (timestamp - 1)
        else timestamp in
      [mkEntry deleteStr (appendKeyValuesToBind [Int clearTimestamp] keyColumns c)]
    else [] in
  check appended <-
    (if nonNil (AppendedElements listChange) then
       let setStr :=
         "UPDATE " +:+ tableName r +:+ " USING TTL ? SET " +:+ colName
         +:+ "[SCYLLA_TIMEUUID_LIST_INDEX(?)] = " +:+ makeBindMarkerForType typ
         +:+ " WHERE " +:+ pkConditions in
       check cells <- reflect_MapRange (AppendedElements listChange) ;;
       omap (fun '(k, v) =>
               check vals <- appendValueByType [Int (GetTTL c); k] v typ ;;
               Done (mkEntry setStr (appendKeyValuesToBind vals keyColumns c)))
            cells
     else Done []) ;;
  check removed <-
    (if nonNil (RemovedElements listChange) then
       let clearStr :=
         "UPDATE " +:+ tableName r +:+ " SET " +:+ colName
         +:+ "[SCYLLA_TIMEUUID_LIST_INDEX(?)] = null WHERE " +:+ pkConditions in
       check els <- reflect_Elements (RemovedElements listChange) ;;
       Done (map (fun k => mkEntry clearStr (appendKeyValuesToBind [k] keyColumns c)) els)
     else Done []) ;;
  Done (cleared ++ appended ++ removed).

(** A non-frozen set or map. Both read the change with [GetSetChange]. *)
Definition setOrMapMutations (r : DeltaReplicator) (c : ChangeRow)
    (keyColumns : list string) (pkConditions colName : string) (typ : TypeInfo)
  : list BatchEntry :=
  let change :=
    if decide (Type_ typ = TypeSet) then GetSetChange c colName
    else GetSetChange c colName in
  let added := AddedElements change in
  let removed := SetRemovedElements change in
  let isReset := SetIsReset change in
  if isReset then
    let setStr :=
      "UPDATE " +:+ tableName r +:+ " USING TTL ? SET " +:+ colName
      +:+ " = ? WHERE " +:+ pkConditions in
    [mkEntry setStr (appendKeyValuesToBind [Int (GetTTL c); added] keyColumns c)]
  else
    (if nonNil added then
       let addStr :=
         "UPDATE " +:+ tableName r +:+ " USING TTL ? SET " +:+ colName +:+ " = "
         +:+ colName +:+ " + ? WHERE " +:+ pkConditions in
       [mkEntry addStr (appendKeyValuesToBind [Int (GetTTL c); added] keyColumns c)]
     else [])
    ++
    (if nonNil removed then
       let remStr :=
         "UPDATE " +:+ tableName r +:+ " USING TTL ? SET " +:+ colName +:+ " = "
         +:+ colName +:+ " - ? WHERE " +:+ pkConditions in
       [mkEntry remStr (appendKeyValuesToBind [Int (GetTTL c); removed] keyColumns c)]
     else []).

(** [udtChange.AddedFields[name]]: the nil interface for a missing key. *)
Fixpoint lookupField (fields : list (string * value)) (name : string) : value :=
  match fields with
  | [] => Nil
  | (k, v) :: rest => if decide (k = name) then v else lookupField rest name
  end.

(** The map [udtChange.AddedFields] as one value. *)
Definition fieldsValue (fields : list (string * value)) : value :=
  Map (Some (map (fun kv => (Text (fst kv), snd kv)) fields)).

(** The search of [c.Columns()] for the column's [gocql.UDTTypeInfo]: the
    elements of the first column of that name, none when there is no such
    column, a panic when its type is not a UDT's. *)
Fixpoint udtElements (colInfos : list ColumnInfo) (colName : string)
  : outcome (list string) :=
  match colInfos with
  | [] => Done []
  | colInfo :: rest =>
      if decide (ColumnName colInfo = colName) then
        match ColumnTypeInfo colInfo with
        | UDTTypeInfo Elements => Done Elements
        | OtherTypeInfo _ => Panicked TypeAssertionFailed
        end
      else udtElements rest colName
  end.

(** [for _, idx := range udtChange.RemovedFields { elementValues[idx] = nil }]. *)
Fixpoint removeFields (elementValues : list value) (removed : list Z)
  : outcome (list value) :=
  match removed with
  | [] => Done elementValues
  | idx :: rest =>
      if decide (0 <= idx < Z.of_nat (length elementValues))%Z then
        removeFields (<[Z.to_nat idx := Nil]> elementValues) rest
      else Panicked (IndexOutOfRange InElementValues idx (length elementValues))
  end.

(** A non-frozen UDT. *)
Definition udtMutations (r : DeltaReplicator) (c : ChangeRow)
    (keyColumns : list string) (pkConditions colName : string) (typ : TypeInfo)
  : outcome (list BatchEntry) :=
  let udtChange := GetUDTChange c colName in
  if UDTIsReset udtChange then
    let updateStr :=
      "UPDATE " +:+ tableName r +:+ " USING TTL ? SET " +:+ colName +:+ " = "
      +:+ makeBindMarkerForType typ +:+ " WHERE " +:+ pkConditions in
    check vals <-
      appendValueByType [Int (GetTTL c)] (fieldsValue (AddedFields udtChange)) typ ;;
    Done [mkEntry updateStr (appendKeyValuesToBind vals keyColumns c)]
  else
    check elements <- udtElements (ChangeColumns c) colName ;;
    check elementValues <-
      omap (fun el =>
              let v := lookupField (AddedFields udtChange) el in
              if nonNil v then
                check isNil <- reflect_IsNil v ;;
                Done (if isNil : bool then UnsetValue else v)
              else Done UnsetValue)
           elements ;;
    check elementValues <- removeFields elementValues (RemovedFields udtChange) ;;
    check perField <-
      omap (fun '(el, v) =>
              if isUnset v then Done []
              else
                let bindValue :=
                  if nonNil v then makeBindMarkerForType typ else "null" in
                let updateFieldStr :=
                  "UPDATE " +:+ tableName r +:+ " USING TTL ? SET " +:+ colName
                  +:+ "." +:+ el +:+ " = " +:+ bindValue +:+ " WHERE "
                  +:+ pkConditions in
                check vals <-
                  (if nonNil v then appendValueByType [Int (GetTTL c)] v typ
                   else Done [Int (GetTTL c)]) ;;
                Done [mkEntry updateFieldStr (appendKeyValuesToBind vals keyColumns c)])
           (zip elements elementValues) ;;
    Done (concat perField).

(** The body of [for _, colName := range r.otherColumns]. *)
Definition columnMutations (r : DeltaReplicator) (c : ChangeRow) (timestamp : Z)
    (keyColumns : list string) (pkConditions colName : string)
  : outcome (list BatchEntry) :=
  check typ <- typeOfColumn r colName ;;
  let isNonFrozenCollection := negb (IsFrozen typ) && IsCollection (Type_ typ) in
  if negb isNonFrozenCollection then
    scalarMutations r c keyColumns pkConditions colName typ
  else if decide (Type_ typ = TypeList) then
    listMutations r c timestamp keyColumns pkConditions colName typ
  else if decide (Type_ typ = TypeSet \/ Type_ typ = TypeMap) then
    Done (setOrMapMutations r c keyColumns pkConditions colName typ)
  else if decide (Type_ typ = TypeUDT) then
    udtMutations r c keyColumns pkConditions colName typ
  else Done [].

(** The statements [processInsertOrUpdate] queues, in batch order. *)
Definition insertOrUpdateEntries (r : DeltaReplicator) (timestamp : Z)
    (isInsert : bool) (c : ChangeRow) (keyColumns otherNames : list string)
  : outcome (list BatchEntry) :=
  check marker <- (if isInsert then insertMarker r c keyColumns else Done []) ;;
  check pkConditions <- makeBindMarkerAssignments r keyColumns " AND " ;;
  check perColumn <-
    omap (columnMutations r c timestamp keyColumns pkConditions) otherNames ;;
  Done (marker ++ concat perColumn).

Definition processInsertOrUpdate (r : DeltaReplicator) (timestamp : Z)
    (isInsert : bool) (c : ChangeRow) : Go (option string) :=
  do keyColumns <- goAppendSlice (pkColumns r) (ckColumns r) ;;
  do keyNames <- goView keyColumns ;;
  do otherNames <- goView (otherColumns r) ;;
  do entries <- lift (insertOrUpdateEntries r timestamp isInsert c keyNames otherNames) ;;
  Exec (ReqBatch (mkBatch UnloggedBatch entries (consistency r) timestamp)).

Definition processUpdate (r : DeltaReplicator) (timestamp : Z) (c : ChangeRow)
  : Go (option string) :=
  processInsertOrUpdate r timestamp false c.

Definition processInsert (r : DeltaReplicator) (timestamp : Z) (c : ChangeRow)
  : Go (option string) :=
  processInsertOrUpdate r timestamp true c.

(** *** Deletes *)

Definition processRowDelete (r : DeltaReplicator) (timestamp : Z) (c : ChangeRow)
  : Go (option string) :=
  do pkNames <- goView (pkColumns r) ;;
  do ckNames <- goView (ckColumns r) ;;
  let vals := appendKeyValuesToBind [] pkNames c in
  let vals := appendKeyValuesToBind vals ckNames c in
  Exec (ReqQuery (rowDeleteQueryStr r) vals (consistency r) true timestamp).

Definition processPartitionDelete (r : DeltaReplicator) (timestamp : Z)
    (c : ChangeRow) : Go (option string) :=
  do pkNames <- goView (pkColumns r) ;;
  let vals := appendKeyValuesToBind [] pkNames c in
  Exec (ReqQuery (partitionDeleteQueryStr r) vals (consistency r) true timestamp).

(** The variables of the loop of [processRangeDelete]. *)
Record rangeScan : Type := mkScan {
  vals : list value;
  prevRight : value;
  hasLeft : bool;
  hasRight : bool;
  baseIdx : Z
}.

(** [for i, ckCol := range r.ckColumns], from column [i] on. *)
Fixpoint scanClustering (start end_ : ChangeRow) (cks : list string) (i : Z)
    (st : rangeScan) : rangeScan :=
  match cks with
  | [] => st
  | ckCol :: rest =>
      match GetValue start ckCol, GetValue end_ ckCol with
      | Some left_, Some right_ =>
          scanClustering start end_ rest (i + 1)
            (mkScan (vals st ++ [left_]) right_ true true (baseIdx st))
      | Some left_, None =>
          mkScan (vals st ++ [left_]) (prevRight st) true false i
      | None, Some right_ =>
          mkScan (vals st ++ [right_]) (prevRight st) false true i
      | None, None =>
          mkScan (vals st ++ [prevRight st]) (prevRight st) true true (i - 1)
      end
  end.

(** The loop of [processRangeDelete] with the [baseIdx == -1] case after
    it: the variables as they stand when the offsets are computed. *)
Definition resolveBounds (start end_ : ChangeRow) (pkNames ckNames : list string)
  : rangeScan :=
  let vals0 := appendKeyValuesToBind [] pkNames start in
  let st := scanClustering start end_ ckNames 0 (mkScan vals0 Nil false false (-1)) in
  if decide (baseIdx st = -1)%Z then
    mkScan (vals st ++ [prevRight st]) (prevRight st) (hasLeft st) (hasRight st)
      (Z.of_nat (length ckNames) - 1)
  else st.

Definition leftOff (st : rangeScan) (start : ChangeRow) : Z :=
  if hasLeft st then wrap8 (GetOperation start - RangeDeleteStartInclusive)
  else 2%Z.

Definition rightOff (st : rangeScan) (end_ : ChangeRow) : Z :=
  if hasRight st then wrap8 (GetOperation end_ - RangeDeleteEndInclusive)
  else 2%Z.

(** The bound resolution of [processRangeDelete]: the index of the query to
    use and the values to bind. *)
Definition resolveRange (start end_ : ChangeRow) (pkNames ckNames : list string)
  : Z * list value :=
  let st := resolveBounds start end_ pkNames ckNames in
  let queryIdx := (8 * baseIdx st + leftOff st start + 3 * rightOff st end_)%Z in
  (queryIdx, vals st).

Definition processRangeDelete (r : DeltaReplicator) (timestamp : Z)
    (start end_ : ChangeRow) : Go (option string) :=
  do pkNames <- goView (pkColumns r) ;;
  do ckNames <- goView (ckColumns r) ;;
  let '(queryIdx, vals) := resolveRange start end_ pkNames ckNames in
  if decide (0 <= queryIdx)%Z then
    match rangeDeleteQueryStrs r !! Z.to_nat queryIdx with
    | Some queryStr =>
        Exec (ReqQuery queryStr vals (consistency r) true timestamp)
    | None => raise (IndexOutOfRange InRangeQueries queryIdx (length (rangeDeleteQueryStrs r)))
    end
  else raise (IndexOutOfRange InRangeQueries queryIdx (length (rangeDeleteQueryStrs r))).

(** *** Consume *)

(** The loop of [Consume] from position [pos] on. It runs for at most
    [budget] turns; [Consume] gives it one turn per delta, which it never
    uses up. *)
Fixpoint Consume_loop (budget : nat) (r : DeltaReplicator) (timestamp : Z)
    (delta : list ChangeRow) (pos : nat) : Go (option string) :=
  match budget with
  | O =>
      if decide (pos < length delta) then raise LoopBudgetExhausted else ret None
  | S budget =>
      match delta !! pos with
      | None => ret None
      | Some change =>
          let continue (step : Go (option string)) (pos : nat) :=
            do err <- step ;;
            match err with
            | Some e => ret (Some e)
            | None => Consume_loop budget r timestamp delta pos
            end in
          let op := GetOperation change in
          if decide (op = Update) then
            continue (processUpdate r timestamp change) (pos + 1)
          else if decide (op = Insert) then
            continue (processInsert r timestamp change) (pos + 1)
          else if decide (op = RowDelete) then
            continue (processRowDelete r timestamp change) (pos + 1)
          else if decide (op = PartitionDelete) then
            continue (processPartitionDelete r timestamp change) (pos + 1)
          else if decide (op = RangeDeleteStartInclusive
                          \/ op = RangeDeleteStartExclusive) then
            let start := change in
            match delta !! (pos + 1) with
            | None => raise (IndexOutOfRange InDelta (Z.of_nat (pos + 1)) (length delta))
            | Some end_ =>
                continue (processRangeDelete r timestamp start end_) (pos + 2)
            end
          else raise (UnsupportedOperation op)
      end
  end.

Definition Consume (r : DeltaReplicator) (c : Change) : Go (option string) :=
  Consume_loop (length (Delta c)) r (GetCassandraTimestamp c) (Delta c) 0.

Definition CreateChangeConsumer (rf : replicatorFactory)
    (input : CreateChangeConsumerInput) : Go (DeltaReplicator + string) :=
  let splitTableName := SplitN_dot_2 (TableName input) in
  match splitTableName with
  | keyspace :: table :: _ =>
      do answer <- KeyspaceMetadataOf keyspace ;;
      match answer with
      | inl err =>
          do _ <- Close ;;
          ret (inr err)
      | inr kmeta =>
          match Tables kmeta !! table with
          | None =>
              do _ <- Close ;;
              ret (inr ("table " +:+ TableName input +:+ " does not exist"))
          | Some tmeta => NewDeltaReplicator kmeta tmeta (factoryConsistency rf)
          end
      end
  | _ => ret (inr ("table name is not fully qualified: " +:+ TableName input))
  end.

(** ** Invariants of the heap and of a constructed replicator *)

(** Address zero holds the empty array of the nil slice. *)
Definition heap_ok (h : heap) : Prop := h !! 0 = Some [].

Definition valid (h : heap) (s : slice) : Prop :=
  base s < length h /\ len s <= cap h s.

(** An append to [s] does not reach the elements of [t]. *)
Definition apart (s t : slice) : Prop := base t <> base s \/ len t = 0.

(** The column lists of a replicator own their arrays: appending to
    [pkColumns] cannot overwrite an element of another list. *)
Definition replicator_ok (h : heap) (r : DeltaReplicator) : Prop :=
  heap_ok h
  /\ valid h (pkColumns r) /\ valid h (ckColumns r)
  /\ valid h (otherColumns r) /\ valid h (allColumns r)
  /\ apart (pkColumns r) (ckColumns r)
  /\ apart (pkColumns r) (otherColumns r)
  /\ apart (pkColumns r) (allColumns r).

(** The translator state an event can observe: the four column lists as
    they read, the capacities behind them, and the fields held by value. *)
Definition pkNames (h : heap) (r : DeltaReplicator) := view h (pkColumns r).
Definition ckNames (h : heap) (r : DeltaReplicator) := view h (ckColumns r).
Definition otherNames (h : heap) (r : DeltaReplicator) := view h (otherColumns r).
Definition allNames (h : heap) (r : DeltaReplicator) := view h (allColumns r).

(** Every name of the list has a type in [r.columnTypes]. *)
Definition typed (r : DeltaReplicator) (names : list string) : Prop :=
  Forall (fun name => is_Some (columnTypes r !! name)) names.

(** What an event can observe of the translator besides the fields held by
    value: the four column lists as they read and the capacities behind
    them. *)
Definition translatorState (h : heap) (r : DeltaReplicator)
  : list string * list string * list string * list string * (nat * nat * nat * nat) :=
  (pkNames h r, ckNames h r, otherNames h r, allNames h r,
   (cap h (pkColumns r), cap h (ckColumns r),
    cap h (otherColumns r), cap h (allColumns r))).

(** The heap after [keyColumns := append(r.pkColumns, r.ckColumns...)]. *)
Definition keyColumnsHeap (h : heap) (r : DeltaReplicator) : heap :=
  (appendSlice growslice h (pkColumns r) (view h (ckColumns r))).1.

(** ** The range-delete template table as the spec words it *)

(** Flat index of the template of (depth, left kind, right kind), with
    inclusive = 0, exclusive = 1 and absent = 2. *)
Definition flatIndex (d l r : nat) : nat := 8 * d + l + 3 * r.

(** A valid combination of bound kinds: every pair but (absent, absent). *)
Definition boundedPair (l r : nat) : Prop := l <= 2 /\ r <= 2 /\ ~ (l = 2 /\ r = 2).

(** The condition of one bound, none for the omitted operator. *)
Definition boundCond (ck op : string) : list string :=
  if decide (op <> "") then [ck +:+ " " +:+ op +:+ " ?"] else [].

(** [DELETE FROM T WHERE <pk equalities> AND <ck[0..d-1] equalities> AND
    <ck[d] leftOp ?> [AND <ck[d] rightOp ?>]]. *)
Definition rangeTemplate (table : string) (pkConds cks : list string)
    (d l r : nat) : string :=
  let ck := default "" (cks !! d) in
  "DELETE FROM " +:+ table +:+ " WHERE "
  +:+ Join (pkConds ++ map (fun c => c +:+ " = ?") (take d cks)
            ++ boundCond ck (default "" (startOps !! l))
            ++ boundCond ck (default "" (endOps !! r))) " AND ".

(** A local computation on a heap that had [n] arrays leaves every slice
    into those arrays as it was. *)
Definition keeps (n : nat) (h h' : heap) : Prop :=
  heap_ok h' /\ length h <= length h'
  /\ forall t, base t < n -> valid h t ->
       valid h' t /\ view h' t = view h t /\ cap h' t = cap h t.

(** The statement of bound combination [typ] on clustering column [ckCol]
    after the equality conditions [conds]. *)
Definition tableRow (prefix : string) (conds : list string) (ckCol : string)
    (typ : nat) : string :=
  prefix +:+ Join (conds
                   ++ boundCond ckCol (default "" (startOps !! (typ mod 3)))
                   ++ boundCond ckCol (default "" (endOps !! (typ / 3)))) " AND ".

(** The table the two loops of [computeRangeDeleteQueries] produce, without
    the heap: eight rows per clustering column, each column then joining the
    equality conditions. *)
Fixpoint tableRows (prefix : string) (conds cks : list string) : list string :=
  match cks with
  | [] => []
  | ckCol :: rest =>
      map (tableRow prefix conds ckCol) (seq 0 8)
      ++ tableRows prefix (conds ++ [ckCol +:+ " = ?"]) rest
  end.

(** ** Range tombstones as the spec words them *)

Definition isRangeStart (op : OperationType) : Prop :=
  op = RangeDeleteStartInclusive \/ op = RangeDeleteStartExclusive.

Definition isRangeEnd (op : OperationType) : Prop :=
  op = RangeDeleteEndInclusive \/ op = RangeDeleteEndExclusive.

(** The bound kind a sub-operation gives: Inclusive is 0, Exclusive is 1. *)
Definition startKind (op : OperationType) : nat :=
  if decide (op = RangeDeleteStartInclusive) then 0 else 1.

Definition endKind (op : OperationType) : nat :=
  if decide (op = RangeDeleteEndInclusive) then 0 else 1.

(** The kind of a bound: absent (2) without a value, the sub-operation's
    kind with one. *)
Definition kindOf (bound : option value) (sub : nat) : nat :=
  match bound with
  | Some _ => sub
  | None => 2
  end.

Definition bothSides (start end_ : ChangeRow) (c : string) : Prop :=
  is_Some (GetValue start c) /\ is_Some (GetValue end_ c).

(** The value a row binds for a key column. *)
Definition keyValue (c : ChangeRow) (name : string) : value :=
  default UnsetValue (GetValue c name).

(** [rangeBounds start end_ cks depth left right]: what the scan of the
    clustering columns [cks] in key order finds. The columns before
    [depth] are present on both sides; [depth] is the first column present
    on one side only, or the column before the first one absent on both
    sides (its two values are then the bounds), or the last column when
    every column is present on both sides. *)
Inductive rangeBounds (start end_ : ChangeRow) (cks : list string)
  : nat -> option value -> option value -> Prop :=
| LeftBounded eq c rest l :
    cks = eq ++ c :: rest -> Forall (bothSides start end_) eq ->
    GetValue start c = Some l -> GetValue end_ c = None ->
    rangeBounds start end_ cks (length eq) (Some l) None
| RightBounded eq c rest rv :
    cks = eq ++ c :: rest -> Forall (bothSides start end_) eq ->
    GetValue start c = None -> GetValue end_ c = Some rv ->
    rangeBounds start end_ cks (length eq) None (Some rv)
| TwoSidedBeforeAbsent eq p c rest l rv :
    cks = eq ++ p :: c :: rest -> Forall (bothSides start end_) eq ->
    GetValue start p = Some l -> GetValue end_ p = Some rv ->
    GetValue start c = None -> GetValue end_ c = None ->
    rangeBounds start end_ cks (length eq) (Some l) (Some rv)
| TwoSidedLast eq p l rv :
    cks = eq ++ [p] -> Forall (bothSides start end_) eq ->
    GetValue start p = Some l -> GetValue end_ p = Some rv ->
    rangeBounds start end_ cks (length eq) (Some l) (Some rv).

(** The loop variables after a run of columns present on both sides. *)
Definition afterBoth (start end_ : ChangeRow) (st : rangeScan) (eq : list string)
  : rangeScan :=
  fold_left (fun st c =>
               mkScan (vals st ++ [keyValue start c]) (keyValue end_ c)
                 true true (baseIdx st))
            eq st.

(** ** The example schema of the spec *)

Fixpoint lookupKey (keys : list (string * value)) (name : string) : option value :=
  match keys with
  | [] => None
  | (k, v) :: rest => if decide (k = name) then Some v else lookupKey rest name
  end.

(** A change row that carries the given key values and no column change. *)
Definition keyRow (op : OperationType) (ttl : Z) (keys : list (string * value))
  : ChangeRow :=
  mkChangeRow op ttl (lookupKey keys)
    (fun _ => mkScalarChange Nil false)
    (fun _ => mkListChange Nil Nil false)
    (fun _ => mkSetChange Nil Nil false)
    (fun _ => mkUDTChange [] [] false)
    [].

(** Scenario 5 of the spec: the start event carries [seq = 5] with the
    Inclusive sub-kind, the end event carries no [seq]. *)
Definition exampleRangeStart : ChangeRow :=
  keyRow RangeDeleteStartInclusive 0 [("id", Int 1); ("seq", Int 5)].
Definition exampleRangeEnd : ChangeRow :=
  keyRow RangeDeleteEndInclusive 0 [("id", Int 1)].

(** ** Inserts and updates as the spec words them *)

(** The key conditions [<keys>] of a statement: [k = <marker>] for each key
    column, joined by AND. *)
Definition keyConditions (r : DeltaReplicator) (keys : list string) : outcome string :=
  makeBindMarkerAssignments r keys " AND ".

(** The bind markers of the key columns, [Join]ed into the row marker. *)
Definition keyMarkers (r : DeltaReplicator) (keys : list string)
  : outcome (list string) :=
  omap (fun columnName =>
          check typ <- typeOfColumn r columnName ;;
          Done (makeBindMarkerForType typ))
       keys.

(** [INSERT INTO T (<key cols>) VALUES (<markers>) USING TTL ?] bound to
    the key values followed by the TTL. *)
Definition rowMarker (r : DeltaReplicator) (c : ChangeRow) (keys markers : list string)
  : BatchEntry :=
  mkEntry ("INSERT INTO " +:+ tableName r +:+ " (" +:+ Join keys ", "
           +:+ ") VALUES (" +:+ Join markers ", " +:+ ") USING TTL ?")
          (map (keyValue c) keys ++ [Int (GetTTL c)]).

(** [DELETE col FROM T WHERE <keys>]. *)
Definition deleteColumn (r : DeltaReplicator) (c : ChangeRow) (keys : list string)
    (conds col : string) : BatchEntry :=
  mkEntry ("DELETE " +:+ col +:+ " FROM " +:+ tableName r +:+ " WHERE " +:+ conds)
          (map (keyValue c) keys).

(** [UPDATE T USING TTL ? SET col = ? WHERE <keys>] bound to the TTL, the
    value and the key values. *)
Definition overwriteColumn (r : DeltaReplicator) (c : ChangeRow) (keys : list string)
    (conds col : string) (v : value) : BatchEntry :=
  mkEntry ("UPDATE " +:+ tableName r +:+ " USING TTL ? SET " +:+ col
           +:+ " = ? WHERE " +:+ conds)
          ([Int (GetTTL c); v] ++ map (keyValue c) keys).

(** [UPDATE T USING TTL ? SET col = col + ? WHERE <keys>] (or [-]). *)
Definition editColumn (r : DeltaReplicator) (c : ChangeRow) (keys : list string)
    (conds col sign : string) (v : value) : BatchEntry :=
  mkEntry ("UPDATE " +:+ tableName r +:+ " USING TTL ? SET " +:+ col +:+ " = "
           +:+ col +:+ " " +:+ sign +:+ " ? WHERE " +:+ conds)
          ([Int (GetTTL c); v] ++ map (keyValue c) keys).

(** [DELETE col FROM T USING TIMESTAMP ? WHERE <keys>] bound to [ts]. *)
Definition clearList (r : DeltaReplicator) (c : ChangeRow) (keys : list string)
    (conds col : string) (ts : Z) : BatchEntry :=
  mkEntry ("DELETE " +:+ col +:+ " FROM " +:+ tableName r
           +:+ " USING TIMESTAMP ? WHERE " +:+ conds)
          (Int ts :: map (keyValue c) keys).

(** The append of one list cell: [UPDATE T USING TTL ? SET
    col[SCYLLA_TIMEUUID_LIST_INDEX(?)] = ? WHERE <keys>]. *)
Definition appendCell (r : DeltaReplicator) (c : ChangeRow) (keys : list string)
    (conds col : string) (cell : value * value) : BatchEntry :=
  mkEntry ("UPDATE " +:+ tableName r +:+ " USING TTL ? SET " +:+ col
           +:+ "[SCYLLA_TIMEUUID_LIST_INDEX(?)] = ? WHERE " +:+ conds)
          ([Int (GetTTL c); fst cell; snd cell] ++ map (keyValue c) keys).

(** The removal of one list cell. *)
Definition removeCell (r : DeltaReplicator) (c : ChangeRow) (keys : list string)
    (conds col : string) (k : value) : BatchEntry :=
  mkEntry ("UPDATE " +:+ tableName r +:+ " SET " +:+ col
           +:+ "[SCYLLA_TIMEUUID_LIST_INDEX(?)] = null WHERE " +:+ conds)
          (k :: map (keyValue c) keys).

(** The cells an event appends to a list, in the order the batch gets
    them, and the cells it removes. *)
Definition appendedCells (lc : ListChange) : outcome (list (value * value)) :=
  if nonNil (AppendedElements lc) then reflect_MapRange (AppendedElements lc)
  else Done [].

Definition removedCells (lc : ListChange) : outcome (list value) :=
  if nonNil (RemovedElements lc) then reflect_Elements (RemovedElements lc)
  else Done [].

(** A type whose columns are written as a whole: a scalar, a frozen
    container or a frozen UDT. *)
Definition wholeValueType (typ : TypeInfo) : Prop :=
  Type_ typ = TypeNative
  \/ (IsFrozen typ = true
      /\ (Type_ typ = TypeList \/ Type_ typ = TypeSet \/ Type_ typ = TypeMap
          \/ Type_ typ = TypeUDT)).

(** The event leaves regular column [col] alone. *)
Definition untouched (r : DeltaReplicator) (c : ChangeRow) (col : string) : Prop :=
  exists typ,
    columnTypes r !! col = Some typ
    /\ GetScalarChange c col = mkScalarChange Nil false
    /\ GetListChange c col = mkListChange Nil Nil false
    /\ GetSetChange c col = mkSetChange Nil Nil false
    /\ GetUDTChange c col = mkUDTChange [] [] false
    /\ exists elements, udtElements (ChangeColumns c) col = Done elements.

(** Whether a statement is an INSERT. *)
Definition isInsertStmt (e : BatchEntry) : bool := String.prefix "INSERT" (Stmt e).

(** ** Delta sequences as the spec words them *)

(** The operation kinds [Consume] dispatches on. *)
Definition dispatchable (op : OperationType) : Prop :=
  op = Update \/ op = Insert \/ op = RowDelete \/ op = PartitionDelete
  \/ isRangeStart op.

(** Each RangeDeleteStart is immediately followed by a RangeDeleteEnd. *)
Definition paired (delta : list ChangeRow) : Prop :=
  forall pos start,
    delta !! pos = Some start -> isRangeStart (GetOperation start) ->
    exists end_, delta !! (pos + 1) = Some end_ /\ isRangeEnd (GetOperation end_).

(** [reaches delta p q]: the loop of [Consume], standing at position [p],
    gets to stand at position [q] if no handler stops it before: it moves
    on by two positions from a RangeDeleteStart and by one from any other
    event. *)
Inductive reaches (delta : list ChangeRow) : nat -> nat -> Prop :=
| reaches_here p : reaches delta p p
| reaches_skip_one p q ev :
    delta !! p = Some ev -> ~ isRangeStart (GetOperation ev) ->
    reaches delta (p + 1) q -> reaches delta p q
| reaches_skip_two p q ev :
    delta !! p = Some ev -> isRangeStart (GetOperation ev) ->
    reaches delta (p + 2) q -> reaches delta p q.

(** The panics of the handlers, as opposed to those of the loop of
    [Consume] itself. *)
Definition handlerPanic (p : panic) : Prop :=
  match p with
  | IndexOutOfRange InDelta _ _ | UnsupportedOperation _ | LoopBudgetExhausted => False
  | _ => True
  end.

Definition quiet {A : Type} (c : outcome A) : Prop :=
  match c with
  | Done _ => True
  | Panicked p => handlerPanic p
  end.

(** A step that leaves the translator as it found it. *)
Definition steady (r : DeltaReplicator) {A : Type} (step : Go A) : Prop :=
  forall w,
    replicator_ok (arrays w) r ->
    replicator_ok (arrays (step w).2) r
    /\ translatorState (arrays (step w).2) r = translatorState (arrays w) r.

(** [Consume] on each change of a sequence in turn, whatever the outcomes. *)
Fixpoint consumeAll (r : DeltaReplicator) (changes : list Change) (w : World) : World :=
  match changes with
  | [] => w
  | c :: rest => consumeAll r rest (Consume r c w).2
  end.

Definition gquiet {A : Type} (step : Go A) : Prop :=
  forall w, quiet (step w).1.

(** Two worlds a translator cannot tell apart: its lists read the same in
    both, and the session is the same. The rest of the heap, the spare
    capacity behind the lists included, may differ. *)
Definition similar (r : DeltaReplicator) (w1 w2 : World) : Prop :=
  replicator_ok (arrays w1) r /\ replicator_ok (arrays w2) r
  /\ translatorState (arrays w1) r = translatorState (arrays w2) r
  /\ destination w1 = destination w2.

(** A step that does the same in worlds the translator cannot tell apart. *)
Definition agree (r : DeltaReplicator) {A : Type} (step : Go A) : Prop :=
  forall w1 w2,
    similar r w1 w2 ->
    (step w1).1 = (step w2).1 /\ similar r (step w1).2 (step w2).2.

(** ** Requests and their answers *)

(** The session after the requests [qs], sent in order. *)
Definition sends (s : Session) (qs : list request) : Session :=
  fold_left (fun s q => send q s) qs s.

(** The session answered every request of [qs] without an error. *)
Fixpoint accepted (s : Session) (qs : list request) : Prop :=
  match qs with
  | [] => True
  | q :: rest => execAnswer s (history s) q = None /\ accepted (send q s) rest
  end.

(** A handler sends one request and returns the session's answer to it,
    or panics before sending anything. *)
Definition oneRequest (step : Go (option string)) : Prop :=
  forall w,
    match (step w).1 with
    | Done answer =>
        exists q,
          destination (step w).2 = send q (destination w)
          /\ answer = execAnswer (destination w) (history (destination w)) q
    | Panicked _ => destination (step w).2 = destination w
    end.

(** What a run of [Consume] did with the session: every request but
    possibly the last was accepted, and an error returned is the session's
    answer to the last request. *)
Definition orderly (s : Session) (result : outcome (option string)) (s' : Session)
  : Prop :=
  match result with
  | Done (Some e) =>
      exists qs q,
        s' = send q (sends s qs) /\ accepted s qs
        /\ execAnswer (sends s qs) (history (sends s qs)) q = Some e
  | _ => exists qs, s' = sends s qs /\ accepted s qs
  end.

(** ** Consumer construction as the spec words it *)

(** The destination catalog, as the session answers for it now, holds the
    table named [name]: the name splits at its first dot into a keyspace
    the session has metadata for and a table that metadata lists. *)
Definition inCatalog (s : Session) (name : string) : Prop :=
  exists keyspace table kmeta tmeta,
    cut "."%char name = Some (keyspace, table)
    /\ metadataAnswer s (history s) keyspace = inr kmeta
    /\ Tables kmeta !! table = Some tmeta.

Definition isMetadataRequest (q : request) : bool :=
  match q with
  | ReqKeyspaceMetadata _ => true
  | _ => false
  end.

(** A step that works on the heap only and whose results satisfy [P]. *)
Definition heapOnly {A : Type} (P : A -> Prop) (step : Go A) : Prop :=
  forall w,
    destination (step w).2 = destination w
    /\ match (step w).1 with
       | Done a => P a
       | Panicked _ => True
       end.

(** ** Construction as the spec words it *)

Definition isPartitionKey (k : ColumnKind) : bool :=
  match k with
  | ColumnPartitionKey => true
  | _ => false
  end.

Definition isClusteringKey (k : ColumnKind) : bool :=
  match k with
  | ColumnClusteringKey => true
  | _ => false
  end.

Definition isOtherKind (k : ColumnKind) : bool :=
  negb (isPartitionKey k) && negb (isClusteringKey k).

(** The names of [names] whose column is of a kind [p] accepts, in the
    order of [names]. *)
Definition namesWhere (meta : TableMetadata) (p : ColumnKind -> bool)
    (names : list string) : list string :=
  List.filter (fun name => match Columns meta !! name with
                           | Some colDesc => p (Kind colDesc)
                           | None => false
                           end) names.

(** Every column [meta.OrderedColumns] names has a descriptor in
    [meta.Columns]. *)
Definition described (meta : TableMetadata) (names : list string) : Prop :=
  Forall (fun name => is_Some (Columns meta !! name)) names.

(** A slice at address zero is the nil slice or as empty as it. *)
Definition owned (s : slice) : Prop := base s = 0 -> len s = 0.

(** Two slices share a backing array only when both sit at address zero. *)
Definition unshared (s t : slice) : Prop := base s = base t -> base s = 0.

(** The three lists [NewDeltaReplicator] grows in its first loop. *)
Definition classified (h : heap) (pk ck other : slice) : Prop :=
  heap_ok h
  /\ valid h pk /\ valid h ck /\ valid h other
  /\ owned pk /\ owned ck /\ owned other
  /\ unshared pk ck /\ unshared pk other /\ unshared ck other.

(** A step that returns, leaves the session alone and every slice below
    address [n] as it was, with a result and a world that satisfy [Q]. *)
Definition local {A : Type} (n : nat) (step : Go A) (w : World)
    (Q : A -> World -> Prop) : Prop :=
  exists a w',
    step w = (Done a, w')
    /\ destination w' = destination w
    /\ keeps n (arrays w) (arrays w')
    /\ Q a w'.

(** The assignment [name = <marker>] of a column. *)
Definition assignmentOf (meta : TableMetadata) (name : string) : string :=
  match Columns meta !! name with
  | Some colDesc =>
      name +:+ " = " +:+ makeBindMarkerForType (parseType (ColumnType colDesc))
  | None => name
  end.

(** The translator of a table: what [NewDeltaReplicator] is to build from
    the table's metadata, the four column lists being the slices given. *)
Definition translatorOf (meta : TableMetadata) (cons : Consistency)
    (pk ck other all : slice) : DeltaReplicator :=
  let pks := namesWhere meta isPartitionKey (OrderedColumns meta) in
  let cks := namesWhere meta isClusteringKey (OrderedColumns meta) in
  let table := Keyspace meta +:+ "." +:+ Name meta in
  mkReplicator table cons pk ck other
    ((fun colMeta => parseType (ColumnType colMeta)) <$> Columns meta) all
    ("DELETE FROM " +:+ table +:+ " WHERE "
     +:+ Join (map (assignmentOf meta) (pks ++ cks)) " AND ")
    ("DELETE FROM " +:+ table +:+ " WHERE "
     +:+ Join (map (assignmentOf meta) pks) " AND ")
    (tableRows ("DELETE FROM " +:+ table +:+ " WHERE ")
       (map (assignmentOf meta) pks) cks).

(** ** Statements and the values bound to them *)

(** The number of bind markers [?] in a statement. *)
Fixpoint holes (s : string) : nat :=
  match s with
  | EmptyString => 0
  | String a rest => (if Ascii.eqb a "?"%char then 1 else 0) + holes rest
  end.

(** A name that holds no [?]: the replicator splices table, column and
    field names into its statements as they are. *)
Definition plain (s : string) : Prop := holes s = 0.

(** A statement that gets one value for each of its bind markers. *)
Definition wellBound (e : BatchEntry) : Prop := holes (Stmt e) = length (Args e).

(** None of the columns [names] is a tuple. *)
Definition tupleFree (r : DeltaReplicator) (names : list string) : Prop :=
  Forall (fun name => forall typ, columnTypes r !! name = Some typ ->
                                  Type_ typ <> TypeTuple) names.

(** The field names of the UDT columns a row describes are plain. *)
Definition plainFields (c : ChangeRow) : Prop :=
  Forall (fun colInfo => match ColumnTypeInfo colInfo with
                         | UDTTypeInfo Elements => Forall plain Elements
                         | OtherTypeInfo _ => True
                         end) (ChangeColumns c).

(** ** Requests as [Consume] stamps them *)

(** A request that carries the translator's consistency and the timestamp
    [ts]: an idempotent query or an unlogged batch. *)
Definition stamped (r : DeltaReplicator) (ts : Z) (q : request) : Prop :=
  match q with
  | ReqQuery _ _ level idempotent timestamp =>
      level = consistency r /\ idempotent = true /\ timestamp = ts
  | ReqBatch b =>
      BatchKind b = UnloggedBatch /\ BatchConsistency b = consistency r
      /\ BatchTimestamp b = ts
  | ReqKeyspaceMetadata _ | ReqClose => False
  end.

(** A step that sends at most [n] requests, all of them stamped. *)
Definition sendsStamped (r : DeltaReplicator) (ts : Z) (n : nat) {A : Type}
    (step : Go A) : Prop :=
  forall w,
    exists trace,
      history (destination (step w).2) = history (destination w) ++ trace
      /\ Forall (stamped r ts) trace
      /\ length trace <= n.

(** ** UDT columns as the code writes them *)

(** [UPDATE T USING TTL ? SET col.field = ? WHERE <keys>] bound to the TTL,
    the field's value and the key values. *)
Definition setField (r : DeltaReplicator) (c : ChangeRow) (keys : list string)
    (conds col el : string) (v : value) : BatchEntry :=
  mkEntry ("UPDATE " +:+ tableName r +:+ " USING TTL ? SET " +:+ col +:+ "." +:+ el
           +:+ " = ? WHERE " +:+ conds)
          ([Int (GetTTL c); v] ++ map (keyValue c) keys).

(** [UPDATE T USING TTL ? SET col.field = null WHERE <keys>]. *)
Definition clearField (r : DeltaReplicator) (c : ChangeRow) (keys : list string)
    (conds col el : string) : BatchEntry :=
  mkEntry ("UPDATE " +:+ tableName r +:+ " USING TTL ? SET " +:+ col +:+ "." +:+ el
           +:+ " = null WHERE " +:+ conds)
          (Int (GetTTL c) :: map (keyValue c) keys).

(** The nil interface, or a nil pointer, slice or map in an interface. *)
Definition isNilValue (v : value) : bool :=
  match v with
  | Nil | Pointer None | Slice None | Interfaces None | Map None => true
  | _ => false
  end.

(** A value [reflect.Value.IsNil] accepts when it is not the nil interface:
    a pointer, a slice or a map. *)
Definition nillable (v : value) : Prop :=
  match v with
  | Nil | Pointer _ | Slice _ | Interfaces _ | Map _ => True
  | UnsetValue | Int _ | Text _ => False
  end.

(** The statement for the field [el] at position [i] of a UDT: none when
    the change neither sets nor removes it. *)
Definition fieldStatements (r : DeltaReplicator) (c : ChangeRow) (keys : list string)
    (conds col : string) (change : UDTChange) (i : nat) (el : string)
  : list BatchEntry :=
  if decide (Z.of_nat i ∈ RemovedFields change) then
    [clearField r c keys conds col el]
  else
    let v := lookupField (AddedFields change) el in
    if isNilValue v then [] else [setField r c keys conds col el v].

(** ** Columns without a type *)

(** An outcome that is no panic on the nil [TypeInfo] of a column that
    [r.columnTypes] does not hold. *)
Definition nilSafe {A : Type} (c : outcome A) : Prop :=
  match c with
  | Done _ => True
  | Panicked p => p <> NilDereference
  end.

(** ** The example table of the spec *)

(** Table [ks.t] with partition key [id] (int), clustering key [seq] (int)
    and regular columns [val] (int), [tags] (set<text>), [items]
    (list<text>), as the driver describes it. *)
Definition exampleMeta : TableMetadata :=
  mkTableMetadata "ks" "t"
    (list_to_map
       [("id", mkColumnMetadata ColumnPartitionKey (OtherTypeInfo "int"));
        ("seq", mkColumnMetadata ColumnClusteringKey (OtherTypeInfo "int"));
        ("val", mkColumnMetadata ColumnRegular (OtherTypeInfo "int"));
        ("tags", mkColumnMetadata ColumnRegular (OtherTypeInfo "set<text>"));
        ("items", mkColumnMetadata ColumnRegular (OtherTypeInfo "list<text>"))])
    ["id"; "seq"; "val"; "tags"; "items"].

Definition exampleKeyspace : KeyspaceMetadata :=
  mkKeyspaceMetadata {["t" := exampleMeta]}.

(** A [parseType] for the types of the example. *)
Definition exampleParseType (t : gocqlTypeInfo) : TypeInfo :=
  match t with
  | UDTTypeInfo Elements => UDTType "" (map (fun el => (el, NativeType "text")) Elements)
  | OtherTypeInfo descr =>
      if decide (descr = "set<text>") then SetType (NativeType "text")
      else if decide (descr = "list<text>") then ListType (NativeType "text")
      else NativeType descr
  end.

(** A destination that knows keyspace [ks] and executes everything. *)
Definition exampleSession : Session :=
  mkSession []
    (fun _ keyspace =>
       if decide (keyspace = "ks") then inr exampleKeyspace
       else inl "keyspace does not exist")
    (fun _ _ => None).

(** The world before anything ran. *)
Definition freshWorld : World := mkWorld emptyHeap exampleSession.

(** A heap of a translator for [ks.t] in which the partition-key array has
    one spare cell, as grown arrays have, so that the write of
    [append(r.pkColumns, r.ckColumns...)] lands in the translator's memory. *)
Definition exampleHeap : heap :=
  [[]; ["id"; ""]; ["seq"]; ["val"; "tags"; "items"; ""];
   ["val"; "tags"; "items"; "id"; "seq"; ""]].

Definition exampleReplicator : DeltaReplicator :=
  mkReplicator "ks.t" One
    (mkSlice 1 1) (mkSlice 2 1) (mkSlice 3 3)
    ((fun colMeta => exampleParseType (ColumnType colMeta)) <$> Columns exampleMeta)
    (mkSlice 4 5)
    "DELETE FROM ks.t WHERE id = ? AND seq = ?"
    "DELETE FROM ks.t WHERE id = ?"
    (tableRows "DELETE FROM ks.t WHERE " ["id = ?"] ["seq"]).

Definition exampleWorld : World := mkWorld exampleHeap exampleSession.

(** A row of [ks.t] with [id = 1] and [seq = 1] and the given changes. *)
Definition exampleRow (op : OperationType) (ttl : Z)
    (scalars : string -> ScalarChange) (lists : string -> ListChange)
    (sets : string -> SetChange) : ChangeRow :=
  mkChangeRow op ttl (lookupKey [("id", Int 1); ("seq", Int 1)])
    scalars lists sets (fun _ => mkUDTChange [] [] false) [].

Definition noScalar : string -> ScalarChange := fun _ => mkScalarChange Nil false.
Definition noList : string -> ListChange := fun _ => mkListChange Nil Nil false.
Definition noSet : string -> SetChange := fun _ => mkSetChange Nil Nil false.

(** Scenario 2 of the spec: an update that deletes [val]. *)
Definition exampleDeleteVal : ChangeRow :=
  exampleRow Update 0
    (fun col => if decide (col = "val") then mkScalarChange Nil true
                else mkScalarChange Nil false)
    noList noSet.

(** Scenario 3 of the spec: an update that adds "a" to [tags] and removes "b". *)
Definition exampleEditTags : ChangeRow :=
  exampleRow Update 0 noScalar noList
    (fun col => if decide (col = "tags")
                then mkSetChange (Slice (Some [Text "a"])) (Slice (Some [Text "b"])) false
                else mkSetChange Nil Nil false).

(** An update whose added elements of [tags] are an empty, non-nil set. *)
Definition exampleAddNothing : ChangeRow :=
  exampleRow Update 0 noScalar noList
    (fun col => if decide (col = "tags")
                then mkSetChange (Slice (Some [])) Nil false
                else mkSetChange Nil Nil false).

(** Scenario 4 of the spec: an update that resets [items] and appends one
    cell, with key K1 and value "x". *)
Definition exampleResetItems : ChangeRow :=
  exampleRow Update 0 noScalar
    (fun col => if decide (col = "items")
                then mkListChange (Map (Some [(Text "K1", Text "x")])) Nil true
                else mkListChange Nil Nil false)
    noSet.

(** An update that resets [items] and whose appended elements are an empty,
    non-nil map. *)
Definition exampleResetItemsOnly : ChangeRow :=
  exampleRow Update 0 noScalar
    (fun col => if decide (col = "items")
                then mkListChange (Map (Some [])) Nil true
                else mkListChange Nil Nil false)
    noSet.

(** Scenario 1 of the spec: an insert of [val = 5] with TTL 100. *)
Definition exampleInsert : ChangeRow :=
  exampleRow Insert 100
    (fun col => if decide (col = "val") then mkScalarChange (Int 5) false
                else mkScalarChange Nil false)
    noList noSet.

(** A range-delete pair that carries no clustering value on either side. *)
Definition unboundedStart : ChangeRow :=
  keyRow RangeDeleteStartInclusive 0 [("id", Int 1)].
Definition unboundedEnd : ChangeRow :=
  keyRow RangeDeleteEndInclusive 0 [("id", Int 1)].

(** A pre-image row, which is no end of a range. *)
Definition examplePreImage : ChangeRow := keyRow PreImage 0 [("id", Int 1)].

(** A destination that answers its second execution with an error. *)
Definition timeoutSession : Session :=
  mkSession [] (metadataAnswer exampleSession)
    (fun sent _ => if decide (length sent = 1) then Some "write timeout" else None).

Definition timeoutWorld : World := mkWorld exampleHeap timeoutSession.

(** A translator for [ks.t] with two more column types: [addr], a UDT of
    three fields, and [pos], a tuple of two. *)
Definition exampleWideReplicator : DeltaReplicator :=
  mkReplicator "ks.t" One
    (mkSlice 1 1) (mkSlice 2 1) (mkSlice 3 3)
    (<["addr" := UDTType "address"
                   [("street", NativeType "text"); ("city", NativeType "text");
                    ("zip", NativeType "int")]]>
       (<["pos" := TupleType [NativeType "int"; NativeType "int"]]>
          (columnTypes exampleReplicator)))
    (mkSlice 4 5)
    (rowDeleteQueryStr exampleReplicator)
    (partitionDeleteQueryStr exampleReplicator)
    (rangeDeleteQueryStrs exampleReplicator).

(** An update that sets the street, carries a nil pointer for the city, and
    both sets and removes the zip (the field of index 2). *)
Definition exampleUdtEdit : ChangeRow :=
  mkChangeRow Update 0 (lookupKey [("id", Int 1); ("seq", Int 1)])
    noScalar noList noSet
    (fun col => if decide (col = "addr")
                then mkUDTChange [("street", Pointer (Some (Text "Main")));
                                  ("city", Pointer None);
                                  ("zip", Pointer (Some (Int 5)))] [2%Z] false
                else mkUDTChange [] [] false)
    [mkColumnInfo "addr" (UDTTypeInfo ["street"; "city"; "zip"])].

(** An update that writes the tuple (3, 4) to [pos]. *)
Definition exampleTupleWrite : ChangeRow :=
  exampleRow Update 0
    (fun col => if decide (col = "pos")
                then mkScalarChange (Interfaces (Some [Int 3; Int 4])) false
                else mkScalarChange Nil false)
    noList noSet.

(** An update that appends one cell to [items] and removes another, with
    no reset. *)
Definition exampleEditItems : ChangeRow :=
  exampleRow Update 0 noScalar
    (fun col => if decide (col = "items")
                then mkListChange (Map (Some [(Text "K2", Text "y")]))
                       (Slice (Some [Text "K1"])) false
                else mkListChange Nil Nil false)
    noSet.

(** An update that changes no column. *)
Definition exampleNoChange : ChangeRow := exampleRow Update 0 noScalar noList noSet.

(** * Properties *)

(** ** Strings *)

Lemma append_assoc (a b c : string) : (a +:+ b) +:+ c = a +:+ (b +:+ c).
Proof.
  induction a as [|x a IH]; [reflexivity|].
  change (String x ((a +:+ b) +:+ c) = String x (a +:+ (b +:+ c))).
  f_equal. exact IH.
Qed.


(** ** Slices *)

Lemma write_at_length i xs arr :
  i + length xs <= length arr -> length (write_at i xs arr) = length arr.
Proof.
  intros H. unfold write_at.
  rewrite !length_app, length_take, length_drop. lia.
Qed.

Lemma write_at_take i j xs arr :
  j <= i -> i <= length arr -> take j (write_at i xs arr) = take j arr.
Proof.
  intros Hj Hi. unfold write_at.
  rewrite take_app_le by (rewrite length_take; lia).
  rewrite take_take. f_equal. lia.
Qed.

Lemma write_at_view i xs arr :
  i <= length arr -> take (i + length xs) (write_at i xs arr) = take i arr ++ xs.
Proof.
  intros Hi. unfold write_at.
  rewrite app_assoc.
  rewrite take_app_le by (rewrite length_app, length_take; lia).
  apply take_ge. rewrite length_app, length_take. lia.
Qed.

Lemma backing_lookup h s arr : h !! base s = Some arr -> backing h s = arr.
Proof. unfold backing. intros ->. reflexivity. Qed.

Lemma valid_lookup h s : valid h s -> h !! base s = Some (backing h s).
Proof.
  intros [Hb _]. unfold backing.
  destruct (lookup_lt_is_Some_2 h (base s) Hb) as [arr ->]. reflexivity.
Qed.

Lemma view_length h s : len s <= cap h s -> length (view h s) = len s.
Proof. unfold view, cap. intros H. rewrite length_take. lia. Qed.

(** What [append] does to the heap, to the slice it returns and to every
    other slice. *)
Lemma appendSlice_spec h s xs h' s' :
  heap_ok h ->
  appendSlice growslice h s xs = (h', s') ->
  heap_ok h'
  /\ length h <= length h'
  /\ len s' = len s + length xs
  /\ (base s' = base s \/ base s' = length h)
  /\ (xs <> [] -> base s' <> 0)
  /\ (valid h s -> valid h' s' /\ view h' s' = view h s ++ xs)
  /\ (forall t, valid h t -> base t <> base s \/ len t <= len s ->
        valid h' t /\ view h' t = view h t /\ cap h' t = cap h t).
Proof.
  intros Hok. unfold appendSlice.
  destruct (decide (len s + length xs <= cap h s)) as [Hfit|Hgrow];
    intros [= <- <-]; simpl.
  - (* in place *)
    assert (Hlen : forall arr, h !! base s = Some arr ->
              length (write_at (len s) xs arr) = length arr).
    { intros arr Harr. apply write_at_length.
      unfold cap in Hfit. rewrite (backing_lookup _ _ _ Harr) in Hfit. lia. }
    assert (Hzero : base s = 0 -> xs = []).
    { intros Hz. unfold cap, backing in Hfit. rewrite Hz, Hok in Hfit.
      simpl in Hfit. destruct xs; [reflexivity | simpl in Hfit; lia]. }
    repeat split.
    + unfold heap_ok. destruct (decide (base s = 0)) as [Hz|Hnz].
      * rewrite Hz. rewrite list_lookup_insert_eq.
        2: { apply lookup_lt_is_Some. unfold heap_ok in Hok. eauto. }
        unfold backing. rewrite Hz, Hok. simpl.
        rewrite (Hzero Hz). unfold write_at.
        rewrite take_nil, drop_nil. reflexivity.
      * rewrite list_lookup_insert_ne by congruence. exact Hok.
    + rewrite length_insert. lia.
    + left. reflexivity.
    + intros Hne Hz. simpl in Hz. apply Hne, Hzero, Hz.
    + rewrite length_insert. destruct H as [H _]. exact H.
    + destruct H as [Hb Hl]. unfold cap, backing. simpl.
      rewrite list_lookup_insert_eq by exact Hb. simpl.
      rewrite write_at_length; [exact Hfit|].
      exact Hfit.
    + destruct H as [Hb Hl]. unfold view at 1. unfold backing at 1. simpl.
      rewrite list_lookup_insert_eq by exact Hb. simpl.
      apply write_at_view. exact Hl.
    + rewrite length_insert. destruct H as [H _]. exact H.
    + destruct H as [Hb Hl]. unfold cap, backing.
      destruct (decide (base t = base s)) as [He|Hne].
      * rewrite He. rewrite list_lookup_insert_eq by (rewrite <- He; exact Hb).
        simpl. rewrite write_at_length by exact Hfit.
        unfold cap, backing in Hl. rewrite He in Hl. exact Hl.
      * rewrite list_lookup_insert_ne by congruence. exact Hl.
    + destruct H as [Hb Hl]. unfold view, backing.
      destruct (decide (base t = base s)) as [He|Hne].
      * rewrite He. rewrite list_lookup_insert_eq by (rewrite <- He; exact Hb).
        simpl. destruct H0 as [H0|H0]; [congruence|].
        fold (backing h s). apply write_at_take; [exact H0|].
        unfold cap in Hfit. lia.
      * rewrite list_lookup_insert_ne by congruence. reflexivity.
    + destruct H as [Hb Hl]. unfold cap, backing.
      destruct (decide (base t = base s)) as [He|Hne].
      * rewrite He. rewrite list_lookup_insert_eq by (rewrite <- He; exact Hb).
        simpl. fold (backing h s). apply write_at_length. exact Hfit.
      * rewrite list_lookup_insert_ne by congruence. reflexivity.
  - (* into a fresh array *)
    assert (Hpos : 0 < length h).
    { apply lookup_lt_is_Some. unfold heap_ok in Hok. eauto. }
    repeat split.
    + unfold heap_ok. rewrite lookup_app_l by exact Hpos. exact Hok.
    + rewrite length_app. simpl. lia.
    + right. reflexivity.
    + intros _ Hz. simpl in Hz. lia.
    + rewrite length_app. simpl. lia.
    + destruct H as [Hb Hl]. unfold cap, backing. simpl.
      rewrite lookup_app_r by lia. rewrite Nat.sub_diag. simpl.
      rewrite !length_app, length_replicate, view_length by exact Hl.
      unfold newcap. lia.
    + destruct H as [Hb Hl]. unfold view at 1. unfold backing at 1. simpl.
      rewrite lookup_app_r by lia. rewrite Nat.sub_diag. simpl.
      rewrite app_assoc. rewrite take_app_le.
      2: { rewrite length_app, view_length by exact Hl. lia. }
      apply take_ge. rewrite length_app, view_length by exact Hl. lia.
    + rewrite length_app. simpl. destruct H as [H _]. lia.
    + destruct H as [Hb Hl]. unfold cap, backing.
      rewrite lookup_app_l by exact Hb. exact Hl.
    + destruct H as [Hb Hl]. unfold view, backing.
      rewrite lookup_app_l by exact Hb. reflexivity.
    + destruct H as [Hb Hl]. unfold cap, backing.
      rewrite lookup_app_l by exact Hb. reflexivity.
Qed.

Lemma allocSlice_spec h xs h' s' :
  heap_ok h ->
  allocSlice h xs = (h', s') ->
  heap_ok h'
  /\ length h <= length h'
  /\ base s' = length h
  /\ valid h' s' /\ view h' s' = xs /\ cap h' s' = length xs
  /\ (forall t, valid h t ->
        valid h' t /\ view h' t = view h t /\ cap h' t = cap h t).
Proof.
  intros Hok. unfold allocSlice. intros [= <- <-].
  assert (Hpos : 0 < length h).
  { apply lookup_lt_is_Some. unfold heap_ok in Hok. eauto. }
  assert (Hnew : (h ++ [xs]) !! length h = Some xs).
  { rewrite lookup_app_r by lia. rewrite Nat.sub_diag. reflexivity. }
  repeat split; simpl.
  - unfold heap_ok. rewrite lookup_app_l by exact Hpos. exact Hok.
  - rewrite length_app. simpl. lia.
  - rewrite length_app. simpl. lia.
  - unfold cap, backing. simpl. rewrite Hnew. simpl. lia.
  - unfold view, backing. simpl. rewrite Hnew. simpl. apply take_ge. lia.
  - unfold cap, backing. simpl. rewrite Hnew. reflexivity.
  - rewrite length_app. simpl. destruct H as [H _]. lia.
  - destruct H as [Hb Hl]. unfold cap, backing.
    rewrite lookup_app_l by exact Hb. exact Hl.
  - destruct H as [Hb Hl]. unfold view, backing.
    rewrite lookup_app_l by exact Hb. reflexivity.
  - destruct H as [Hb Hl]. unfold cap, backing.
    rewrite lookup_app_l by exact Hb. reflexivity.
Qed.


Lemma keeps_refl n h : heap_ok h -> keeps n h h.
Proof.
  intros H. split; [exact H|]. split; [lia|]. intros t _ Hv. auto.
Qed.

Lemma keeps_trans n h1 h2 h3 : keeps n h1 h2 -> keeps n h2 h3 -> keeps n h1 h3.
Proof.
  intros (Hok2 & Hl2 & H12) (Hok3 & Hl3 & H23).
  split; [exact Hok3|]. split; [lia|].
  intros t Ht Hv. destruct (H12 t Ht Hv) as (Hv2 & Hview2 & Hcap2).
  destruct (H23 t Ht Hv2) as (Hv3 & Hview3 & Hcap3).
  split; [exact Hv3|]. split; congruence.
Qed.

(** An append to a slice that lives above address [n]. *)
Lemma appendSlice_keeps n h s xs h' s' :
  heap_ok h -> n <= length h -> n <= base s -> valid h s ->
  appendSlice growslice h s xs = (h', s') ->
  keeps n h h' /\ n <= base s' /\ valid h' s' /\ view h' s' = view h s ++ xs.
Proof.
  intros Hok Hn Hs Hv Happ.
  destruct (appendSlice_spec _ _ _ _ _ Hok Happ)
    as (Hok' & Hlen & _ & Hbase & _ & Hself & Hframe).
  destruct (Hself Hv) as [Hv' Hview].
  split; [|split; [|split; assumption]].
  - split; [exact Hok'|]. split; [exact Hlen|].
    intros t Ht Hvt. apply Hframe; [exact Hvt|]. left. lia.
  - destruct Hbase as [-> | ->]; lia.
Qed.

(** ** Running the heap operations *)

Lemma bind_Done {A B : Type} (c : Go A) (k : A -> Go B) w a w' :
  c w = (Done a, w') -> bind c k w = k a w'.
Proof. unfold bind. intros ->. reflexivity. Qed.

Lemma bind_Panicked {A B : Type} (c : Go A) (k : A -> Go B) w p w' :
  c w = (Panicked p, w') -> bind c k w = (Panicked p, w').
Proof. unfold bind. intros ->. reflexivity. Qed.

Lemma goAppend_run s xs w :
  exists h' s',
    appendSlice growslice (arrays w) s xs = (h', s')
    /\ goAppend s xs w = (Done s', mkWorld h' (destination w)).
Proof.
  unfold goAppend.
  destruct (appendSlice growslice (arrays w) s xs) as [h' s'].
  exists h', s'. split; reflexivity.
Qed.

Lemma goAlloc_run xs w :
  exists h' s',
    allocSlice (arrays w) xs = (h', s')
    /\ goAlloc xs w = (Done s', mkWorld h' (destination w)).
Proof.
  unfold goAlloc.
  destruct (allocSlice (arrays w) xs) as [h' s'].
  exists h', s'. split; reflexivity.
Qed.

Lemma goView_run s w : goView s w = (Done (view (arrays w) s), w).
Proof. reflexivity. Qed.

(** ** The template table ([computeRangeDeleteQueries]) *)

Lemma rangeDeleteQuery_run prefix eqConds ckCol typ w n :
  heap_ok (arrays w) -> n <= length (arrays w) -> n <= base eqConds ->
  valid (arrays w) eqConds ->
  exists w',
    rangeDeleteQuery prefix eqConds ckCol typ w
    = (Done (prefix
             +:+ Join (view (arrays w) eqConds
                       ++ boundCond ckCol (default "" (startOps !! (typ mod 3)))
                       ++ boundCond ckCol (default "" (endOps !! (typ / 3))))
                      " AND "), w')
    /\ destination w' = destination w
    /\ keeps n (arrays w) (arrays w')
    /\ valid (arrays w') eqConds
    /\ view (arrays w') eqConds = view (arrays w) eqConds.
Proof.
  intros Hok Hn Hb Hv. unfold rangeDeleteQuery, boundCond.
  set (a := default "" (startOps !! (typ mod 3))).
  set (b := default "" (endOps !! (typ / 3))).
  assert (Hself : forall h s xs h' s',
             heap_ok h -> valid h eqConds -> valid h s ->
             base s <> base eqConds \/ len eqConds <= len s ->
             appendSlice growslice h s xs = (h', s') ->
             valid h' eqConds /\ view h' eqConds = view h eqConds
             /\ (base s' <> base eqConds \/ len eqConds <= len s')).
  { intros h s xs h' s' Hokh Hve Hvs Hrel Happ.
    destruct (appendSlice_spec _ _ _ _ _ Hokh Happ)
      as (_ & _ & Hlen & Hbase & _ & _ & Hframe).
    destruct (Hframe eqConds Hve) as (Hve' & Hview' & _).
    { destruct Hrel as [Hrel|Hrel]; [left; congruence | right; exact Hrel]. }
    split; [exact Hve'|]. split; [exact Hview'|].
    destruct Hbase as [Hbase|Hbase].
    - destruct Hrel as [Hrel|Hrel]; [left; congruence | right; lia].
    - left. destruct Hve as [Hve _]. lia. }
  destruct (decide (a <> "")) as [Ha|Ha]; destruct (decide (b <> "")) as [Hb'|Hb'].
  - destruct (goAppend_run eqConds [ckCol +:+ " " +:+ a +:+ " ?"] w)
      as (h1 & s1 & E1 & R1).
    rewrite (bind_Done _ _ _ _ _ R1).
    destruct (appendSlice_keeps n _ _ _ _ _ Hok Hn Hb Hv E1) as (K1 & Hb1 & Hv1 & Hview1).
    destruct (Hself _ _ _ _ _ Hok Hv Hv (or_intror (le_n _)) E1) as (He1 & Hw1 & Hr1).
    destruct (goAppend_run s1 [ckCol +:+ " " +:+ b +:+ " ?"]
                (mkWorld h1 (destination w))) as (h2 & s2 & E2 & R2).
    rewrite (bind_Done _ _ _ _ _ R2). simpl in E2.
    destruct K1 as (Hok1 & Hl1 & K1).
    destruct (appendSlice_keeps n _ _ _ _ _ Hok1 ltac:(lia) Hb1 Hv1 E2)
      as (K2 & Hb2 & Hv2 & Hview2).
    destruct (Hself _ _ _ _ _ Hok1 He1 Hv1 Hr1 E2) as (He2 & Hw2 & Hr2).
    eexists. split.
    { unfold bind, goView, ret. simpl.
      rewrite Hview2, Hview1, <- app_assoc. reflexivity. }
    split; [reflexivity|]. split; [|split].
    + simpl. eapply keeps_trans; [|exact K2]. exact (conj Hok1 (conj Hl1 K1)).
    + exact He2.
    + simpl. congruence.
  - destruct (goAppend_run eqConds [ckCol +:+ " " +:+ a +:+ " ?"] w)
      as (h1 & s1 & E1 & R1).
    rewrite (bind_Done _ _ _ _ _ R1).
    destruct (appendSlice_keeps n _ _ _ _ _ Hok Hn Hb Hv E1) as (K1 & Hb1 & Hv1 & Hview1).
    destruct (Hself _ _ _ _ _ Hok Hv Hv (or_intror (le_n _)) E1) as (He1 & Hw1 & Hr1).
    eexists. split.
    { unfold bind, goView, ret. simpl. rewrite Hview1, ?app_nil_r. reflexivity. }
    split; [reflexivity|]. split; [|split].
    + exact K1.
    + exact He1.
    + exact Hw1.
  - destruct (goAppend_run eqConds [ckCol +:+ " " +:+ b +:+ " ?"] w)
      as (h1 & s1 & E1 & R1).
    unfold bind at 1. unfold ret at 1. rewrite (bind_Done _ _ _ _ _ R1).
    destruct (appendSlice_keeps n _ _ _ _ _ Hok Hn Hb Hv E1) as (K1 & Hb1 & Hv1 & Hview1).
    destruct (Hself _ _ _ _ _ Hok Hv Hv (or_intror (le_n _)) E1) as (He1 & Hw1 & Hr1).
    eexists. split.
    { unfold bind, goView, ret. simpl. rewrite Hview1. reflexivity. }
    split; [reflexivity|]. split; [|split].
    + exact K1.
    + exact He1.
    + exact Hw1.
  - eexists. split; [|split; [reflexivity|split; [|split]]].
    + unfold bind, goView, ret. simpl. rewrite app_nil_r. reflexivity.
    + apply keeps_refl. exact Hok.
    + exact Hv.
    + reflexivity.
Qed.


Lemma rangeDeleteQueriesFor_run prefix eqConds ckCol n typs : forall acc w,
  heap_ok (arrays w) -> n <= length (arrays w) -> n <= base eqConds ->
  valid (arrays w) eqConds ->
  exists w',
    rangeDeleteQueriesFor prefix eqConds ckCol typs acc w
    = (Done (acc ++ map (tableRow prefix (view (arrays w) eqConds) ckCol) typs), w')
    /\ destination w' = destination w
    /\ keeps n (arrays w) (arrays w')
    /\ valid (arrays w') eqConds
    /\ view (arrays w') eqConds = view (arrays w) eqConds.
Proof.
  induction typs as [|typ typs IH]; intros acc w Hok Hn Hb Hv; simpl.
  - exists w. rewrite app_nil_r. split; [reflexivity|]. split; [reflexivity|].
    split; [apply keeps_refl; exact Hok|]. split; [exact Hv|reflexivity].
  - destruct (rangeDeleteQuery_run prefix eqConds ckCol typ w n Hok Hn Hb Hv)
      as (w1 & R1 & Hd1 & K1 & Hv1 & Hview1).
    rewrite (bind_Done _ _ _ _ _ R1).
    destruct K1 as (Hok1 & Hl1 & K1).
    destruct (IH (acc ++ [tableRow prefix (view (arrays w) eqConds) ckCol typ]) w1
                Hok1 ltac:(lia) Hb Hv1) as (w2 & R2 & Hd2 & K2 & Hv2 & Hview2).
    exists w2. split.
    { unfold tableRow at 1 in R2. rewrite R2, Hview1, <- app_assoc. reflexivity. }
    split; [congruence|].
    split; [eapply keeps_trans; [exact (conj Hok1 (conj Hl1 K1))|exact K2]|].
    split; [exact Hv2|congruence].
Qed.

Lemma rangeDeleteQueriesLoop_run prefix n cks : forall eqConds acc w,
  heap_ok (arrays w) -> n <= length (arrays w) -> n <= base eqConds ->
  valid (arrays w) eqConds ->
  exists w',
    rangeDeleteQueriesLoop prefix eqConds cks acc w
    = (Done (acc ++ tableRows prefix (view (arrays w) eqConds) cks), w')
    /\ destination w' = destination w
    /\ keeps n (arrays w) (arrays w').
Proof.
  induction cks as [|ckCol cks IH]; intros eqConds acc w Hok Hn Hb Hv; simpl.
  - exists w. rewrite app_nil_r. split; [reflexivity|]. split; [reflexivity|].
    apply keeps_refl; exact Hok.
  - destruct (rangeDeleteQueriesFor_run prefix eqConds ckCol n (seq 0 8) acc w
                Hok Hn Hb Hv) as (w1 & R1 & Hd1 & K1 & Hv1 & Hview1).
    rewrite (bind_Done _ _ _ _ _ R1).
    destruct K1 as (Hok1 & Hl1 & K1).
    destruct (goAppend_run eqConds [ckCol +:+ " = ?"] w1) as (h2 & s2 & E2 & R2).
    rewrite (bind_Done _ _ _ _ _ R2).
    destruct (appendSlice_keeps n _ _ _ _ _ Hok1 ltac:(lia) Hb Hv1 E2)
      as (K2 & Hb2 & Hv2 & Hview2).
    destruct K2 as (Hok2 & Hl2 & K2).
    destruct (IH s2 (acc ++ map (tableRow prefix (view (arrays w) eqConds) ckCol) (seq 0 8))
                (mkWorld h2 (destination w1)) Hok2 ltac:(simpl; lia) Hb2 Hv2)
      as (w3 & R3 & Hd3 & K3).
    exists w3. split.
    { rewrite R3. simpl arrays. rewrite Hview2, Hview1, <- app_assoc. reflexivity. }
    split; [simpl in Hd3; congruence|].
    eapply keeps_trans; [exact (conj Hok1 (conj Hl1 K1))|].
    eapply keeps_trans; [exact (conj Hok2 (conj Hl2 K2))|exact K3].
Qed.

Lemma tableRows_length prefix cks : forall conds,
  length (tableRows prefix conds cks) = 8 * length cks.
Proof.
  induction cks as [|ck cks IH]; intros conds; simpl; [reflexivity|].
  rewrite IH. lia.
Qed.

Lemma tableRows_lookup prefix cks : forall conds d typ,
  d < length cks -> typ < 8 ->
  tableRows prefix conds cks !! (8 * d + typ)
  = Some (tableRow prefix (conds ++ map (fun c => c +:+ " = ?") (take d cks))
            (default "" (cks !! d)) typ).
Proof.
  induction cks as [|ck cks IH]; intros conds d typ Hd Ht; simpl in Hd; [lia|].
  destruct d as [|d].
  - cbn [tableRows take map lookup]. rewrite app_nil_r.
    rewrite lookup_app_l by (rewrite length_map, length_seq; lia).
    replace (8 * 0 + typ) with typ by lia.
    rewrite list_lookup_fmap, lookup_seq_lt by lia. reflexivity.
  - cbn [tableRows].
    rewrite lookup_app_r by (rewrite length_map, length_seq; lia).
    rewrite length_map, length_seq.
    replace (8 * S d + typ - 8) with (8 * d + typ) by lia.
    rewrite IH by lia. cbn [take map]. rewrite <- app_assoc. reflexivity.
Qed.


Lemma flatIndex_decode l rk :
  boundedPair l rk ->
  l + 3 * rk < 8 /\ (l + 3 * rk) mod 3 = l /\ (l + 3 * rk) / 3 = rk.
Proof.
  intros (Hl & Hr & Hne).
  assert (Hcases : l = 0 \/ l = 1 \/ l = 2) by lia.
  assert (Hcases' : rk = 0 \/ rk = 1 \/ rk = 2) by lia.
  destruct Hcases as [-> | [-> | ->]]; destruct Hcases' as [-> | [-> | ->]];
    try (exfalso; apply Hne; split; reflexivity);
    repeat split; try reflexivity; simpl; lia.
Qed.

Lemma flatIndex_inj d l rk d' l' rk' :
  boundedPair l rk -> boundedPair l' rk' ->
  flatIndex d l rk = flatIndex d' l' rk' -> d = d' /\ l = l' /\ rk = rk'.
Proof.
  intros H H' Heq. unfold flatIndex in Heq.
  destruct (flatIndex_decode l rk H) as (Hlt & Hm & Hd).
  destruct (flatIndex_decode l' rk' H') as (Hlt' & Hm' & Hd').
  assert (Hdd : d = d') by lia. subst d'.
  assert (Hsum : l + 3 * rk = l' + 3 * rk') by lia.
  rewrite Hsum in Hm, Hd. split; [reflexivity|]. split; congruence.
Qed.

Lemma slot_decode i :
  boundedPair ((i mod 8) mod 3) ((i mod 8) / 3)
  /\ i = flatIndex (i / 8) ((i mod 8) mod 3) ((i mod 8) / 3).
Proof.
  pose proof (Nat.mod_upper_bound i 8 ltac:(lia)) as Hlt.
  pose proof (Nat.div_mod_eq i 8) as Hi.
  set (typ := i mod 8) in *.
  pose proof (Nat.mod_upper_bound typ 3 ltac:(lia)) as Hm.
  pose proof (Nat.div_mod_eq typ 3) as Ht.
  assert (Hq : typ / 3 <= 2).
  { destruct (le_gt_dec (typ / 3) 2) as [H|H]; [exact H|]. exfalso. nia. }
  split.
  - split; [lia|]. split; [exact Hq|]. intros [H1 H2]. lia.
  - unfold flatIndex. lia.
Qed.

(** The rows of the table are the templates of the spec. *)
Lemma tableRows_template T assignments cks d typ :
  d < length cks -> typ < 8 ->
  tableRows ("DELETE FROM " +:+ T +:+ " WHERE ") assignments cks !! (8 * d + typ)
  = Some (rangeTemplate T assignments cks d (typ mod 3) (typ / 3)).
Proof.
  intros Hd Ht. rewrite tableRows_lookup by assumption.
  unfold tableRow, rangeTemplate.
  rewrite <- !app_assoc, !append_assoc. reflexivity.
Qed.

Lemma tableRows_at T assignments cks d l rk :
  d < length cks -> boundedPair l rk ->
  tableRows ("DELETE FROM " +:+ T +:+ " WHERE ") assignments cks !! flatIndex d l rk
  = Some (rangeTemplate T assignments cks d l rk).
Proof.
  intros Hd Hb. destruct (flatIndex_decode l rk Hb) as (Hlt & Hm & Hq).
  unfold flatIndex. rewrite <- Nat.add_assoc.
  rewrite tableRows_template by assumption. rewrite Hm, Hq. reflexivity.
Qed.

Lemma tableRows_slot T assignments cks i :
  i < 8 * length cks ->
  tableRows ("DELETE FROM " +:+ T +:+ " WHERE ") assignments cks !! i
  = Some (rangeTemplate T assignments cks (i / 8) ((i mod 8) mod 3) ((i mod 8) / 3)).
Proof.
  intros Hi. destruct (slot_decode i) as [Hb Hidx].
  rewrite Hidx at 1. apply tableRows_at; [|exact Hb].
  apply Nat.Div0.div_lt_upper_bound. lia.
Qed.

(** C1. For a table with K clustering columns, the range-delete template
    table that [computeRangeDeleteQueries] builds at construction has
    exactly 8*K entries; the template of (depth d, leftKind, rightKind),
    kinds being inclusive = 0, exclusive = 1, absent = 2, stands at flat
    index 8*d + leftKind + 3*rightKind; the index map is injective over the
    valid combinations; and every slot holds the template of a combination
    with at least one bound, so that (absent, absent) stands at no index
    of any depth. *)
Theorem range_delete_template_table r w assignments :
  heap_ok (arrays w) ->
  valid (arrays w) (ckColumns r) ->
  makeBindMarkerAssignmentList r (pkNames (arrays w) r) = Done assignments ->
  exists r' w',
    computeRangeDeleteQueries r w = (Done r', w')
    /\ let cks := ckNames (arrays w) r in
       let K := length cks in
       let table := rangeDeleteQueryStrs r' in
       let template := rangeTemplate (tableName r) assignments cks in
       length table = 8 * K
       /\ (forall d l rk, d < K -> boundedPair l rk ->
             table !! flatIndex d l rk = Some (template d l rk))
       /\ (forall d l rk d' l' rk',
             boundedPair l rk -> boundedPair l' rk' ->
             flatIndex d l rk = flatIndex d' l' rk' ->
             d = d' /\ l = l' /\ rk = rk')
       /\ (forall i, i < 8 * K ->
             boundedPair ((i mod 8) mod 3) ((i mod 8) / 3)
             /\ i = flatIndex (i / 8) ((i mod 8) mod 3) ((i mod 8) / 3)
             /\ table !! i
                = Some (template (i / 8) ((i mod 8) mod 3) ((i mod 8) / 3))).
Proof.
  intros Hok Hck Hassign. unfold computeRangeDeleteQueries.
  rewrite (bind_Done _ _ _ _ _ (goView_run _ _)).
  unfold pkNames in Hassign.
  rewrite (bind_Done (lift _) _ w assignments w)
    by (unfold lift; rewrite Hassign; reflexivity).
  destruct (goAlloc_run assignments w) as (h1 & eqConds & E1 & R1).
  rewrite (bind_Done _ _ _ _ _ R1).
  destruct (allocSlice_spec _ _ _ _ Hok E1)
    as (Hok1 & Hl1 & Hb1 & Hv1 & Hview1 & _ & Hframe1).
  rewrite (bind_Done _ _ _ _ _ (goView_run _ _)). simpl arrays.
  set (prefix := "DELETE FROM " +:+ tableName r +:+ " WHERE ").
  destruct (rangeDeleteQueriesLoop_run prefix (length (arrays w))
              (view h1 (ckColumns r)) eqConds []
              (mkWorld h1 (destination w)) Hok1 Hl1 ltac:(lia) Hv1)
    as (w2 & R2 & Hd2 & K2).
  rewrite (bind_Done _ _ _ _ _ R2). simpl arrays in *.
  destruct (Hframe1 _ Hck) as (_ & Hcks & _).
  eexists _, _. split; [reflexivity|]. cbn zeta. simpl rangeDeleteQueryStrs.
  unfold ckNames. rewrite Hview1, Hcks. set (cks := view (arrays w) (ckColumns r)).
  split; [apply tableRows_length|]. split; [|split].
  - intros d l rk. apply tableRows_at.
  - apply flatIndex_inj.
  - intros i Hi. destruct (slot_decode i) as [Hb Hidx].
    split; [exact Hb|]. split; [exact Hidx|]. apply tableRows_slot. exact Hi.
Qed.


(** ** The range-bound resolver ([processRangeDelete]) *)

Lemma scan_both start end_ eq : forall rest i st,
  Forall (bothSides start end_) eq ->
  scanClustering start end_ (eq ++ rest) i st
  = scanClustering start end_ rest (i + Z.of_nat (length eq))
      (afterBoth start end_ st eq).
Proof.
  induction eq as [|c eq IH]; intros rest i st Hall; simpl.
  - f_equal. lia.
  - inversion Hall as [|? ? [[l Hl] [rv Hr]] Hrest]; subst.
    rewrite Hl, Hr. rewrite IH by exact Hrest.
    unfold keyValue. rewrite Hl, Hr. simpl. f_equal. lia.
Qed.

Lemma afterBoth_vals start end_ eq : forall st,
  vals (afterBoth start end_ st eq) = vals st ++ map (keyValue start) eq.
Proof.
  unfold afterBoth. induction eq as [|c eq IH]; intros st; simpl.
  - rewrite app_nil_r. reflexivity.
  - rewrite IH. simpl. rewrite <- app_assoc. reflexivity.
Qed.

Lemma afterBoth_baseIdx start end_ eq : forall st,
  baseIdx (afterBoth start end_ st eq) = baseIdx st.
Proof.
  unfold afterBoth. induction eq as [|c eq IH]; intros st; simpl; [reflexivity|].
  rewrite IH. reflexivity.
Qed.

Lemma afterBoth_snoc start end_ eq p st :
  afterBoth start end_ st (eq ++ [p])
  = mkScan (vals st ++ map (keyValue start) eq ++ [keyValue start p])
      (keyValue end_ p) true true (baseIdx st).
Proof.
  unfold afterBoth. rewrite fold_left_app. simpl.
  fold (afterBoth start end_ st eq).
  rewrite afterBoth_vals, afterBoth_baseIdx, <- app_assoc. reflexivity.
Qed.

Lemma startKind_off op :
  isRangeStart op -> wrap8 (op - RangeDeleteStartInclusive) = Z.of_nat (startKind op).
Proof. intros [-> | ->]; reflexivity. Qed.

Lemma endKind_off op :
  isRangeEnd op -> wrap8 (op - RangeDeleteEndInclusive) = Z.of_nat (endKind op).
Proof. intros [-> | ->]; reflexivity. Qed.

Lemma kind_le_1 op : startKind op <= 1 /\ endKind op <= 1.
Proof. unfold startKind, endKind. split; case_decide; lia. Qed.

(** The resolver on a pair whose scan finds [rangeBounds]. *)
Lemma resolveRange_bounds start end_ pks cks d lb rb :
  isRangeStart (GetOperation start) -> isRangeEnd (GetOperation end_) ->
  rangeBounds start end_ cks d lb rb ->
  resolveRange start end_ pks cks
  = (Z.of_nat (flatIndex d (kindOf lb (startKind (GetOperation start)))
                           (kindOf rb (endKind (GetOperation end_)))),
     map (keyValue start) pks ++ map (keyValue start) (take d cks)
     ++ option_list lb ++ option_list rb)
  /\ baseIdx (resolveBounds start end_ pks cks) = Z.of_nat d
  /\ d < length cks
  /\ boundedPair (kindOf lb (startKind (GetOperation start)))
                 (kindOf rb (endKind (GetOperation end_))).
Proof.
  intros Hs He Hb.
  pose proof (kind_le_1 (GetOperation start)) as [Hks _].
  pose proof (kind_le_1 (GetOperation end_)) as [_ Hke].
  unfold resolveRange, resolveBounds, leftOff, rightOff, appendKeyValuesToBind.
  fold (keyValue start). simpl app.
  destruct Hb as [eq c rest l Hcks Hall Hl Hr
                 |eq c rest rv Hcks Hall Hl Hr
                 |eq p c rest l rv Hcks Hall Hpl Hpr Hl Hr
                 |eq p l rv Hcks Hall Hpl Hpr]; subst cks.
  - rewrite scan_both by exact Hall. simpl. rewrite Hl, Hr.
    rewrite afterBoth_vals. simpl.
    rewrite decide_False by lia. simpl.
    rewrite startKind_off by exact Hs.
    rewrite take_app_length, length_app. simpl.
    repeat split; try lia; try (rewrite length_app; simpl; lia).
    f_equal; [unfold flatIndex; lia | rewrite <- ?app_assoc; reflexivity].
  - rewrite scan_both by exact Hall. simpl. rewrite Hl, Hr.
    rewrite afterBoth_vals. simpl.
    rewrite decide_False by lia. simpl.
    rewrite endKind_off by exact He.
    rewrite take_app_length, length_app. simpl.
    repeat split; try lia; try (rewrite length_app; simpl; lia).
    f_equal; [unfold flatIndex; lia | rewrite <- ?app_assoc; reflexivity].
  - replace (eq ++ p :: c :: rest) with ((eq ++ [p]) ++ c :: rest)
      by (rewrite <- app_assoc; reflexivity).
    assert (Hall' : Forall (bothSides start end_) (eq ++ [p])).
    { apply Forall_app. split; [exact Hall|]. constructor; [|constructor].
      split; [rewrite Hpl|rewrite Hpr]; eauto. }
    rewrite scan_both by exact Hall'. simpl. rewrite Hl, Hr.
    rewrite afterBoth_snoc. simpl.
    rewrite decide_False by (rewrite length_app; simpl; lia). simpl.
    rewrite startKind_off by exact Hs. rewrite endKind_off by exact He.
    rewrite <- (app_assoc eq [p] (c :: rest)).
    rewrite take_app_length, !length_app. simpl.
    assert (Hkl : keyValue start p = l) by (unfold keyValue; rewrite Hpl; reflexivity).
    assert (Hkr : keyValue end_ p = rv) by (unfold keyValue; rewrite Hpr; reflexivity).
    rewrite Hkl, Hkr.
    repeat split; try lia; try (rewrite length_app; simpl; lia).
    f_equal; [unfold flatIndex; lia | rewrite <- ?app_assoc; reflexivity].
  - assert (Hall' : Forall (bothSides start end_) (eq ++ [p])).
    { apply Forall_app. split; [exact Hall|]. constructor; [|constructor].
      split; [rewrite Hpl|rewrite Hpr]; eauto. }
    match goal with
    | |- context [scanClustering start end_ (eq ++ [p]) ?i ?st] =>
        pose proof (scan_both start end_ (eq ++ [p]) [] i st Hall') as Hscan
    end.
    rewrite app_nil_r in Hscan. rewrite Hscan. simpl.
    rewrite afterBoth_snoc. simpl.
    rewrite startKind_off by exact Hs. rewrite endKind_off by exact He.
    rewrite take_app_length, !length_app. simpl.
    assert (Hkl : keyValue start p = l) by (unfold keyValue; rewrite Hpl; reflexivity).
    assert (Hkr : keyValue end_ p = rv) by (unfold keyValue; rewrite Hpr; reflexivity).
    rewrite Hkl, Hkr.
    repeat split; try lia; try (rewrite length_app; simpl; lia).
    f_equal; [unfold flatIndex; lia | rewrite <- ?app_assoc; reflexivity].
Qed.


Lemma rangeBounds_after_both start end_ rest : forall eq p l rv,
  Forall (bothSides start end_) eq ->
  GetValue start p = Some l -> GetValue end_ p = Some rv ->
  exists d lb rb, rangeBounds start end_ (eq ++ p :: rest) d lb rb.
Proof.
  induction rest as [|c rest IH]; intros eq p l rv Hall Hl Hr.
  - eexists _, _, _. eapply TwoSidedLast; eauto.
  - destruct (GetValue start c) as [l'|] eqn:Hl';
      destruct (GetValue end_ c) as [rv'|] eqn:Hr'.
    + assert (Hall' : Forall (bothSides start end_) (eq ++ [p])).
      { apply Forall_app. split; [exact Hall|]. constructor; [|constructor].
        split; [rewrite Hl|rewrite Hr]; eauto. }
      destruct (IH (eq ++ [p]) c l' rv' Hall' Hl' Hr') as (d & lb & rb & H).
      rewrite <- app_assoc in H. eauto.
    + assert (Hall' : Forall (bothSides start end_) (eq ++ [p])).
      { apply Forall_app. split; [exact Hall|]. constructor; [|constructor].
        split; [rewrite Hl|rewrite Hr]; eauto. }
      eexists _, _, _. eapply (LeftBounded _ _ _ (eq ++ [p]) c rest); eauto.
      rewrite <- app_assoc. reflexivity.
    + assert (Hall' : Forall (bothSides start end_) (eq ++ [p])).
      { apply Forall_app. split; [exact Hall|]. constructor; [|constructor].
        split; [rewrite Hl|rewrite Hr]; eauto. }
      eexists _, _, _. eapply (RightBounded _ _ _ (eq ++ [p]) c rest); eauto.
      rewrite <- app_assoc. reflexivity.
    + eexists _, _, _. eapply TwoSidedBeforeAbsent; eauto.
Qed.

(** Every pair that bounds the first clustering column on some side has
    bounds in the sense of [rangeBounds]. *)
Lemma rangeBounds_total start end_ c0 rest :
  is_Some (GetValue start c0) \/ is_Some (GetValue end_ c0) ->
  exists d lb rb, rangeBounds start end_ (c0 :: rest) d lb rb.
Proof.
  intros Hsome.
  destruct (GetValue start c0) as [l|] eqn:Hl;
    destruct (GetValue end_ c0) as [rv|] eqn:Hr.
  - apply (rangeBounds_after_both start end_ rest [] c0 l rv); auto.
  - eexists _, _, _. eapply (LeftBounded _ _ _ [] c0 rest); eauto.
  - eexists _, _, _. eapply (RightBounded _ _ _ [] c0 rest); eauto.
  - destruct Hsome as [[? H]|[? H]]; discriminate H.
Qed.

(** C2, as amended. For every start/end event pair of one clustering-range
    tombstone whose first clustering column is present on at least one
    side, the resolver scans the clustering columns in key order and finds
    depth = the first column present on only one side, or i-1 when column
    i >= 1 is absent on both sides (the two values of column i-1 being the
    bounds), or the last column when every column is present on both
    sides; a bound kind is absent (2) without a bound value and otherwise
    what the event's sub-operation gives, inclusive (0) or exclusive (1);
    the query index is 8*depth + leftKind + 3*rightKind; the bound values
    are the partition-key values, the clustering values below depth, the
    left bound if present, then the right bound if present; and the
    statement at that index is executed with them. For the example schema,
    a start event with seq = 5 and the Inclusive sub-kind and an end event
    without seq give depth 0, kinds 0 and 2, index 6 and the values (1, 5)
    bound to DELETE FROM ks.t WHERE id = ? AND seq >= ?. *)
Theorem range_bound_resolution r w timestamp start end_ c0 rest :
  isRangeStart (GetOperation start) -> isRangeEnd (GetOperation end_) ->
  ckNames (arrays w) r = c0 :: rest ->
  is_Some (GetValue start c0) \/ is_Some (GetValue end_ c0) ->
  (exists d lb rb,
     let cks := ckNames (arrays w) r in
     let pks := pkNames (arrays w) r in
     let leftKind := kindOf lb (startKind (GetOperation start)) in
     let rightKind := kindOf rb (endKind (GetOperation end_)) in
     let binds := map (keyValue start) pks ++ map (keyValue start) (take d cks)
                  ++ option_list lb ++ option_list rb in
     rangeBounds start end_ cks d lb rb
     /\ d < length cks
     /\ boundedPair leftKind rightKind
     /\ baseIdx (resolveBounds start end_ pks cks) = Z.of_nat d
     /\ resolveRange start end_ pks cks
        = (Z.of_nat (flatIndex d leftKind rightKind), binds)
     /\ forall queryStr,
          rangeDeleteQueryStrs r !! flatIndex d leftKind rightKind = Some queryStr ->
          processRangeDelete r timestamp start end_ w
          = Exec (ReqQuery queryStr binds (consistency r) true timestamp) w)
  /\ rangeBounds exampleRangeStart exampleRangeEnd ["seq"] 0 (Some (Int 5)) None
  /\ resolveRange exampleRangeStart exampleRangeEnd ["id"] ["seq"]
     = (Z.of_nat (flatIndex 0 0 2), [Int 1; Int 5])
  /\ flatIndex 0 0 2 = 6
  /\ rangeTemplate "ks.t" ["id = ?"] ["seq"] 0 0 2
     = "DELETE FROM ks.t WHERE id = ? AND seq >= ?".
Proof.
  intros Hs He Hcks Hsome. split.
  - rewrite Hcks.
    destruct (rangeBounds_total start end_ c0 rest Hsome) as (d & lb & rb & Hb).
    exists d, lb, rb. cbn zeta.
    destruct (resolveRange_bounds start end_ (pkNames (arrays w) r) (c0 :: rest)
                d lb rb Hs He Hb) as (Hres & Hbase & Hd & Hpair).
    split; [exact Hb|]. split; [exact Hd|]. split; [exact Hpair|].
    split; [exact Hbase|]. split; [exact Hres|].
    intros queryStr Hq. unfold processRangeDelete.
    rewrite (bind_Done _ _ _ _ _ (goView_run _ _)).
    rewrite (bind_Done _ _ _ _ _ (goView_run _ _)).
    fold (pkNames (arrays w) r). fold (ckNames (arrays w) r).
    rewrite Hcks, Hres.
    rewrite decide_True by lia. rewrite Nat2Z.id, Hq. reflexivity.
  - split; [|split; [|split]]; try reflexivity.
    apply (LeftBounded _ _ _ [] "seq" []); try reflexivity. constructor.
Qed.


(** ** Inserts and updates ([processInsertOrUpdate]) *)

Lemma omap_app {A B : Type} (f : A -> outcome B) l1 l2 :
  omap f (l1 ++ l2)
  = (check a <- omap f l1 ;; check b <- omap f l2 ;; Done (a ++ b)).
Proof.
  induction l1 as [|x l1 IH]; simpl.
  - destruct (omap f l2); reflexivity.
  - destruct (f x) as [y|p]; simpl; [|reflexivity].
    rewrite IH. destruct (omap f l1) as [ys|p]; simpl; [|reflexivity].
    destruct (omap f l2); reflexivity.
Qed.

Lemma omap_Done_map {A B : Type} (f : A -> outcome B) (g : A -> B) l :
  (forall x, x ∈ l -> f x = Done (g x)) -> omap f l = Done (map g l).
Proof.
  induction l as [|x l IH]; intros H; simpl; [reflexivity|].
  rewrite (H x) by left. simpl. rewrite IH; [reflexivity|].
  intros y Hy. apply H. right. exact Hy.
Qed.

Lemma omap_Forall {A B : Type} (f : A -> outcome B) (P : B -> Prop) l ys :
  omap f l = Done ys -> (forall x y, f x = Done y -> P y) -> Forall P ys.
Proof.
  revert ys. induction l as [|x l IH]; intros ys; simpl.
  - intros [= <-] _. constructor.
  - destruct (f x) as [y|p] eqn:Hx; simpl; [|discriminate].
    destruct (omap f l) as [ys'|p] eqn:Hl; simpl; [|discriminate].
    intros [= <-] HP. constructor; [eapply HP; exact Hx|]. apply IH; auto.
Qed.

Lemma appendKeyValuesToBind_eq vals names c :
  appendKeyValuesToBind vals names c = vals ++ map (keyValue c) names.
Proof. reflexivity. Qed.

(** The key conditions and the key markers stand or fall together: both
    need a type for every key column. *)
Lemma keyMarkers_keyConditions r keys :
  match keyConditions r keys with
  | Done _ => exists markers, keyMarkers r keys = Done markers
  | Panicked p => keyMarkers r keys = Panicked p
  end.
Proof.
  unfold keyConditions, makeBindMarkerAssignments, makeBindMarkerAssignmentList,
    keyMarkers.
  induction keys as [|k keys IH]; simpl; [eauto|].
  destruct (typeOfColumn r k) as [typ|p]; simpl; [|reflexivity].
  destruct (omap _ keys) as [assignments|p]; simpl in *.
  - destruct IH as [markers ->]. simpl. eauto.
  - rewrite IH. reflexivity.
Qed.

Lemma insertMarker_eq r c keys :
  insertMarker r c keys
  = (check markers <- keyMarkers r keys ;; Done [rowMarker r c keys markers]).
Proof. reflexivity. Qed.


Lemma wholeValueType_dispatch typ :
  wholeValueType typ ->
  negb (negb (IsFrozen typ) && IsCollection (Type_ typ)) = true
  /\ Type_ typ <> TypeTuple.
Proof.
  intros [Hn | [Hf Ht]].
  - rewrite Hn. simpl. rewrite andb_false_r. split; [reflexivity|discriminate].
  - rewrite Hf. simpl. split; [reflexivity|].
    destruct Ht as [-> | [-> | [-> | ->]]]; discriminate.
Qed.

(** A column written as a whole. *)
Lemma columnMutations_whole r c timestamp keys conds col typ :
  columnTypes r !! col = Some typ ->
  wholeValueType typ ->
  columnMutations r c timestamp keys conds col
  = Done (if IsDeleted (GetScalarChange c col) then
            [deleteColumn r c keys conds col]
          else if nonNil (Value (GetScalarChange c col)) then
            [overwriteColumn r c keys conds col (Value (GetScalarChange c col))]
          else []).
Proof.
  intros Htyp Hwhole. destruct (wholeValueType_dispatch typ Hwhole) as [Hd Hnt].
  unfold columnMutations, typeOfColumn. rewrite Htyp. simpl. rewrite Hd.
  unfold scalarMutations.
  destruct (IsDeleted (GetScalarChange c col)); [reflexivity|].
  destruct (nonNil (Value (GetScalarChange c col))); [|reflexivity].
  unfold appendValueByType, makeBindMarkerForType.
  rewrite decide_False by exact Hnt. rewrite decide_True by exact Hnt.
  reflexivity.
Qed.

(** A non-frozen set or map. *)
Lemma columnMutations_set_or_map r c timestamp keys conds col typ :
  columnTypes r !! col = Some typ ->
  IsFrozen typ = false ->
  Type_ typ = TypeSet \/ Type_ typ = TypeMap ->
  columnMutations r c timestamp keys conds col
  = Done (let change := GetSetChange c col in
          if SetIsReset change then
            [overwriteColumn r c keys conds col (AddedElements change)]
          else
            (if nonNil (AddedElements change) then
               [editColumn r c keys conds col "+" (AddedElements change)]
             else [])
            ++ (if nonNil (SetRemovedElements change) then
                  [editColumn r c keys conds col "-" (SetRemovedElements change)]
                else [])).
Proof.
  intros Htyp Hf Ht.
  unfold columnMutations, typeOfColumn. rewrite Htyp. simpl. rewrite Hf.
  assert (Hcoll : IsCollection (Type_ typ) = true)
    by (destruct Ht as [-> | ->]; reflexivity).
  rewrite Hcoll. simpl.
  rewrite decide_False by (destruct Ht as [-> | ->]; discriminate).
  rewrite decide_True by exact Ht.
  unfold setOrMapMutations.
  replace (if decide (Type_ typ = TypeSet) then GetSetChange c col
           else GetSetChange c col) with (GetSetChange c col)
    by (case_decide; reflexivity).
  cbn zeta.
  destruct (SetIsReset (GetSetChange c col)); [reflexivity|].
  destruct (nonNil (AddedElements (GetSetChange c col)));
    destruct (nonNil (SetRemovedElements (GetSetChange c col))); reflexivity.
Qed.

(** A non-frozen list. *)
Lemma columnMutations_list r c timestamp keys conds col typ cells removed :
  columnTypes r !! col = Some typ ->
  IsFrozen typ = false ->
  Type_ typ = TypeList ->
  appendedCells (GetListChange c col) = Done cells ->
  removedCells (GetListChange c col) = Done removed ->
  columnMutations r c timestamp keys conds col
  = Done ((if ListIsReset (GetListChange c col) then
             [clearList r c keys conds col
                (if nonNil (AppendedElements (GetListChange c col))
                 then wrap64 (timestamp - 1) else timestamp)]
           else [])
          ++ map (appendCell r c keys conds col) cells
          ++ map (removeCell r c keys conds col) removed).
Proof.
  intros Htyp Hf Ht Hcells Hrem.
  unfold columnMutations, typeOfColumn. rewrite Htyp. simpl. rewrite Hf, Ht. simpl.
  unfold listMutations, appendedCells, removedCells in *.
  assert (Happ : forall v vals, appendValueByType vals v typ = Done (vals ++ [v])).
  { intros v vals. unfold appendValueByType.
    rewrite decide_False by (rewrite Ht; discriminate). reflexivity. }
  assert (Hmark : makeBindMarkerForType typ = "?").
  { unfold makeBindMarkerForType.
    rewrite decide_True by (rewrite Ht; discriminate). reflexivity. }
  rewrite Hmark.
  destruct (nonNil (AppendedElements (GetListChange c col))).
  - rewrite Hcells. simpl.
    rewrite (omap_Done_map _ (appendCell r c keys conds col)).
    2: { intros [k v] _. rewrite Happ. reflexivity. }
    simpl. destruct (nonNil (RemovedElements (GetListChange c col))).
    + rewrite Hrem. simpl.
      destruct (ListIsReset (GetListChange c col)); reflexivity.
    + injection Hrem as <-.
      destruct (ListIsReset (GetListChange c col)); reflexivity.
  - injection Hcells as <-. simpl.
    destruct (nonNil (RemovedElements (GetListChange c col))).
    + rewrite Hrem. simpl.
      destruct (ListIsReset (GetListChange c col)); reflexivity.
    + injection Hrem as <-.
      destruct (ListIsReset (GetListChange c col)); reflexivity.
Qed.


Lemma concat_nils {A : Type} (l : list (list A)) :
  Forall (fun x => x = []) l -> concat l = [].
Proof. induction 1 as [|x l -> _ IH]; simpl; [reflexivity | exact IH]. Qed.

(** A column the event leaves alone gets no statement. *)
Lemma columnMutations_untouched r c timestamp keys conds col :
  untouched r c col -> columnMutations r c timestamp keys conds col = Done [].
Proof.
  intros (typ & Htyp & Hsc & Hlc & Hset & Hudt & elements & Hels).
  unfold columnMutations, typeOfColumn. rewrite Htyp. simpl.
  destruct (negb (negb (IsFrozen typ) && IsCollection (Type_ typ))).
  { unfold scalarMutations. rewrite Hsc. reflexivity. }
  case_decide.
  { unfold listMutations. rewrite Hlc. reflexivity. }
  case_decide.
  { unfold setOrMapMutations. case_decide; rewrite Hset; reflexivity. }
  case_decide; [|reflexivity].
  unfold udtMutations. rewrite Hudt, Hels. simpl.
  rewrite (omap_Done_map _ (fun _ => UnsetValue)) by reflexivity. simpl.
  rewrite (omap_Done_map _ (fun _ => [])).
  2: { intros [el v] Hin. apply elem_of_zip_r in Hin.
       apply list_elem_of_fmap in Hin as (? & -> & _). reflexivity. }
  simpl. f_equal. apply concat_nils. apply Forall_fmap, Forall_true. reflexivity.
Qed.

(** Every statement of a column is an UPDATE or a DELETE, never an INSERT. *)
Lemma columnMutations_no_insert r c timestamp keys conds col es :
  columnMutations r c timestamp keys conds col = Done es ->
  Forall (fun e => isInsertStmt e = false) es.
Proof.
  unfold columnMutations.
  destruct (typeOfColumn r col) as [typ|p]; simpl; [|discriminate].
  destruct (negb (negb (IsFrozen typ) && IsCollection (Type_ typ))).
  { unfold scalarMutations.
    destruct (IsDeleted (GetScalarChange c col)).
    - intros [= <-]. repeat constructor.
    - destruct (nonNil (Value (GetScalarChange c col))).
      + destruct (appendValueByType _ _ _); simpl; [|discriminate].
        intros [= <-]. repeat constructor.
      + intros [= <-]. constructor. }
  case_decide.
  { unfold listMutations.
    destruct (if nonNil (AppendedElements (GetListChange c col)) then _ else _)
      as [appended|p] eqn:Happ; simpl; [|discriminate].
    destruct (if nonNil (RemovedElements (GetListChange c col)) then _ else _)
      as [removed|p] eqn:Hrem; simpl; [|discriminate].
    intros [= <-]. rewrite !Forall_app. split; [|split].
    - destruct (ListIsReset (GetListChange c col)); repeat constructor.
    - destruct (nonNil (AppendedElements (GetListChange c col)));
        [|injection Happ as <-; constructor].
      destruct (reflect_MapRange _) as [cells|p]; simpl in Happ; [|discriminate].
      eapply omap_Forall; [exact Happ|].
      intros [k v] y. destruct (appendValueByType _ _ _); simpl; [|discriminate].
      intros [= <-]. reflexivity.
    - destruct (nonNil (RemovedElements (GetListChange c col)));
        [|injection Hrem as <-; constructor].
      destruct (reflect_Elements _) as [els|p]; simpl in Hrem; [|discriminate].
      injection Hrem as <-. apply Forall_fmap, Forall_true. reflexivity. }
  case_decide.
  { intros [= <-]. unfold setOrMapMutations. cbn zeta.
    destruct (SetIsReset _); [repeat constructor|].
    apply Forall_app. split.
    - destruct (nonNil _); repeat constructor.
    - destruct (nonNil _); repeat constructor. }
  case_decide; [|intros [= <-]; constructor].
  unfold udtMutations.
  destruct (UDTIsReset (GetUDTChange c col)).
  { destruct (appendValueByType _ _ _); simpl; [|discriminate].
    intros [= <-]. repeat constructor. }
  destruct (udtElements _ _) as [elements|p]; simpl; [|discriminate].
  destruct (omap _ elements) as [values|p]; simpl; [|discriminate].
  destruct (removeFields _ _) as [values'|p]; simpl; [|discriminate].
  destruct (omap _ (zip elements values')) as [perField|p] eqn:Hper; simpl;
    [|discriminate].
  intros [= <-]. apply Forall_concat.
  eapply omap_Forall; [exact Hper|].
  intros [el v] y. destruct (isUnset v); [intros [= <-]; constructor|].
  destruct (if nonNil v then _ else _); simpl; [|discriminate].
  intros [= <-]. repeat constructor.
Qed.


(** [append(r.pkColumns, r.ckColumns...)] may write the clustering names
    into the spare capacity of the partition-key array; no column list
    reads differently afterwards. *)
Lemma keyColumnsHeap_frame h r :
  replicator_ok h r ->
  replicator_ok (keyColumnsHeap h r) r
  /\ translatorState (keyColumnsHeap h r) r = translatorState h r
  /\ view (keyColumnsHeap h r)
       (appendSlice growslice h (pkColumns r) (view h (ckColumns r))).2
     = pkNames h r ++ ckNames h r.
Proof.
  intros (Hok & Hpk & Hck & Hother & Hall & Apk & Aother & Aall).
  unfold keyColumnsHeap.
  destruct (appendSlice growslice h (pkColumns r) (view h (ckColumns r)))
    as [h' keyColumns] eqn:E. simpl.
  destruct (appendSlice_spec _ _ _ _ _ Hok E)
    as (Hok' & Hlen & _ & _ & _ & Hself & Hframe).
  destruct (Hself Hpk) as [_ Hview].
  assert (Hf : forall t, valid h t -> apart (pkColumns r) t ->
               valid h' t /\ view h' t = view h t /\ cap h' t = cap h t).
  { intros t Hv [Ha|Ha]; apply Hframe; auto. right. lia. }
  destruct (Hframe _ Hpk (or_intror (le_n _))) as (Vpk & Wpk & Cpk).
  destruct (Hf _ Hck Apk) as (Vck & Wck & Cck).
  destruct (Hf _ Hother Aother) as (Vo & Wo & Co).
  destruct (Hf _ Hall Aall) as (Va & Wa & Ca).
  split; [|split].
  - exact (conj Hok' (conj Vpk (conj Vck (conj Vo (conj Va
             (conj Apk (conj Aother Aall))))))).
  - unfold translatorState, pkNames, ckNames, otherNames, allNames.
    rewrite Wpk, Wck, Wo, Wa, Cpk, Cck, Co, Ca. reflexivity.
  - exact Hview.
Qed.

Lemma goAppendSlice_run s t w :
  goAppendSlice s t w
  = (Done (appendSlice growslice (arrays w) s (view (arrays w) t)).2,
     mkWorld (appendSlice growslice (arrays w) s (view (arrays w) t)).1
       (destination w)).
Proof.
  unfold goAppendSlice. rewrite (bind_Done _ _ _ _ _ (goView_run _ _)).
  unfold goAppend. destruct (appendSlice _ _ _ _). reflexivity.
Qed.

Lemma processInsertOrUpdate_run r w timestamp isInsert c :
  replicator_ok (arrays w) r ->
  processInsertOrUpdate r timestamp isInsert c w
  = match insertOrUpdateEntries r timestamp isInsert c
            (pkNames (arrays w) r ++ ckNames (arrays w) r)
            (otherNames (arrays w) r) with
    | Done entries =>
        Exec (ReqBatch (mkBatch UnloggedBatch entries (consistency r) timestamp))
             (mkWorld (keyColumnsHeap (arrays w) r) (destination w))
    | Panicked p =>
        (Panicked p, mkWorld (keyColumnsHeap (arrays w) r) (destination w))
    end.
Proof.
  intros Hr.
  destruct (keyColumnsHeap_frame _ _ Hr) as (_ & Hstate & Hkeys).
  unfold processInsertOrUpdate.
  rewrite (bind_Done _ _ _ _ _ (goAppendSlice_run _ _ _)).
  rewrite (bind_Done _ _ _ _ _ (goView_run _ _)).
  rewrite (bind_Done _ _ _ _ _ (goView_run _ _)).
  fold (keyColumnsHeap (arrays w) r). simpl arrays.
  rewrite Hkeys.
  assert (Ho : view (keyColumnsHeap (arrays w) r) (otherColumns r)
               = otherNames (arrays w) r).
  { unfold translatorState in Hstate. injection Hstate as _ _ Ho _. exact Ho. }
  rewrite Ho. unfold bind, lift.
  destruct (insertOrUpdateEntries _ _ _ _ _ _); reflexivity.
Qed.


Lemma insertOrUpdateEntries_eq r timestamp isInsert c keys others conds :
  keyConditions r keys = Done conds ->
  insertOrUpdateEntries r timestamp isInsert c keys others
  = (check marker <-
       (if isInsert then
          check markers <- keyMarkers r keys ;; Done [rowMarker r c keys markers]
        else Done []) ;;
     check perColumn <- omap (columnMutations r c timestamp keys conds) others ;;
     Done (marker ++ concat perColumn)).
Proof.
  intros Hconds. unfold insertOrUpdateEntries. rewrite insertMarker_eq.
  unfold keyConditions in Hconds.
  destruct (if isInsert then _ else _); simpl; [|reflexivity].
  rewrite Hconds. reflexivity.
Qed.

(** The statements of one column stand together in the batch, after those
    of the columns before it and before those of the columns after it. *)
Lemma insertOrUpdateEntries_column r timestamp isInsert c keys cs1 col cs2 conds
    entries :
  keyConditions r keys = Done conds ->
  insertOrUpdateEntries r timestamp isInsert c keys (cs1 ++ col :: cs2) = Done entries ->
  exists pre es post,
    columnMutations r c timestamp keys conds col = Done es
    /\ entries = pre ++ es ++ post.
Proof.
  intros Hconds. rewrite (insertOrUpdateEntries_eq _ _ _ _ _ _ _ Hconds).
  destruct (if isInsert then _ else _) as [marker|p]; simpl; [|discriminate].
  rewrite omap_app. simpl.
  destruct (omap _ cs1) as [pre|p]; simpl; [|discriminate].
  destruct (columnMutations r c timestamp keys conds col) as [es|p]; simpl;
    [|discriminate].
  destruct (omap _ cs2) as [post|p]; simpl; [|discriminate].
  intros [= <-]. exists (marker ++ concat pre), es, (concat post).
  split; [reflexivity|].
  rewrite concat_app. simpl. rewrite <- !app_assoc. reflexivity.
Qed.

Lemma omap_untouched r c timestamp keys conds cs :
  Forall (untouched r c) cs ->
  omap (columnMutations r c timestamp keys conds) cs = Done (map (fun _ => []) cs).
Proof.
  intros H. apply omap_Done_map. intros col Hin.
  apply columnMutations_untouched. rewrite Forall_forall in H. apply H, Hin.
Qed.

Lemma concat_map_nil {A B : Type} (l : list A) :
  concat (map (fun _ => @nil B) l) = [].
Proof. induction l; simpl; auto. Qed.

Lemma wrap64_pred timestamp :
  (int64_min < timestamp)%Z -> (timestamp <= int64_max)%Z ->
  wrap64 (timestamp - 1) = (timestamp - 1)%Z.
Proof.
  unfold wrap64, wrap, int64_min, int64_max. intros Hlo Hhi.
  rewrite Z.mod_small; lia.
Qed.

Lemma length_append (a b : string) :
  String.length (a +:+ b) = String.length a + String.length b.
Proof.
  induction a as [|x a IH]; [reflexivity|].
  change (S (String.length (a +:+ b)) = S (String.length a + String.length b)).
  rewrite IH. reflexivity.
Qed.

(** An element edit is never the whole-column overwrite. *)
Lemma editColumn_not_overwrite r c keys conds col sign v v' :
  Stmt (editColumn r c keys conds col sign v)
  <> Stmt (overwriteColumn r c keys conds col v').
Proof.
  unfold editColumn, overwriteColumn. simpl. intros H.
  apply (f_equal String.length) in H.
  rewrite !length_append in H. simpl in H. lia.
Qed.


(** C4. The unlogged batch of an Insert event begins with the row marker
    INSERT INTO T (<key cols>) VALUES (<markers>) USING TTL ?, bound to
    the key values followed by the TTL, before any per-column mutation;
    the batch of an Update event for the same row holds the identical
    per-column mutations and no INSERT statement. (When building the
    mutations panics, both panic alike.) *)
Theorem insert_is_marker_then_update r w timestamp c :
  replicator_ok (arrays w) r ->
  let keys := pkNames (arrays w) r ++ ckNames (arrays w) r in
  let others := otherNames (arrays w) r in
  let w' := mkWorld (keyColumnsHeap (arrays w) r) (destination w) in
  match insertOrUpdateEntries r timestamp false c keys others with
  | Done mutations =>
      exists markers,
        keyMarkers r keys = Done markers
        /\ processInsert r timestamp c w
           = Exec (ReqBatch (mkBatch UnloggedBatch
                               (rowMarker r c keys markers :: mutations)
                               (consistency r) timestamp)) w'
        /\ processUpdate r timestamp c w
           = Exec (ReqBatch (mkBatch UnloggedBatch mutations
                               (consistency r) timestamp)) w'
        /\ isInsertStmt (rowMarker r c keys markers) = true
        /\ Forall (fun e => isInsertStmt e = false) mutations
  | Panicked p =>
      processInsert r timestamp c w = (Panicked p, w')
      /\ processUpdate r timestamp c w = (Panicked p, w')
  end.
Proof.
  intros Hr keys others w'.
  unfold processInsert, processUpdate.
  rewrite !processInsertOrUpdate_run by exact Hr.
  fold keys others w'.
  pose proof (keyMarkers_keyConditions r keys) as Hkm.
  destruct (keyConditions r keys) as [conds|p] eqn:Hconds.
  - destruct Hkm as [markers Hmarkers].
    rewrite !(insertOrUpdateEntries_eq _ _ _ _ _ _ _ Hconds). rewrite Hmarkers.
    simpl.
    destruct (omap (columnMutations r c timestamp keys conds) others)
      as [perColumn|p] eqn:Hper; simpl.
    + exists markers. repeat split; try reflexivity.
      apply Forall_concat. eapply omap_Forall; [exact Hper|].
      intros col es. apply columnMutations_no_insert.
    + split; reflexivity.
  - unfold insertOrUpdateEntries. rewrite insertMarker_eq, Hkm.
    unfold keyConditions in Hconds. simpl. rewrite Hconds. simpl.
    split; reflexivity.
Qed.

(** C6. For a regular column whose type is a scalar, a frozen container
    or a frozen UDT: a change marked deleted gets exactly one statement
    DELETE col FROM T WHERE <keys>; otherwise a non-nil replacement value
    gets exactly one statement UPDATE T USING TTL ? SET col = ? WHERE
    <keys>; otherwise the column gets no statement. In particular an
    Update event whose only change is such a deletion sends a batch of
    exactly that one statement. *)
Theorem whole_value_column_statements r w timestamp c col typ conds cs1 cs2 :
  replicator_ok (arrays w) r ->
  let keys := pkNames (arrays w) r ++ ckNames (arrays w) r in
  keyConditions r keys = Done conds ->
  columnTypes r !! col = Some typ ->
  wholeValueType typ ->
  let change := GetScalarChange c col in
  (IsDeleted change = true ->
   columnMutations r c timestamp keys conds col
   = Done [deleteColumn r c keys conds col])
  /\ (IsDeleted change = false -> nonNil (Value change) = true ->
      columnMutations r c timestamp keys conds col
      = Done [overwriteColumn r c keys conds col (Value change)])
  /\ (IsDeleted change = false -> Value change = Nil ->
      columnMutations r c timestamp keys conds col = Done [])
  /\ (otherNames (arrays w) r = cs1 ++ col :: cs2 ->
      Forall (untouched r c) (cs1 ++ cs2) ->
      IsDeleted change = true ->
      processUpdate r timestamp c w
      = Exec (ReqBatch (mkBatch UnloggedBatch [deleteColumn r c keys conds col]
                          (consistency r) timestamp))
             (mkWorld (keyColumnsHeap (arrays w) r) (destination w))).
Proof.
  intros Hr keys Hconds Htyp Hwhole change.
  pose proof (columnMutations_whole r c timestamp keys conds col typ Htyp Hwhole)
    as Hcol.
  fold change in Hcol.
  split; [|split; [|split]].
  - intros Hdel. rewrite Hcol, Hdel. reflexivity.
  - intros Hdel Hval. rewrite Hcol, Hdel, Hval. reflexivity.
  - intros Hdel Hval. rewrite Hcol, Hdel, Hval. reflexivity.
  - intros Hothers Huntouched Hdel.
    apply Forall_app in Huntouched as [H1 H2].
    unfold processUpdate. rewrite processInsertOrUpdate_run by exact Hr.
    fold keys. rewrite Hothers.
    rewrite (insertOrUpdateEntries_eq _ _ _ _ _ _ _ Hconds). simpl.
    rewrite omap_app. simpl.
    rewrite (omap_untouched _ _ _ _ _ _ H1), (omap_untouched _ _ _ _ _ _ H2).
    simpl. rewrite Hcol, Hdel. simpl.
    rewrite concat_app. simpl. rewrite !concat_map_nil. reflexivity.
Qed.

(** C5, as amended. For a non-frozen set or map column: a reset change
    gets exactly one statement SET col = ? bound to the full replacement
    value; a change that is no reset gets SET col = col + ? exactly when
    its added-elements value is not nil and SET col = col - ? exactly when
    its removed-elements value is not nil, the addition first when both
    are there, and none of the statements is the whole-column overwrite. *)
Theorem set_or_map_column_statements r c timestamp keys conds col typ :
  columnTypes r !! col = Some typ ->
  IsFrozen typ = false ->
  Type_ typ = TypeSet \/ Type_ typ = TypeMap ->
  let change := GetSetChange c col in
  let added := AddedElements change in
  let removed := SetRemovedElements change in
  (SetIsReset change = true ->
   columnMutations r c timestamp keys conds col
   = Done [overwriteColumn r c keys conds col added])
  /\ (SetIsReset change = false ->
      exists es,
        columnMutations r c timestamp keys conds col = Done es
        /\ es = (if nonNil added then [editColumn r c keys conds col "+" added] else [])
                ++ (if nonNil removed then [editColumn r c keys conds col "-" removed]
                    else [])
        /\ (editColumn r c keys conds col "+" added ∈ es <-> added <> Nil)
        /\ (editColumn r c keys conds col "-" removed ∈ es <-> removed <> Nil)
        /\ forall e v, e ∈ es -> Stmt e <> Stmt (overwriteColumn r c keys conds col v)).
Proof.
  intros Htyp Hf Ht change added removed.
  pose proof (columnMutations_set_or_map r c timestamp keys conds col typ Htyp Hf Ht)
    as Hcol.
  cbn zeta in Hcol. fold change added removed in Hcol.
  split.
  - intros Hreset. rewrite Hcol, Hreset. reflexivity.
  - intros Hreset. rewrite Hcol, Hreset. eexists. split; [reflexivity|].
    split; [reflexivity|].
    assert (Hplus_minus : forall v v',
               editColumn r c keys conds col "+" v
               <> editColumn r c keys conds col "-" v').
    { intros v v' H. apply (f_equal Stmt) in H. unfold editColumn in H. simpl in H.
      repeat (apply String.app_inj in H; try (injection H as H)).
      discriminate H. }
    split; [|split].
    + destruct added; simpl; destruct removed; simpl;
        rewrite ?elem_of_cons, ?elem_of_nil;
        split; try congruence; try tauto;
        intros H; try (left; reflexivity);
        try (exfalso; destruct H as [H|H]; [congruence|];
             try (eapply Hplus_minus; exact H); tauto);
        try (exfalso; eapply Hplus_minus; destruct H as [H|H]; [exact H|tauto]).
    + destruct added; simpl; destruct removed; simpl;
        rewrite ?elem_of_cons, ?elem_of_nil;
        split; try congruence; try tauto;
        intros H; try (left; reflexivity); try (right; left; reflexivity);
        try (exfalso; destruct H as [H|H]; [|tauto];
             eapply Hplus_minus; symmetry; exact H).
    + intros e v He.
      apply elem_of_app in He as [He|He].
      * destruct (nonNil added); [|apply elem_of_nil in He; contradiction].
        apply list_elem_of_singleton in He as ->. apply editColumn_not_overwrite.
      * destruct (nonNil removed); [|apply elem_of_nil in He; contradiction].
        apply list_elem_of_singleton in He as ->. apply editColumn_not_overwrite.
Qed.


(** C3, as amended. For an insert/update event with a reset change of a
    non-frozen list column, the translator emits the clear statement
    DELETE col FROM T USING TIMESTAMP ts WHERE <keys>, where ts is the
    event timestamp minus one (an int64 decrement) when the event's
    appended-elements value for the column is not nil, as it is whenever
    the event carries appended cells, and the event timestamp when that
    value is nil; the clear statement stands in the batch immediately
    before the column's per-cell appends; and the batch, hence every
    append, runs at the event timestamp. *)
Theorem list_reset_clears_before_appends
    r w timestamp isInsert c col typ conds cs1 cs2 cells removed :
  replicator_ok (arrays w) r ->
  let keys := pkNames (arrays w) r ++ ckNames (arrays w) r in
  keyConditions r keys = Done conds ->
  columnTypes r !! col = Some typ ->
  IsFrozen typ = false ->
  Type_ typ = TypeList ->
  let change := GetListChange c col in
  ListIsReset change = true ->
  appendedCells change = Done cells ->
  removedCells change = Done removed ->
  let ts := if nonNil (AppendedElements change) then wrap64 (timestamp - 1)
            else timestamp in
  let clear := clearList r c keys conds col ts in
  let appends := map (appendCell r c keys conds col) cells in
  columnMutations r c timestamp keys conds col
  = Done (clear :: appends ++ map (removeCell r c keys conds col) removed)
  /\ (cells <> [] -> ts = wrap64 (timestamp - 1))
  /\ (AppendedElements change = Nil -> ts = timestamp)
  /\ ((int64_min < timestamp)%Z -> (timestamp <= int64_max)%Z ->
      wrap64 (timestamp - 1) = (timestamp - 1)%Z)
  /\ (forall entries,
        otherNames (arrays w) r = cs1 ++ col :: cs2 ->
        insertOrUpdateEntries r timestamp isInsert c keys (cs1 ++ col :: cs2)
        = Done entries ->
        (exists pre post, entries = pre ++ clear :: appends ++ post)
        /\ processInsertOrUpdate r timestamp isInsert c w
           = Exec (ReqBatch (mkBatch UnloggedBatch entries (consistency r) timestamp))
                  (mkWorld (keyColumnsHeap (arrays w) r) (destination w))).
Proof.
  intros Hr keys Hconds Htyp Hf Ht change Hreset Hcells Hrem ts clear appends.
  pose proof (columnMutations_list r c timestamp keys conds col typ cells removed
                Htyp Hf Ht Hcells Hrem) as Hcol.
  fold change in Hcol. rewrite Hreset in Hcol. fold ts clear appends in Hcol.
  split; [exact Hcol|]. split; [|split; [|split]].
  - intros Hne. unfold ts. unfold appendedCells in Hcells. fold change in Hcells.
    destruct (nonNil (AppendedElements change)); [reflexivity|].
    injection Hcells as <-. contradiction.
  - intros Hnil. unfold ts. rewrite Hnil. reflexivity.
  - apply wrap64_pred.
  - intros entries Hothers Hentries. split.
    + destruct (insertOrUpdateEntries_column _ _ _ _ _ _ _ _ _ _ Hconds Hentries)
        as (pre & es & post & Hes & ->).
      rewrite Hcol in Hes. injection Hes as <-.
      exists pre, (map (removeCell r c keys conds col) removed ++ post).
      simpl. rewrite <- !app_assoc. reflexivity.
    + rewrite processInsertOrUpdate_run by exact Hr.
      fold keys. rewrite Hothers, Hentries. reflexivity.
Qed.


(** ** Consume: the translator is left as it was *)

Lemma steady_ret r {A : Type} (a : A) : steady r (ret a).
Proof. intros w H. split; [exact H|reflexivity]. Qed.

Lemma steady_raise r {A : Type} p : steady r (@raise A p).
Proof. intros w H. split; [exact H|reflexivity]. Qed.

Lemma steady_bind r {A B : Type} (c : Go A) (k : A -> Go B) :
  steady r c -> (forall a, steady r (k a)) -> steady r (bind c k).
Proof.
  intros Hc Hk w Hw. unfold bind. destruct (Hc w Hw) as [H1 H2].
  destruct (c w) as [[a|p] w1]; simpl in *.
  - destruct (Hk a w1 H1) as [H3 H4]. split; [exact H3|congruence].
  - split; assumption.
Qed.

Lemma steady_Exec r q : steady r (Exec q).
Proof. intros w H. split; [exact H|reflexivity]. Qed.

Lemma steady_goView r s : steady r (goView s).
Proof. intros w H. split; [exact H|reflexivity]. Qed.

Lemma steady_processInsertOrUpdate r timestamp isInsert c :
  steady r (processInsertOrUpdate r timestamp isInsert c).
Proof.
  intros w Hw. rewrite processInsertOrUpdate_run by exact Hw.
  destruct (keyColumnsHeap_frame _ _ Hw) as (Hok & Hstate & _).
  destruct (insertOrUpdateEntries _ _ _ _ _ _); simpl; split; assumption.
Qed.

Lemma steady_processRowDelete r timestamp c :
  steady r (processRowDelete r timestamp c).
Proof.
  unfold processRowDelete.
  apply steady_bind; [apply steady_goView|]. intros pks.
  apply steady_bind; [apply steady_goView|]. intros cks.
  apply steady_Exec.
Qed.

Lemma steady_processPartitionDelete r timestamp c :
  steady r (processPartitionDelete r timestamp c).
Proof.
  unfold processPartitionDelete.
  apply steady_bind; [apply steady_goView|]. intros pks.
  apply steady_Exec.
Qed.

Lemma steady_processRangeDelete r timestamp start end_ :
  steady r (processRangeDelete r timestamp start end_).
Proof.
  unfold processRangeDelete.
  apply steady_bind; [apply steady_goView|]. intros pks.
  apply steady_bind; [apply steady_goView|]. intros cks.
  destruct (resolveRange start end_ pks cks) as [queryIdx vals].
  case_decide; [|apply steady_raise].
  destruct (rangeDeleteQueryStrs r !! Z.to_nat queryIdx);
    [apply steady_Exec|apply steady_raise].
Qed.

Lemma steady_Consume_loop r timestamp delta budget : forall pos,
  steady r (Consume_loop budget r timestamp delta pos).
Proof.
  induction budget as [|budget IH]; intros pos; simpl.
  - case_decide; [apply steady_raise|apply steady_ret].
  - destruct (delta !! pos) as [change|]; [|apply steady_ret].
    assert (Hcont : forall step pos',
               steady r step ->
               steady r (do err <- step ;;
                         match err with
                         | Some e => ret (Some e)
                         | None => Consume_loop budget r timestamp delta pos'
                         end)).
    { intros step pos' Hstep. apply steady_bind; [exact Hstep|].
      intros [e|]; [apply steady_ret|apply IH]. }
    repeat case_decide.
    + apply Hcont, steady_processInsertOrUpdate.
    + apply Hcont, steady_processInsertOrUpdate.
    + apply Hcont, steady_processRowDelete.
    + apply Hcont, steady_processPartitionDelete.
    + destruct (delta !! (pos + 1)) as [end_|]; [|apply steady_raise].
      apply Hcont, steady_processRangeDelete.
    + apply steady_raise.
Qed.

(** ** The panics of the handlers *)

Lemma quiet_obind {A B : Type} (c : outcome A) (k : A -> outcome B) :
  quiet c -> (forall a, quiet (k a)) -> quiet (obind c k).
Proof. destruct c; simpl; auto. Qed.

Lemma quiet_omap {A B : Type} (f : A -> outcome B) l :
  (forall x, quiet (f x)) -> quiet (omap f l).
Proof.
  intros Hf. induction l as [|x l IH]; simpl; [exact I|].
  apply quiet_obind; [apply Hf|]. intros y.
  apply quiet_obind; [exact IH|]. intros ys. exact I.
Qed.

Lemma quiet_typeOfColumn r name : quiet (typeOfColumn r name).
Proof. unfold typeOfColumn. destruct (_ !! _); exact I. Qed.

Lemma quiet_appendValueByType vals v typ : quiet (appendValueByType vals v typ).
Proof. unfold appendValueByType. case_decide; [destruct v|]; exact I. Qed.

Lemma quiet_reflect_IsNil v : quiet (reflect_IsNil v).
Proof. destruct v; exact I. Qed.

Lemma quiet_reflect_MapRange v : quiet (reflect_MapRange v).
Proof. destruct v; exact I. Qed.

Lemma quiet_reflect_Elements v : quiet (reflect_Elements v).
Proof. destruct v as [| | | | | | |[[|? ?]|]]; exact I. Qed.

Lemma quiet_udtElements colInfos colName : quiet (udtElements colInfos colName).
Proof.
  induction colInfos as [|colInfo rest IH]; simpl; [exact I|].
  case_decide; [destruct (ColumnTypeInfo colInfo); exact I|exact IH].
Qed.

Lemma quiet_removeFields removed : forall elementValues,
  quiet (removeFields elementValues removed).
Proof.
  induction removed as [|idx rest IH]; intros vs; simpl; [exact I|].
  case_decide; [apply IH|exact I].
Qed.

Create HintDb quiet.
#[local] Hint Resolve quiet_typeOfColumn quiet_appendValueByType quiet_reflect_IsNil
  quiet_reflect_MapRange quiet_reflect_Elements quiet_udtElements
  quiet_removeFields : quiet.

Ltac quiet_step :=
  match goal with
  | |- quiet (Done _) => exact I
  | |- quiet (obind _ _) => apply quiet_obind; [|intros ?]
  | |- quiet (omap _ _) => apply quiet_omap; intros ?
  | |- quiet (if ?b then _ else _) => destruct b
  | |- quiet (match ?x with _ => _ end) => destruct x
  | |- quiet _ => solve [auto with quiet]
  end.

Lemma quiet_makeBindMarkerAssignments r names sep :
  quiet (makeBindMarkerAssignments r names sep).
Proof.
  unfold makeBindMarkerAssignments, makeBindMarkerAssignmentList.
  repeat quiet_step.
Qed.

Lemma quiet_columnMutations r c timestamp keys conds col :
  quiet (columnMutations r c timestamp keys conds col).
Proof.
  unfold columnMutations, scalarMutations, listMutations, udtMutations.
  repeat quiet_step.
Qed.

Lemma quiet_insertOrUpdateEntries r timestamp isInsert c keys others :
  quiet (insertOrUpdateEntries r timestamp isInsert c keys others).
Proof.
  unfold insertOrUpdateEntries, insertMarker.
  pose proof quiet_makeBindMarkerAssignments.
  pose proof quiet_columnMutations.
  repeat quiet_step; auto.
Qed.

Lemma gquiet_ret {A : Type} (a : A) : gquiet (ret a).
Proof. intros w. exact I. Qed.

Lemma gquiet_bind {A B : Type} (c : Go A) (k : A -> Go B) :
  gquiet c -> (forall a, gquiet (k a)) -> gquiet (bind c k).
Proof.
  intros Hc Hk w. unfold bind. specialize (Hc w).
  destruct (c w) as [[a|p] w1]; simpl in *; [apply Hk|exact Hc].
Qed.

Lemma gquiet_Exec q : gquiet (Exec q).
Proof. intros w. exact I. Qed.

Lemma gquiet_goView s : gquiet (goView s).
Proof. intros w. exact I. Qed.

Lemma gquiet_goAppendSlice s t : gquiet (goAppendSlice s t).
Proof. intros w. rewrite goAppendSlice_run. exact I. Qed.

Lemma gquiet_lift {A : Type} (c : outcome A) : quiet c -> gquiet (lift c).
Proof. intros H w. exact H. Qed.

Lemma gquiet_processInsertOrUpdate r timestamp isInsert c :
  gquiet (processInsertOrUpdate r timestamp isInsert c).
Proof.
  unfold processInsertOrUpdate.
  apply gquiet_bind; [apply gquiet_goAppendSlice|]. intros keyColumns.
  apply gquiet_bind; [apply gquiet_goView|]. intros keys.
  apply gquiet_bind; [apply gquiet_goView|]. intros others.
  apply gquiet_bind; [apply gquiet_lift, quiet_insertOrUpdateEntries|].
  intros entries. apply gquiet_Exec.
Qed.

Lemma gquiet_processRowDelete r timestamp c :
  gquiet (processRowDelete r timestamp c).
Proof.
  unfold processRowDelete.
  apply gquiet_bind; [apply gquiet_goView|]. intros pks.
  apply gquiet_bind; [apply gquiet_goView|]. intros cks. apply gquiet_Exec.
Qed.

Lemma gquiet_processPartitionDelete r timestamp c :
  gquiet (processPartitionDelete r timestamp c).
Proof.
  unfold processPartitionDelete.
  apply gquiet_bind; [apply gquiet_goView|]. intros pks. apply gquiet_Exec.
Qed.

Lemma gquiet_processRangeDelete r timestamp start end_ :
  gquiet (processRangeDelete r timestamp start end_).
Proof.
  unfold processRangeDelete.
  apply gquiet_bind; [apply gquiet_goView|]. intros pks.
  apply gquiet_bind; [apply gquiet_goView|]. intros cks.
  destruct (resolveRange start end_ pks cks) as [queryIdx vals].
  case_decide; [|intros w; exact I].
  destruct (rangeDeleteQueryStrs r !! Z.to_nat queryIdx);
    [apply gquiet_Exec|intros w; exact I].
Qed.


(** ** Consume: how the loop ends *)

Lemma lookup_Some_lt (delta : list ChangeRow) pos ev :
  delta !! pos = Some ev -> pos < length delta.
Proof. intros H. apply lookup_lt_is_Some. eauto. Qed.

(** One event handled, then the rest of the loop. *)
Lemma continue_outcome (ok : panic -> Prop) (step rest : Go (option string)) w :
  gquiet step ->
  (forall p, handlerPanic p -> ok p) ->
  (forall w1, match (rest w1).1 with Panicked p => ok p | Done _ => True end) ->
  match ((do err <- step ;;
          match err with
          | Some e => ret (Some e)
          | None => rest
          end) w).1 with
  | Panicked p => ok p
  | Done _ => True
  end.
Proof.
  intros Hq Hok Hrest. unfold bind. specialize (Hq w).
  destruct (step w) as [[[e|]|p] w1]; simpl in *; [exact I|apply Hrest|auto].
Qed.

(** The panics [Consume] can end in. *)
Lemma Consume_loop_outcome (ok : panic -> Prop) r timestamp delta :
  (forall p, handlerPanic p -> ok p) ->
  (forall op, ok (UnsupportedOperation op)) ->
  paired delta \/ (forall i n, ok (IndexOutOfRange InDelta i n)) ->
  forall budget pos w,
    length delta <= pos + budget ->
    match (Consume_loop budget r timestamp delta pos w).1 with
    | Panicked p => ok p
    | Done _ => True
    end.
Proof.
  intros Hh Hu Hoob.
  induction budget as [|budget IH]; intros pos w Hlen; simpl.
  - rewrite decide_False by lia. exact I.
  - destruct (delta !! pos) as [change|] eqn:Hpos; [|exact I].
    repeat case_decide.
    + apply continue_outcome;
        [apply gquiet_processInsertOrUpdate | exact Hh | intros w1; apply IH; lia].
    + apply continue_outcome;
        [apply gquiet_processInsertOrUpdate | exact Hh | intros w1; apply IH; lia].
    + apply continue_outcome;
        [apply gquiet_processRowDelete | exact Hh | intros w1; apply IH; lia].
    + apply continue_outcome;
        [apply gquiet_processPartitionDelete | exact Hh | intros w1; apply IH; lia].
    + destruct (delta !! (pos + 1)) as [end_|] eqn:Hend.
      * apply continue_outcome;
          [apply gquiet_processRangeDelete | exact Hh | intros w1; apply IH; lia].
      * simpl. destruct Hoob as [Hpaired|Hoob]; [|apply Hoob].
        exfalso. destruct (Hpaired pos change Hpos) as (end_ & Hsome & _).
        { assumption. }
        congruence.
    + apply Hu.
Qed.

(** The loop never uses up the turns [Consume] gives it. *)
Lemma Consume_loop_budget r c w :
  (Consume r c w).1 <> Panicked LoopBudgetExhausted.
Proof.
  unfold Consume.
  pose proof (Consume_loop_outcome (fun p => p <> LoopBudgetExhausted)
                r (GetCassandraTimestamp c) (Delta c)) as H.
  specialize (H ltac:(intros p Hp ->; exact Hp) ltac:(discriminate)
                ltac:(right; discriminate) (length (Delta c)) 0 w ltac:(lia)).
  destruct (Consume_loop _ _ _ _ _ _).1; [discriminate|congruence].
Qed.

(** An event of a kind the switch does not list makes the loop panic on
    the spot. *)
Lemma Consume_loop_unsupported r timestamp delta budget pos ev w :
  delta !! pos = Some ev ->
  ~ dispatchable (GetOperation ev) ->
  Consume_loop (S budget) r timestamp delta pos w
  = (Panicked (UnsupportedOperation (GetOperation ev)), w).
Proof.
  intros Hpos Hun. simpl. rewrite Hpos.
  unfold dispatchable, isRangeStart in Hun.
  repeat case_decide; try reflexivity; exfalso; apply Hun; tauto.
Qed.

Lemma continue_not_nil (step rest : Go (option string)) w :
  (forall w1, (rest w1).1 <> Done None) ->
  ((do err <- step ;;
    match err with
    | Some e => ret (Some e)
    | None => rest
    end) w).1 <> Done None.
Proof.
  intros Hrest. unfold bind.
  destruct (step w) as [[[e|]|p] w1]; simpl; [discriminate|apply Hrest|discriminate].
Qed.

Lemma Consume_loop_halts r timestamp delta p q ev :
  reaches delta p q ->
  delta !! q = Some ev ->
  ~ dispatchable (GetOperation ev) ->
  forall budget w,
    length delta <= p + budget ->
    (Consume_loop budget r timestamp delta p w).1 <> Done None.
Proof.
  intros Hreach Hq Hun.
  induction Hreach as [p|p q ev0 Hp Hns Hreach IH|p q ev0 Hp Hs Hreach IH];
    intros budget w Hlen.
  - pose proof (lookup_Some_lt _ _ _ Hq).
    destruct budget as [|budget]; [lia|].
    rewrite (Consume_loop_unsupported _ _ _ _ _ _ _ Hq Hun). discriminate.
  - pose proof (lookup_Some_lt _ _ _ Hp).
    destruct budget as [|budget]; [lia|]. simpl. rewrite Hp.
    specialize (IH Hq).
    repeat case_decide;
      try (apply continue_not_nil; intros w1; apply IH; lia);
      try discriminate.
    exfalso. apply Hns. assumption.
  - pose proof (lookup_Some_lt _ _ _ Hp).
    destruct budget as [|budget]; [lia|]. simpl. rewrite Hp.
    specialize (IH Hq).
    unfold isRangeStart in Hs.
    repeat case_decide;
      try (exfalso; destruct Hs as [Hs|Hs]; rewrite Hs in *; discriminate).
    + destruct (delta !! (p + 1)); [|discriminate].
      apply continue_not_nil; intros w1; apply IH; lia.
    + exfalso. tauto.
Qed.

Lemma reaches_trans delta p q s :
  reaches delta p q -> reaches delta q s -> reaches delta p s.
Proof.
  induction 1 as [p|p q ev Hp Hns _ IH|p q ev Hp Hs _ IH]; intros Hqs.
  - exact Hqs.
  - eapply reaches_skip_one; eauto.
  - eapply reaches_skip_two; eauto.
Qed.

(** The loop comes to stand at every position but those right after a
    RangeDeleteStart it stood at. *)
Lemma reaches_or_after_start delta : forall pos,
  pos <= length delta ->
  reaches delta 0 pos
  \/ exists start,
       1 <= pos /\ delta !! (pos - 1) = Some start
       /\ isRangeStart (GetOperation start) /\ reaches delta 0 (pos - 1).
Proof.
  induction pos as [|pos IH]; intros Hlen; [left; apply reaches_here|].
  destruct (IH ltac:(lia)) as [Hr|(start & Hge & Hst & His & Hr)].
  - destruct (lookup_lt_is_Some_2 delta pos ltac:(lia)) as [ev Hev].
    destruct (decide (GetOperation ev = RangeDeleteStartInclusive
                      \/ GetOperation ev = RangeDeleteStartExclusive)) as [Hs|Hns].
    + right. exists ev. replace (S pos - 1) with pos by lia.
      split; [lia|]. split; [exact Hev|]. split; [exact Hs|exact Hr].
    + left. apply (reaches_trans _ _ _ _ Hr).
      apply (reaches_skip_one _ _ _ ev Hev Hns).
      replace (pos + 1) with (S pos) by lia. apply reaches_here.
  - left. apply (reaches_trans _ _ _ _ Hr).
    apply (reaches_skip_two _ _ _ start Hst His).
    replace (pos - 1 + 2) with (S pos) by lia. apply reaches_here.
Qed.

(** C8, as amended. When a change's delta sequence holds, at a position
    the loop of [Consume] comes to stand at, an event whose operation kind
    is none of Insert, Update, RowDelete, PartitionDelete and
    RangeDeleteStart (Inclusive or Exclusive), [Consume] never returns
    without an error: standing at that event it panics with "unsupported
    operation", sending nothing more, unless an earlier event already ended
    the call with an error or a panic; it does not skip the event. The loop
    comes to stand at the first position and at every position whose
    predecessor is no RangeDeleteStart; when every RangeDeleteStart is
    immediately followed by a RangeDeleteEnd, it comes to stand at every
    event that is no RangeDeleteEnd. (The event right after a
    RangeDeleteStart is taken as that start's end without a look at its
    kind.) *)
Theorem unsupported_operation_halts r c w pos ev :
  Delta c !! pos = Some ev ->
  ~ dispatchable (GetOperation ev) ->
  (reaches (Delta c) 0 pos -> (Consume r c w).1 <> Done None)
  /\ (pos = 0
      \/ (exists prev, Delta c !! (pos - 1) = Some prev
                       /\ ~ isRangeStart (GetOperation prev)) ->
      reaches (Delta c) 0 pos)
  /\ (paired (Delta c) -> ~ isRangeEnd (GetOperation ev) ->
      reaches (Delta c) 0 pos)
  /\ forall budget w',
       Consume_loop (S budget) r (GetCassandraTimestamp c) (Delta c) pos w'
       = (Panicked (UnsupportedOperation (GetOperation ev)), w').
Proof.
  intros Hpos Hun.
  pose proof (lookup_Some_lt _ _ _ Hpos) as Hlt.
  split; [|split; [|split]].
  - intros Hreach. unfold Consume. eapply Consume_loop_halts; eauto; lia.
  - intros Hprev.
    destruct (reaches_or_after_start (Delta c) pos ltac:(lia))
      as [Hr|(start & Hge & Hst & His & _)]; [exact Hr|].
    destruct Hprev as [->|(prev & Hprev & Hns)]; [lia|].
    rewrite Hst in Hprev. injection Hprev as <-. contradiction.
  - intros Hpaired Hne.
    destruct (reaches_or_after_start (Delta c) pos ltac:(lia))
      as [Hr|(start & Hge & Hst & His & _)]; [exact Hr|].
    destruct (Hpaired _ _ Hst His) as (end_ & Hend & Hisend).
    replace (pos - 1 + 1) with pos in Hend by lia.
    rewrite Hpos in Hend. injection Hend as <-. contradiction.
  - intros budget w'. apply Consume_loop_unsupported; assumption.
Qed.

(** C10. When every RangeDeleteStart of a change's delta sequence is
    immediately followed by a RangeDeleteEnd, the unguarded access to the
    element at pos+1 that [Consume] makes on a RangeDeleteStart at pos is
    within the sequence: no run of [Consume] panics with an index out of
    range there. Without that, the loop standing at a RangeDeleteStart
    that is the final element makes the access out of range, as does
    [Consume] on a sequence of one RangeDeleteStart alone. *)
Theorem paired_range_start_access_in_bounds r c :
  (paired (Delta c) ->
   forall w i n, (Consume r c w).1 <> Panicked (IndexOutOfRange InDelta i n))
  /\ (forall w budget pos start,
        Delta c !! pos = Some start ->
        isRangeStart (GetOperation start) ->
        pos + 1 = length (Delta c) ->
        Consume_loop (S budget) r (GetCassandraTimestamp c) (Delta c) pos w
        = (Panicked (IndexOutOfRange InDelta (Z.of_nat (pos + 1)) (length (Delta c))),
           w))
  /\ (forall w timestamp start,
        isRangeStart (GetOperation start) ->
        Consume r (mkChange timestamp [start]) w
        = (Panicked (IndexOutOfRange InDelta 1 1), w)).
Proof.
  assert (Hlast : forall timestamp delta w budget pos start,
             delta !! pos = Some start ->
             isRangeStart (GetOperation start) ->
             pos + 1 = length delta ->
             Consume_loop (S budget) r timestamp delta pos w
             = (Panicked (IndexOutOfRange InDelta (Z.of_nat (pos + 1)) (length delta)),
                w)).
  { intros timestamp delta w budget pos start Hpos Hs Hlen. simpl. rewrite Hpos.
    rewrite (lookup_ge_None_2 delta (pos + 1)) by lia.
    unfold isRangeStart in Hs.
    repeat case_decide;
      try (exfalso; destruct Hs as [Hs|Hs]; rewrite Hs in *; discriminate);
      try reflexivity.
    exfalso. tauto. }
  split; [|split].
  - intros Hpaired w i n. unfold Consume.
    pose proof (Consume_loop_outcome
                  (fun p => forall i n, p <> IndexOutOfRange InDelta i n)
                  r (GetCassandraTimestamp c) (Delta c)) as H.
    specialize (H ltac:(intros p Hp i' n' ->; exact Hp) ltac:(discriminate)
                  (or_introl Hpaired) (length (Delta c)) 0 w ltac:(lia)).
    destruct (Consume_loop _ _ _ _ _ _).1; [discriminate|].
    intros [= ->]. eapply H; reflexivity.
  - intros w budget pos start. apply Hlast.
  - intros w timestamp start Hs. unfold Consume. simpl Delta. simpl length.
    apply (Hlast timestamp [start] w 0 0 start); auto.
Qed.


(** ** Consumer construction ([CreateChangeConsumer]) *)

Lemma cut_None c s : cut c s = None <-> contains_char c s = false.
Proof.
  induction s as [|a s IH]; simpl; [tauto|].
  destruct (Ascii.eqb a c); simpl; [split; discriminate|].
  destruct (cut c s) as [[before after]|]; [|tauto].
  split; [discriminate|]. intros H. apply IH in H. discriminate H.
Qed.

Lemma SplitN_dot_2_short name :
  length (SplitN_dot_2 name) < 2 <-> contains_char "."%char name = false.
Proof.
  unfold SplitN_dot_2. rewrite <- cut_None.
  destruct (cut "."%char name) as [[before after]|]; simpl.
  - split; [lia|discriminate].
  - split; [reflexivity|lia].
Qed.

Lemma heapOnly_ret {A : Type} (P : A -> Prop) a : P a -> heapOnly P (ret a).
Proof. intros H w. split; [reflexivity|exact H]. Qed.

Lemma heapOnly_raise {A : Type} (P : A -> Prop) p : heapOnly P (raise p).
Proof. intros w. split; [reflexivity|exact I]. Qed.

Lemma heapOnly_bind {A B : Type} (Q : A -> Prop) (P : B -> Prop) c k :
  heapOnly Q c -> (forall a, heapOnly P (k a)) -> heapOnly P (bind c k).
Proof.
  intros Hc Hk w. unfold bind. destruct (Hc w) as [Hd _].
  destruct (c w) as [[a|p] w1]; simpl in *.
  - destruct (Hk a w1) as [Hd' HP]. split; [congruence|exact HP].
  - split; [exact Hd|exact I].
Qed.

Lemma heapOnly_weaken {A : Type} (P : A -> Prop) c :
  heapOnly (fun _ => True) c -> (forall a, P a) -> heapOnly P c.
Proof.
  intros Hc HP w. destruct (Hc w) as [Hd _]. split; [exact Hd|].
  destruct (c w).1; auto.
Qed.

Lemma heapOnly_goAppend s xs : heapOnly (fun _ => True) (goAppend s xs).
Proof.
  intros w. destruct (goAppend_run s xs w) as (h' & s' & _ & ->).
  split; [reflexivity|exact I].
Qed.

Lemma heapOnly_goAlloc xs : heapOnly (fun _ => True) (goAlloc xs).
Proof.
  intros w. destruct (goAlloc_run xs w) as (h' & s' & _ & ->).
  split; [reflexivity|exact I].
Qed.

Lemma heapOnly_goView s : heapOnly (fun _ => True) (goView s).
Proof. intros w. split; [reflexivity|exact I]. Qed.

Lemma heapOnly_goAppendSlice s t : heapOnly (fun _ => True) (goAppendSlice s t).
Proof. intros w. rewrite goAppendSlice_run. split; [reflexivity|exact I]. Qed.

Lemma heapOnly_lift {A : Type} (c : outcome A) : heapOnly (fun _ => True) (lift c).
Proof. intros w. split; [reflexivity|]. simpl. destruct c; exact I. Qed.

Lemma heapOnly_classifyColumns meta names : forall pk ck other,
  heapOnly (fun _ => True) (classifyColumns meta names pk ck other).
Proof.
  induction names as [|name names IH]; intros pk ck other; simpl.
  - apply heapOnly_ret. exact I.
  - destruct (Columns meta !! name) as [colDesc|]; [|apply heapOnly_raise].
    destruct (Kind colDesc);
      (apply (heapOnly_bind (fun _ => True)); [apply heapOnly_goAppend|intros s; apply IH]).
Qed.

Lemma heapOnly_rangeDeleteQueriesFor prefix eqConds ckCol typs : forall acc,
  heapOnly (fun _ => True) (rangeDeleteQueriesFor prefix eqConds ckCol typs acc).
Proof.
  induction typs as [|typ typs IH]; intros acc; simpl.
  - apply heapOnly_ret. exact I.
  - apply (heapOnly_bind (fun _ => True)); [|intros q; apply IH].
    unfold rangeDeleteQuery.
    apply (heapOnly_bind (fun _ => True)).
    { case_decide; [apply heapOnly_goAppend|apply heapOnly_ret; exact I]. }
    intros s1. apply (heapOnly_bind (fun _ => True)).
    { case_decide; [apply heapOnly_goAppend|apply heapOnly_ret; exact I]. }
    intros s2. apply (heapOnly_bind (fun _ => True)); [apply heapOnly_goView|].
    intros conds. apply heapOnly_ret. exact I.
Qed.

Lemma heapOnly_rangeDeleteQueriesLoop prefix cks : forall eqConds acc,
  heapOnly (fun _ => True) (rangeDeleteQueriesLoop prefix eqConds cks acc).
Proof.
  induction cks as [|ckCol cks IH]; intros eqConds acc;
    cbn [rangeDeleteQueriesLoop].
  - apply heapOnly_ret. exact I.
  - apply (heapOnly_bind (fun _ => True)); [apply heapOnly_rangeDeleteQueriesFor|].
    intros acc'.
    apply (heapOnly_bind (fun _ => True)); [apply heapOnly_goAppend|]. intros s. apply IH.
Qed.

(** [NewDeltaReplicator] works on the heap only and never returns an
    error. *)
Lemma heapOnly_NewDeltaReplicator kmeta meta cons :
  heapOnly (fun res => exists r, res = inl r) (NewDeltaReplicator kmeta meta cons).
Proof.
  unfold NewDeltaReplicator.
  apply (heapOnly_bind (fun _ => True)); [apply heapOnly_classifyColumns|].
  intros [[pk ck] other].
  apply (heapOnly_bind (fun _ => True)); [apply heapOnly_goAlloc|]. intros s0.
  apply (heapOnly_bind (fun _ => True)); [apply heapOnly_goAppendSlice|]. intros s1.
  apply (heapOnly_bind (fun _ => True)); [apply heapOnly_goAppendSlice|]. intros s2.
  apply (heapOnly_bind (fun _ => True)); [apply heapOnly_goAppendSlice|]. intros s3.
  apply (heapOnly_bind (fun _ => True)).
  { unfold computeRowDeleteQuery.
    apply (heapOnly_bind (fun _ => True)); [apply heapOnly_goAlloc|]. intros t0.
    apply (heapOnly_bind (fun _ => True)); [apply heapOnly_goAppendSlice|]. intros t1.
    apply (heapOnly_bind (fun _ => True)); [apply heapOnly_goAppendSlice|]. intros t2.
    apply (heapOnly_bind (fun _ => True)); [apply heapOnly_goView|]. intros keys.
    apply (heapOnly_bind (fun _ => True)); [apply heapOnly_lift|]. intros conds.
    apply heapOnly_ret. exact I. }
  intros dr1. apply (heapOnly_bind (fun _ => True)).
  { unfold computePartitionDeleteQuery.
    apply (heapOnly_bind (fun _ => True)); [apply heapOnly_goView|]. intros keys.
    apply (heapOnly_bind (fun _ => True)); [apply heapOnly_lift|]. intros conds.
    apply heapOnly_ret. exact I. }
  intros dr2. apply (heapOnly_bind (fun _ => True)).
  { unfold computeRangeDeleteQueries.
    apply (heapOnly_bind (fun _ => True)); [apply heapOnly_goView|]. intros pks.
    apply (heapOnly_bind (fun _ => True)); [apply heapOnly_lift|]. intros assignments.
    apply (heapOnly_bind (fun _ => True)); [apply heapOnly_goAlloc|]. intros eqConds.
    apply (heapOnly_bind (fun _ => True)); [apply heapOnly_goView|]. intros cks.
    apply (heapOnly_bind (fun _ => True)); [apply heapOnly_rangeDeleteQueriesLoop|]. intros strs.
    apply heapOnly_ret. exact I. }
  intros dr3. apply heapOnly_ret. eauto.
Qed.

Lemma CreateChangeConsumer_run rf input w :
  CreateChangeConsumer rf input w
  = match cut "."%char (TableName input) with
    | None =>
        (Done (inr ("table name is not fully qualified: " +:+ TableName input)), w)
    | Some (keyspace, table) =>
        let asked := send (ReqKeyspaceMetadata keyspace) (destination w) in
        match metadataAnswer (destination w) (history (destination w)) keyspace with
        | inl err => (Done (inr err), mkWorld (arrays w) (send ReqClose asked))
        | inr kmeta =>
            match Tables kmeta !! table with
            | None =>
                (Done (inr ("table " +:+ TableName input +:+ " does not exist")),
                 mkWorld (arrays w) (send ReqClose asked))
            | Some tmeta =>
                NewDeltaReplicator kmeta tmeta (factoryConsistency rf)
                  (mkWorld (arrays w) asked)
            end
        end
    end.
Proof.
  unfold CreateChangeConsumer, SplitN_dot_2.
  destruct (cut "."%char (TableName input)) as [[keyspace table]|]; [|reflexivity].
  unfold bind at 1. unfold KeyspaceMetadataOf at 1. cbn beta iota zeta.
  destruct (metadataAnswer (destination w) (history (destination w)) keyspace)
    as [err|kmeta]; [reflexivity|].
  destruct (Tables kmeta !! table); reflexivity.
Qed.

(** C7. For every input table name, [CreateChangeConsumer] returns an
    error and no consumer exactly when the name is not
    keyspace.table-qualified (it holds no dot) or the named table is
    absent from the destination catalog. The failure is returned by the
    construction itself, which asks the session for the keyspace at most
    once: nothing is retried. *)
Theorem consumer_construction_errors rf input w :
  let name := TableName input in
  let run := CreateChangeConsumer rf input w in
  ((exists err, run.1 = Done (inr err))
   <-> (contains_char "."%char name = false \/ ~ inCatalog (destination w) name))
  /\ (forall r, run.1 = Done (inl r) ->
        contains_char "."%char name = true /\ inCatalog (destination w) name)
  /\ exists trace,
       history (destination run.2) = history (destination w) ++ trace
       /\ length (List.filter isMetadataRequest trace) <= 1
       /\ ((exists err, run.1 = Done (inr err)) ->
           trace = [] \/ exists keyspace, trace = [ReqKeyspaceMetadata keyspace; ReqClose]).
Proof.
  intros name run. subst run. rewrite CreateChangeConsumer_run. fold name.
  unfold inCatalog.
  destruct (cut "."%char name) as [[keyspace table]|] eqn:Hcut.
  - assert (Hdot : contains_char "."%char name = true).
    { destruct (contains_char "."%char name) eqn:H; [reflexivity|].
      apply cut_None in H. congruence. }
    cbn zeta.
    destruct (metadataAnswer (destination w) (history (destination w)) keyspace)
      as [err|kmeta] eqn:Hmeta.
    + simpl. split; [|split].
      * split; [|eauto]. intros _. right.
        intros (ks & tbl & km & tm & [= <- <-] & Hm & _). congruence.
      * intros r H; discriminate H.
      * exists [ReqKeyspaceMetadata keyspace; ReqClose].
        split; [rewrite <- app_assoc; reflexivity|]. split; [simpl; lia|eauto].
    + destruct (Tables kmeta !! table) as [tmeta|] eqn:Htable.
      * destruct (heapOnly_NewDeltaReplicator kmeta tmeta (factoryConsistency rf)
                    (mkWorld (arrays w)
                       (send (ReqKeyspaceMetadata keyspace) (destination w))))
          as [Hd Hres].
        split; [|split].
        -- split.
           ++ intros [err Herr]. rewrite Herr in Hres.
              destruct Hres as [r Hr]. discriminate Hr.
           ++ intros [H|H]; [congruence|]. exfalso. apply H.
              exists keyspace, table, kmeta, tmeta. auto.
        -- intros r _. split; [exact Hdot|].
           exists keyspace, table, kmeta, tmeta. auto.
        -- exists [ReqKeyspaceMetadata keyspace]. rewrite Hd. simpl.
           split; [reflexivity|]. split; [lia|].
           intros [err Herr]. rewrite Herr in Hres.
           destruct Hres as [r Hr]. discriminate Hr.
      * simpl. split; [|split].
        -- split; [|eauto]. intros _. right.
           intros (ks & tbl & km & tm & [= <- <-] & Hm & Ht). congruence.
        -- intros r H; discriminate H.
        -- exists [ReqKeyspaceMetadata keyspace; ReqClose].
           split; [rewrite <- app_assoc; reflexivity|]. split; [simpl; lia|eauto].
  - assert (Hdot : contains_char "."%char name = false) by (apply cut_None; exact Hcut).
    simpl. split; [|split].
    + split; [auto|eauto].
    + intros r H; discriminate H.
    + exists []. rewrite app_nil_r. split; [reflexivity|]. split; [simpl; lia|auto].
Qed.

(** ** Construction ([NewDeltaReplicator]) *)

Lemma keeps_mono n m h h' : keeps n h h' -> m <= n -> keeps m h h'.
Proof.
  intros (Hok & Hl & K) Hm. split; [exact Hok|]. split; [exact Hl|].
  intros t Ht Hv. apply K; [lia|exact Hv].
Qed.

Lemma local_ret {A : Type} n (a : A) w (Q : A -> World -> Prop) :
  heap_ok (arrays w) -> Q a w -> local n (ret a) w Q.
Proof.
  intros Hok HQ. exists a, w. split; [reflexivity|]. split; [reflexivity|].
  split; [apply keeps_refl; exact Hok|exact HQ].
Qed.

Lemma local_bind {A B : Type} n (c : Go A) (k : A -> Go B) w
    (Q : A -> World -> Prop) (R : B -> World -> Prop) :
  local n c w Q ->
  (forall a w1,
     destination w1 = destination w -> keeps n (arrays w) (arrays w1) -> Q a w1 ->
     local n (k a) w1 R) ->
  local n (bind c k) w R.
Proof.
  intros (a & w1 & E & Hd & K & HQ) Hk.
  destruct (Hk a w1 Hd K HQ) as (b & w2 & E2 & Hd2 & K2 & HR).
  exists b, w2. rewrite (bind_Done _ _ _ _ _ E).
  split; [exact E2|]. split; [congruence|].
  split; [eapply keeps_trans; eassumption|exact HR].
Qed.

Lemma local_weaken {A : Type} n (c : Go A) w (Q R : A -> World -> Prop) :
  local n c w Q -> (forall a w', Q a w' -> R a w') -> local n c w R.
Proof.
  intros (a & w' & E & Hd & K & HQ) H. exists a, w'. auto.
Qed.

Lemma local_goAlloc n xs w :
  heap_ok (arrays w) -> n <= length (arrays w) ->
  local n (goAlloc xs) w
    (fun s w' => n <= base s /\ valid (arrays w') s /\ view (arrays w') s = xs).
Proof.
  intros Hok Hn. destruct (goAlloc_run xs w) as (h' & s' & E & R).
  destruct (allocSlice_spec _ _ _ _ Hok E)
    as (Hok' & Hl & Hb & Hv & Hview & _ & Hframe).
  exists s', (mkWorld h' (destination w)). split; [exact R|].
  split; [reflexivity|]. simpl. split.
  - split; [exact Hok'|]. split; [exact Hl|]. intros t _ Ht. apply Hframe. exact Ht.
  - split; [lia|]. split; assumption.
Qed.

Lemma local_goAppend n s xs w :
  heap_ok (arrays w) -> n <= length (arrays w) -> n <= base s ->
  valid (arrays w) s ->
  local n (goAppend s xs) w
    (fun s' w' => n <= base s' /\ valid (arrays w') s'
                  /\ view (arrays w') s' = view (arrays w) s ++ xs).
Proof.
  intros Hok Hn Hb Hv. destruct (goAppend_run s xs w) as (h' & s' & E & R).
  destruct (appendSlice_keeps n _ _ _ _ _ Hok Hn Hb Hv E) as (K & Hb' & Hv' & Hview).
  exists s', (mkWorld h' (destination w)). split; [exact R|].
  split; [reflexivity|]. simpl. auto.
Qed.

Lemma local_goView n s w :
  heap_ok (arrays w) ->
  local n (goView s) w (fun xs w' => xs = view (arrays w) s /\ w' = w).
Proof.
  intros Hok. exists (view (arrays w) s), w. split; [reflexivity|].
  split; [reflexivity|]. split; [apply keeps_refl; exact Hok|]. auto.
Qed.

Lemma local_lift {A : Type} n (c : outcome A) a w :
  heap_ok (arrays w) -> c = Done a ->
  local n (lift c) w (fun a' w' => a' = a /\ w' = w).
Proof.
  intros Hok ->. exists a, w. split; [reflexivity|]. split; [reflexivity|].
  split; [apply keeps_refl; exact Hok|]. auto.
Qed.

(** [append(s, t...)] for a fresh slice [s] and a slice [t] of the
    translator. *)
Lemma local_goAppendSlice n s t w :
  heap_ok (arrays w) -> n <= length (arrays w) -> n <= base s ->
  valid (arrays w) s ->
  local n (goAppendSlice s t) w
    (fun s' w' => n <= base s' /\ valid (arrays w') s'
                  /\ view (arrays w') s' = view (arrays w) s ++ view (arrays w) t).
Proof.
  intros Hok Hn Hb Hv. unfold goAppendSlice.
  apply (local_bind n _ _ w (fun xs w' => xs = view (arrays w) t /\ w' = w)).
  - apply local_goView. exact Hok.
  - intros xs w1 _ _ [-> ->]. apply local_goAppend; assumption.
Qed.

Lemma unshared_sym s t : unshared s t -> unshared t s.
Proof. unfold unshared. intros H Heq. rewrite Heq. apply H. congruence. Qed.

(** [s = append(s, name)] next to two other lists of the first loop. *)
Lemma append_name h s t u name h' s' :
  heap_ok h -> valid h s -> valid h t -> valid h u ->
  unshared s t -> unshared s u -> owned t -> owned u ->
  appendSlice growslice h s [name] = (h', s') ->
  heap_ok h' /\ valid h' s' /\ valid h' t /\ valid h' u
  /\ owned s' /\ unshared s' t /\ unshared s' u
  /\ view h' s' = view h s ++ [name]
  /\ view h' t = view h t /\ view h' u = view h u.
Proof.
  intros Hok Hs Ht Hu Hst Hsu Hot Hou Happ.
  destruct (appendSlice_spec _ _ _ _ _ Hok Happ)
    as (Hok' & Hl & Hlen & Hbase & Hnz & Hself & Hframe).
  destruct (Hself Hs) as [Hs' Hview].
  assert (Hne : base s' <> 0) by (apply Hnz; discriminate).
  assert (Hrel : forall v, valid h v -> unshared s v -> owned v ->
            (base v <> base s \/ len v <= len s) /\ unshared s' v).
  { intros v Hv Hsv Hov. split.
    - destruct (decide (base v = base s)) as [Heq|Hneq]; [right|left; exact Hneq].
      rewrite Hov; [lia|]. rewrite Heq. apply Hsv. congruence.
    - intros Heq. exfalso. destruct Hbase as [Hb|Hb].
      + apply Hne. rewrite Hb. apply Hsv. congruence.
      + destruct Hv as [Hv _]. lia. }
  destruct (Hrel t Ht Hst Hot) as [Rt Ut].
  destruct (Hrel u Hu Hsu Hou) as [Ru Uu].
  destruct (Hframe t Ht Rt) as (Ht' & Vt & _).
  destruct (Hframe u Hu Ru) as (Hu' & Vu & _).
  split; [exact Hok'|]. split; [exact Hs'|]. split; [exact Ht'|].
  split; [exact Hu'|]. split; [intros Hz; contradiction|].
  split; [exact Ut|]. split; [exact Uu|]. split; [exact Hview|].
  split; assumption.
Qed.

(** The first loop of [NewDeltaReplicator] returns when every ordered
    column has a descriptor, with the names of each kind in their order. *)
Lemma classifyColumns_run meta names : forall pk ck other w,
  classified (arrays w) pk ck other ->
  described meta names ->
  exists pk' ck' other' w',
    classifyColumns meta names pk ck other w = (Done (pk', ck', other'), w')
    /\ destination w' = destination w
    /\ classified (arrays w') pk' ck' other'
    /\ view (arrays w') pk'
       = view (arrays w) pk ++ namesWhere meta isPartitionKey names
    /\ view (arrays w') ck'
       = view (arrays w) ck ++ namesWhere meta isClusteringKey names
    /\ view (arrays w') other'
       = view (arrays w) other ++ namesWhere meta isOtherKind names.
Proof.
  induction names as [|name names IH]; intros pk ck other w Hcl Hdesc.
  - exists pk, ck, other, w. simpl. rewrite !app_nil_r.
    repeat split; try reflexivity; apply Hcl.
  - apply Forall_cons in Hdesc. destruct Hdesc as [[colDesc Hcol] Hdesc].
    destruct Hcl as (Hok & Vp & Vc & Vo & Op & Oc & Oo & Upc & Upo & Uco).
    assert (Hfilter : forall p,
              namesWhere meta p (name :: names)
              = (if p (Kind colDesc) then [name] else []) ++ namesWhere meta p names).
    { intros p. unfold namesWhere. simpl. rewrite Hcol.
      destruct (p (Kind colDesc)); reflexivity. }
    rewrite !Hfilter. cbn [classifyColumns]. rewrite Hcol.
    assert (Hpk : Kind colDesc = ColumnPartitionKey ->
              exists pk' ck' other' w',
                (do pk <- goAppend pk [name] ;; classifyColumns meta names pk ck other) w
                = (Done (pk', ck', other'), w')
                /\ destination w' = destination w
                /\ classified (arrays w') pk' ck' other'
                /\ view (arrays w') pk'
                   = view (arrays w) pk ++ [name] ++ namesWhere meta isPartitionKey names
                /\ view (arrays w') ck'
                   = view (arrays w) ck ++ namesWhere meta isClusteringKey names
                /\ view (arrays w') other'
                   = view (arrays w) other ++ namesWhere meta isOtherKind names).
    { intros _. destruct (goAppend_run pk [name] w) as (h1 & s1 & E & R).
      rewrite (bind_Done _ _ _ _ _ R).
      destruct (append_name _ _ _ _ _ _ _ Hok Vp Vc Vo Upc Upo Oc Oo E)
        as (Hok1 & Vs & Vc1 & Vo1 & Os & Usc & Uso & Ws & Wc & Wo).
      destruct (IH s1 ck other (mkWorld h1 (destination w))) as
        (pk' & ck' & other' & w' & E' & Hd' & Hcl' & Wp' & Wc' & Wo').
      { exact (conj Hok1 (conj Vs (conj Vc1 (conj Vo1 (conj Os (conj Oc
                (conj Oo (conj Usc (conj Uso Uco))))))))). }
      { exact Hdesc. }
      exists pk', ck', other', w'. simpl in *.
      split; [exact E'|]. split; [exact Hd'|]. split; [exact Hcl'|].
      rewrite Wp', Wc', Wo', Ws, Wc, Wo, <- app_assoc. auto. }
    assert (Hck : Kind colDesc = ColumnClusteringKey ->
              exists pk' ck' other' w',
                (do ck <- goAppend ck [name] ;; classifyColumns meta names pk ck other) w
                = (Done (pk', ck', other'), w')
                /\ destination w' = destination w
                /\ classified (arrays w') pk' ck' other'
                /\ view (arrays w') pk'
                   = view (arrays w) pk ++ namesWhere meta isPartitionKey names
                /\ view (arrays w') ck'
                   = view (arrays w) ck ++ [name] ++ namesWhere meta isClusteringKey names
                /\ view (arrays w') other'
                   = view (arrays w) other ++ namesWhere meta isOtherKind names).
    { intros _. destruct (goAppend_run ck [name] w) as (h1 & s1 & E & R).
      rewrite (bind_Done _ _ _ _ _ R).
      destruct (append_name _ _ _ _ _ _ _ Hok Vc Vp Vo (unshared_sym _ _ Upc) Uco Op Oo E)
        as (Hok1 & Vs & Vp1 & Vo1 & Os & Usp & Uso & Ws & Wp & Wo).
      destruct (IH pk s1 other (mkWorld h1 (destination w))) as
        (pk' & ck' & other' & w' & E' & Hd' & Hcl' & Wp' & Wc' & Wo').
      { exact (conj Hok1 (conj Vp1 (conj Vs (conj Vo1 (conj Op (conj Os
                (conj Oo (conj (unshared_sym _ _ Usp) (conj Upo Uso))))))))). }
      { exact Hdesc. }
      exists pk', ck', other', w'. simpl in *.
      split; [exact E'|]. split; [exact Hd'|]. split; [exact Hcl'|].
      rewrite Wp', Wc', Wo', Ws, Wp, Wo, <- app_assoc. auto. }
    assert (Hother : isOtherKind (Kind colDesc) = true ->
              exists pk' ck' other' w',
                (do other <- goAppend other [name] ;;
                 classifyColumns meta names pk ck other) w
                = (Done (pk', ck', other'), w')
                /\ destination w' = destination w
                /\ classified (arrays w') pk' ck' other'
                /\ view (arrays w') pk'
                   = view (arrays w) pk ++ namesWhere meta isPartitionKey names
                /\ view (arrays w') ck'
                   = view (arrays w) ck ++ namesWhere meta isClusteringKey names
                /\ view (arrays w') other'
                   = view (arrays w) other ++ [name] ++ namesWhere meta isOtherKind names).
    { intros _. destruct (goAppend_run other [name] w) as (h1 & s1 & E & R).
      rewrite (bind_Done _ _ _ _ _ R).
      destruct (append_name _ _ _ _ _ _ _ Hok Vo Vp Vc
                  (unshared_sym _ _ Upo) (unshared_sym _ _ Uco) Op Oc E)
        as (Hok1 & Vs & Vp1 & Vc1 & Os & Usp & Usc & Ws & Wp & Wc).
      destruct (IH pk ck s1 (mkWorld h1 (destination w))) as
        (pk' & ck' & other' & w' & E' & Hd' & Hcl' & Wp' & Wc' & Wo').
      { exact (conj Hok1 (conj Vp1 (conj Vc1 (conj Vs (conj Op (conj Oc (conj Os
                (conj Upc (conj (unshared_sym _ _ Usp)
                   (unshared_sym _ _ Usc)))))))))). }
      { exact Hdesc. }
      exists pk', ck', other', w'. simpl in *.
      split; [exact E'|]. split; [exact Hd'|]. split; [exact Hcl'|].
      rewrite Wp', Wc', Wo', Ws, Wp, Wc, <- app_assoc. auto. }
    destruct (Kind colDesc); simpl;
      first [apply Hpk; reflexivity | apply Hck; reflexivity | apply Hother; reflexivity].
Qed.

Lemma local_mono {A : Type} n m (c : Go A) w (Q : A -> World -> Prop) :
  local n c w Q -> m <= n -> local m c w Q.
Proof.
  intros (a & w' & E & Hd & K & HQ) Hm. exists a, w'.
  split; [exact E|]. split; [exact Hd|]. split; [|exact HQ].
  eapply keeps_mono; eassumption.
Qed.

Lemma computeRowDeleteQuery_local n r w conds :
  heap_ok (arrays w) -> n <= length (arrays w) ->
  valid (arrays w) (pkColumns r) -> base (pkColumns r) < n ->
  valid (arrays w) (ckColumns r) -> base (ckColumns r) < n ->
  makeBindMarkerAssignments r (pkNames (arrays w) r ++ ckNames (arrays w) r) " AND "
  = Done conds ->
  local n (computeRowDeleteQuery r) w
    (fun r' _ =>
       r' = mkReplicator (tableName r) (consistency r) (pkColumns r) (ckColumns r)
              (otherColumns r) (columnTypes r) (allColumns r)
              ("DELETE FROM " +:+ tableName r +:+ " WHERE " +:+ conds)
              (partitionDeleteQueryStr r) (rangeDeleteQueryStrs r)).
Proof.
  intros Hok Hn Vp Bp Vc Bc Hconds. unfold computeRowDeleteQuery.
  eapply local_bind; [apply local_goAlloc; assumption|].
  intros empty w1 _ (Hok1 & Hl1 & K1) (Hb1 & Hv1 & Hw1).
  destruct (K1 _ Bp Vp) as (Vp1 & Wp1 & _). destruct (K1 _ Bc Vc) as (Vc1 & Wc1 & _).
  eapply local_bind; [apply local_goAppendSlice; [assumption|lia|assumption..]|].
  intros pks w2 _ (Hok2 & Hl2 & K2) (Hb2 & Hv2 & Hw2).
  destruct (K2 _ Bc Vc1) as (Vc2 & Wc2 & _).
  eapply local_bind; [apply local_goAppendSlice; [assumption|lia|assumption..]|].
  intros keyColumns w3 _ (Hok3 & Hl3 & K3) (Hb3 & Hv3 & Hw3).
  eapply local_bind; [apply local_goView; assumption|].
  intros keyNames w4 _ _ [-> ->].
  eapply local_bind.
  { apply (local_lift n _ conds); [assumption|].
    rewrite Hw3, Hw2, Hw1, Wc2, Wc1, Wp1. exact Hconds. }
  intros c w5 _ _ [-> ->]. apply local_ret; [assumption|reflexivity].
Qed.

Lemma computePartitionDeleteQuery_local n r w conds :
  heap_ok (arrays w) ->
  makeBindMarkerAssignments r (pkNames (arrays w) r) " AND " = Done conds ->
  local n (computePartitionDeleteQuery r) w
    (fun r' _ =>
       r' = mkReplicator (tableName r) (consistency r) (pkColumns r) (ckColumns r)
              (otherColumns r) (columnTypes r) (allColumns r)
              (rowDeleteQueryStr r)
              ("DELETE FROM " +:+ tableName r +:+ " WHERE " +:+ conds)
              (rangeDeleteQueryStrs r)).
Proof.
  intros Hok Hconds. unfold computePartitionDeleteQuery.
  eapply local_bind; [apply local_goView; assumption|].
  intros pks w1 _ _ [-> ->].
  eapply local_bind; [apply (local_lift n _ conds); assumption|].
  intros c w2 _ _ [-> ->]. apply local_ret; [assumption|reflexivity].
Qed.

Lemma computeRangeDeleteQueries_local n r w assignments :
  heap_ok (arrays w) -> n <= length (arrays w) ->
  valid (arrays w) (ckColumns r) -> base (ckColumns r) < n ->
  makeBindMarkerAssignmentList r (pkNames (arrays w) r) = Done assignments ->
  local n (computeRangeDeleteQueries r) w
    (fun r' _ =>
       r' = mkReplicator (tableName r) (consistency r) (pkColumns r) (ckColumns r)
              (otherColumns r) (columnTypes r) (allColumns r)
              (rowDeleteQueryStr r) (partitionDeleteQueryStr r)
              (tableRows ("DELETE FROM " +:+ tableName r +:+ " WHERE ")
                 assignments (ckNames (arrays w) r))).
Proof.
  intros Hok Hn Vc Bc Hassign. unfold computeRangeDeleteQueries.
  eapply local_bind; [apply local_goView; assumption|].
  intros pks w1 _ _ [-> ->].
  eapply local_bind; [apply (local_lift n _ assignments); assumption|].
  intros a w2 _ _ [-> ->].
  eapply local_bind; [apply local_goAlloc; assumption|].
  intros eqConds w3 _ (Hok3 & Hl3 & K3) (Hb3 & Hv3 & Hw3).
  destruct (K3 _ Bc Vc) as (Vc3 & Wc3 & _).
  eapply local_bind; [apply local_goView; assumption|].
  intros cks w4 _ _ [-> ->].
  eapply (local_bind _ _ _ _
            (fun strs w' =>
               strs = tableRows ("DELETE FROM " +:+ tableName r +:+ " WHERE ")
                        assignments (ckNames (arrays w) r)
               /\ heap_ok (arrays w'))).
  { destruct (rangeDeleteQueriesLoop_run
                ("DELETE FROM " +:+ tableName r +:+ " WHERE ") n
                (view (arrays w3) (ckColumns r)) eqConds [] w3
                Hok3 ltac:(lia) Hb3 Hv3) as (w5 & R & Hd & K).
    exists (tableRows ("DELETE FROM " +:+ tableName r +:+ " WHERE ")
              assignments (ckNames (arrays w) r)), w5.
    split; [|split; [exact Hd|split; [exact K|]]].
    - rewrite R, Hw3, Wc3. reflexivity.
    - exact (conj eq_refl (proj1 K)). }
  intros strs w5 _ _ [-> Hok5]. apply local_ret; [assumption|reflexivity].
Qed.

Lemma assignments_described r meta names :
  columnTypes r = (fun colMeta => parseType (ColumnType colMeta)) <$> Columns meta ->
  described meta names ->
  makeBindMarkerAssignmentList r names = Done (map (assignmentOf meta) names).
Proof.
  intros Htypes. induction 1 as [|name names [colDesc Hcol] _ IH]; [reflexivity|].
  unfold makeBindMarkerAssignmentList in *. cbn [omap map].
  rewrite IH. unfold typeOfColumn, assignmentOf.
  rewrite Htypes, lookup_fmap, Hcol. reflexivity.
Qed.

Lemma described_namesWhere meta p names :
  described meta names -> described meta (namesWhere meta p names).
Proof.
  unfold described, namesWhere. induction 1 as [|name names Hname _ IH]; simpl.
  - constructor.
  - destruct (Columns meta !! name) as [colDesc|] eqn:Hcol; [|exact IH].
    destruct (p (Kind colDesc)); [|exact IH].
    constructor; [rewrite Hcol; exact Hname|exact IH].
Qed.

Lemma keeps_at n h h' t :
  keeps n h h' -> base t < n -> valid h t ->
  valid h' t /\ view h' t = view h t.
Proof.
  intros (_ & _ & K) Hb Hv. destruct (K t Hb Hv) as (Hv' & Hview & _). auto.
Qed.

Lemma NewDeltaReplicator_run kmeta meta cons w :
  heap_ok (arrays w) ->
  described meta (OrderedColumns meta) ->
  exists pk ck other all w',
    NewDeltaReplicator kmeta meta cons w
    = (Done (inl (translatorOf meta cons pk ck other all)), w')
    /\ destination w' = destination w
    /\ replicator_ok (arrays w') (translatorOf meta cons pk ck other all)
    /\ view (arrays w') pk = namesWhere meta isPartitionKey (OrderedColumns meta)
    /\ view (arrays w') ck = namesWhere meta isClusteringKey (OrderedColumns meta)
    /\ view (arrays w') other = namesWhere meta isOtherKind (OrderedColumns meta)
    /\ view (arrays w') all
       = view (arrays w') other ++ view (arrays w') pk ++ view (arrays w') ck.
Proof.
  intros Hok Hdesc.
  assert (Hnil : valid (arrays w) nilSlice).
  { split; simpl; [|lia]. apply lookup_lt_is_Some. unfold heap_ok in Hok. eauto. }
  destruct (classifyColumns_run meta (OrderedColumns meta)
              nilSlice nilSlice nilSlice w)
    as (pk & ck & other & w1 & E1 & Hd1 & Hcl & Wp & Wc & Wo).
  { unfold classified, owned, unshared. simpl. tauto. }
  { exact Hdesc. }
  change (view (arrays w) nilSlice) with (@nil string) in Wp, Wc, Wo.
  rewrite app_nil_l in Wp, Wc, Wo.
  destruct Hcl as (Hok1 & Vp & Vc & Vo & Op & Oc & Oo & Upc & Upo & Uco).
  unfold NewDeltaReplicator. rewrite (bind_Done _ _ _ _ _ E1). cbv beta iota.
  set (n1 := length (arrays w1)).
  assert (Bp : base pk < n1) by apply Vp.
  assert (Bc : base ck < n1) by apply Vc.
  assert (Bo : base other < n1) by apply Vo.
  set (pks := namesWhere meta isPartitionKey (OrderedColumns meta)) in *.
  set (cks := namesWhere meta isClusteringKey (OrderedColumns meta)) in *.
  set (others := namesWhere meta isOtherKind (OrderedColumns meta)) in *.
  match goal with
  | |- exists _ _ _ _ w', ?c w1 = _ /\ _ =>
      assert (L : local n1 c w1
                    (fun res w' =>
                       exists all,
                         res = inl (translatorOf meta cons pk ck other all)
                         /\ replicator_ok (arrays w')
                              (translatorOf meta cons pk ck other all)
                         /\ view (arrays w') pk = pks
                         /\ view (arrays w') ck = cks
                         /\ view (arrays w') other = others
                         /\ view (arrays w') all = others ++ pks ++ cks))
  end.
  { eapply local_bind; [apply local_goAlloc; [exact Hok1|unfold n1; lia]|].
    intros empty w2 _ K2 (Hb2 & Hv2 & Hw2).
    destruct (keeps_at _ _ _ _ K2 Bp Vp) as [Vp2 Wp2].
    destruct (keeps_at _ _ _ _ K2 Bc Vc) as [Vc2 Wc2].
    destruct (keeps_at _ _ _ _ K2 Bo Vo) as [Vo2 Wo2].
    destruct K2 as (Hok2 & Hl2 & _).
    eapply local_bind;
      [apply local_goAppendSlice; [exact Hok2|unfold n1 in *; lia|exact Hb2|exact Hv2]|].
    intros all1 w3 _ K3 (Hb3 & Hv3 & Hw3).
    destruct (keeps_at _ _ _ _ K3 Bp Vp2) as [Vp3 Wp3].
    destruct (keeps_at _ _ _ _ K3 Bc Vc2) as [Vc3 Wc3].
    destruct (keeps_at _ _ _ _ K3 Bo Vo2) as [Vo3 Wo3].
    destruct K3 as (Hok3 & Hl3 & _).
    eapply local_bind;
      [apply local_goAppendSlice; [exact Hok3|unfold n1 in *; lia|exact Hb3|exact Hv3]|].
    intros all2 w4 _ K4 (Hb4 & Hv4 & Hw4).
    destruct (keeps_at _ _ _ _ K4 Bp Vp3) as [Vp4 Wp4].
    destruct (keeps_at _ _ _ _ K4 Bc Vc3) as [Vc4 Wc4].
    destruct (keeps_at _ _ _ _ K4 Bo Vo3) as [Vo4 Wo4].
    destruct K4 as (Hok4 & Hl4 & _).
    eapply local_bind;
      [apply local_goAppendSlice; [exact Hok4|unfold n1 in *; lia|exact Hb4|exact Hv4]|].
    intros all w5 _ K5 (Hb5 & Hv5 & Hw5).
    destruct (keeps_at _ _ _ _ K5 Bp Vp4) as [Vp5 Wp5].
    destruct (keeps_at _ _ _ _ K5 Bc Vc4) as [Vc5 Wc5].
    destruct (keeps_at _ _ _ _ K5 Bo Vo4) as [Vo5 Wo5].
    destruct K5 as (Hok5 & Hl5 & _).
    assert (Ep : view (arrays w5) pk = pks) by congruence.
    assert (Ec : view (arrays w5) ck = cks) by congruence.
    assert (Eo : view (arrays w5) other = others) by congruence.
    assert (Ea : view (arrays w5) all = others ++ pks ++ cks).
    { rewrite Hw5, Hw4, Hw3, Hw2, Wc4, Wc3, Wc2, Wc, Wp3, Wp2, Wp, Wo2, Wo.
      rewrite <- app_assoc. reflexivity. }
    cbv zeta.
    set (n5 := length (arrays w5)).
    apply (local_mono n5); [|unfold n5, n1 in *; lia].
    assert (Bp5 : base pk < n5) by apply Vp5.
    assert (Bc5 : base ck < n5) by apply Vc5.
    assert (Bo5 : base other < n5) by apply Vo5.
    assert (Ba5 : base all < n5) by apply Hv5.
    assert (Dp : described meta pks) by (apply described_namesWhere; exact Hdesc).
    assert (Dc : described meta cks) by (apply described_namesWhere; exact Hdesc).
    eapply local_bind.
    { apply (computeRowDeleteQuery_local n5 _ w5
               (Join (map (assignmentOf meta) (pks ++ cks)) " AND "));
        try assumption; [unfold n5; lia|].
      unfold makeBindMarkerAssignments, pkNames, ckNames. simpl pkColumns.
      simpl ckColumns. rewrite Ep, Ec.
      rewrite (assignments_described _ meta); [reflexivity|reflexivity|].
      apply Forall_app. split; assumption. }
    intros dr1 w6 _ K6 ->.
    destruct (keeps_at _ _ _ _ K6 Bp5 Vp5) as [Vp6 Wp6].
    destruct (keeps_at _ _ _ _ K6 Bc5 Vc5) as [Vc6 Wc6].
    destruct (keeps_at _ _ _ _ K6 Bo5 Vo5) as [Vo6 Wo6].
    destruct (keeps_at _ _ _ _ K6 Ba5 Hv5) as [Va6 Wa6].
    destruct K6 as (Hok6 & Hl6 & _).
    eapply local_bind.
    { apply (computePartitionDeleteQuery_local n5 _ w6
               (Join (map (assignmentOf meta) pks) " AND ")); [exact Hok6|].
      unfold makeBindMarkerAssignments, pkNames. simpl pkColumns.
      rewrite Wp6, Ep.
      rewrite (assignments_described _ meta); [reflexivity|reflexivity|exact Dp]. }
    intros dr2 w7 _ K7 ->.
    destruct (keeps_at _ _ _ _ K7 Bp5 Vp6) as [Vp7 Wp7].
    destruct (keeps_at _ _ _ _ K7 Bc5 Vc6) as [Vc7 Wc7].
    destruct (keeps_at _ _ _ _ K7 Bo5 Vo6) as [Vo7 Wo7].
    destruct (keeps_at _ _ _ _ K7 Ba5 Va6) as [Va7 Wa7].
    destruct K7 as (Hok7 & Hl7 & _).
    eapply local_bind.
    { apply (computeRangeDeleteQueries_local n5 _ w7 (map (assignmentOf meta) pks));
        [exact Hok7|unfold n5; lia|exact Vc7|exact Bc5|].
      unfold pkNames. simpl pkColumns. rewrite Wp7, Wp6, Ep.
      apply (assignments_described _ meta); [reflexivity|exact Dp]. }
    intros dr3 w8 _ K8 ->.
    destruct (keeps_at _ _ _ _ K8 Bp5 Vp7) as [Vp8 Wp8].
    destruct (keeps_at _ _ _ _ K8 Bc5 Vc7) as [Vc8 Wc8].
    destruct (keeps_at _ _ _ _ K8 Bo5 Vo7) as [Vo8 Wo8].
    destruct (keeps_at _ _ _ _ K8 Ba5 Va7) as [Va8 Wa8].
    destruct K8 as (Hok8 & Hl8 & _).
    apply local_ret; [exact Hok8|]. exists all. split; [|split].
    - unfold translatorOf, ckNames. simpl. rewrite Wc7, Wc6, Ec. reflexivity.
    - unfold replicator_ok, translatorOf, apart. simpl.
      split; [exact Hok8|]. split; [exact Vp8|]. split; [exact Vc8|].
      split; [exact Vo8|]. split; [exact Va8|]. split; [|split].
      + destruct (decide (base ck = base pk)) as [Heq|Hneq]; [right|left; exact Hneq].
        apply Oc. rewrite Heq. apply Upc. congruence.
      + destruct (decide (base other = base pk)) as [Heq|Hneq]; [right|left; exact Hneq].
        apply Oo. rewrite Heq. apply Upo. congruence.
      + left. unfold n1 in *. lia.
    - split; [congruence|]. split; [congruence|]. split; congruence. }
  destruct L as (res & w' & E & Hd & _ & all & -> & Hrok & Ep & Ec & Eo & Ea).
  exists pk, ck, other, all, w'. split; [exact E|]. split; [congruence|].
  split; [exact Hrok|]. rewrite Ea, Ep, Ec, Eo. auto.
Qed.

Lemma classifyColumns_undescribed meta names : forall pk ck other w,
  ~ described meta names ->
  (classifyColumns meta names pk ck other w).1 = Panicked NilDereference.
Proof.
  induction names as [|name names IH]; intros pk ck other w Hnot.
  - exfalso. apply Hnot. constructor.
  - cbn [classifyColumns].
    destruct (Columns meta !! name) as [colDesc|] eqn:Hcol; [|reflexivity].
    assert (Hrest : ~ described meta names).
    { intros Hd. apply Hnot. constructor; [rewrite Hcol; eauto|exact Hd]. }
    destruct (Kind colDesc);
      match goal with
      | |- (bind (goAppend ?s ?xs) _ _).1 = _ =>
          destruct (goAppend_run s xs w) as (h1 & s1 & _ & R);
          rewrite (bind_Done _ _ _ _ _ R); apply IH; exact Hrest
      end.
Qed.

Lemma NewDeltaReplicator_undescribed kmeta meta cons w :
  ~ described meta (OrderedColumns meta) ->
  (NewDeltaReplicator kmeta meta cons w).1 = Panicked NilDereference.
Proof.
  intros Hnot. unfold NewDeltaReplicator, bind.
  pose proof (classifyColumns_undescribed meta (OrderedColumns meta)
                nilSlice nilSlice nilSlice w Hnot) as H.
  destruct (classifyColumns meta (OrderedColumns meta) nilSlice nilSlice nilSlice w)
    as [[a|p] w1]; simpl in H; [discriminate H|].
  injection H as ->. reflexivity.
Qed.

Lemma described_dec meta names : {described meta names} + {~ described meta names}.
Proof.
  unfold described. apply Forall_dec. intros name.
  destruct (Columns meta !! name) as [colDesc|].
  - left. eauto.
  - right. intros [x Hx]. discriminate Hx.
Qed.

Lemma constructed_replicator_ok kmeta meta cons w0 r w :
  heap_ok (arrays w0) ->
  NewDeltaReplicator kmeta meta cons w0 = (Done (inl r), w) ->
  replicator_ok (arrays w) r.
Proof.
  intros Hok Hrun.
  destruct (described_dec meta (OrderedColumns meta)) as [Hd|Hd].
  - destruct (NewDeltaReplicator_run kmeta meta cons w0 Hok Hd)
      as (pk & ck & other & all & w' & E & _ & Hr & _).
    rewrite E in Hrun. injection Hrun as <- <-. exact Hr.
  - pose proof (NewDeltaReplicator_undescribed kmeta meta cons w0 Hd) as H.
    rewrite Hrun in H. discriminate H.
Qed.

(** ** Consume: nothing but the translator and the session is read *)

Lemma similar_names r w1 w2 :
  similar r w1 w2 ->
  pkNames (arrays w1) r = pkNames (arrays w2) r
  /\ ckNames (arrays w1) r = ckNames (arrays w2) r
  /\ otherNames (arrays w1) r = otherNames (arrays w2) r.
Proof.
  intros (_ & _ & Hst & _). unfold translatorState in Hst.
  injection Hst as Hp Hc Ho _. auto.
Qed.

Lemma agree_ret r {A : Type} (a : A) : agree r (ret a).
Proof. intros w1 w2 H. split; [reflexivity|exact H]. Qed.

Lemma agree_raise r {A : Type} p : agree r (@raise A p).
Proof. intros w1 w2 H. split; [reflexivity|exact H]. Qed.

Lemma agree_bind r {A B : Type} (c : Go A) (k : A -> Go B) :
  agree r c -> (forall a, agree r (k a)) -> agree r (bind c k).
Proof.
  intros Hc Hk w1 w2 Hs. unfold bind. destruct (Hc w1 w2 Hs) as [E S].
  destruct (c w1) as [[a1|p1] w1'], (c w2) as [[a2|p2] w2'];
    simpl in *; try discriminate E.
  - injection E as <-. apply Hk. exact S.
  - injection E as <-. split; [reflexivity|exact S].
Qed.

Lemma agree_Exec r q : agree r (Exec q).
Proof.
  intros w1 w2 (H1 & H2 & Hst & Hd). unfold Exec. simpl. rewrite Hd.
  split; [reflexivity|]. split; [exact H1|]. split; [exact H2|].
  split; [exact Hst|reflexivity].
Qed.

Lemma agree_processInsertOrUpdate r timestamp isInsert c :
  agree r (processInsertOrUpdate r timestamp isInsert c).
Proof.
  intros w1 w2 Hs. destruct (similar_names _ _ _ Hs) as (Hp & Hc & Ho).
  destruct Hs as (H1 & H2 & Hst & Hd).
  rewrite !processInsertOrUpdate_run by assumption.
  destruct (keyColumnsHeap_frame _ _ H1) as (Hok1 & Hst1 & _).
  destruct (keyColumnsHeap_frame _ _ H2) as (Hok2 & Hst2 & _).
  rewrite Hp, Hc, Ho.
  assert (Hsim : similar r (mkWorld (keyColumnsHeap (arrays w1) r) (destination w1))
                   (mkWorld (keyColumnsHeap (arrays w2) r) (destination w2))).
  { split; [exact Hok1|]. split; [exact Hok2|]. split; [simpl; congruence|exact Hd]. }
  destruct (insertOrUpdateEntries _ _ _ _ _ _) as [entries|p].
  - apply agree_Exec. exact Hsim.
  - split; [reflexivity|exact Hsim].
Qed.

Lemma agree_processRowDelete r timestamp c :
  agree r (processRowDelete r timestamp c).
Proof.
  intros w1 w2 Hs. destruct (similar_names _ _ _ Hs) as (Hp & Hc & _).
  unfold processRowDelete.
  rewrite !(bind_Done _ _ _ _ _ (goView_run _ _)).
  fold (pkNames (arrays w1) r) (pkNames (arrays w2) r).
  fold (ckNames (arrays w1) r) (ckNames (arrays w2) r).
  rewrite Hp, Hc. apply agree_Exec. exact Hs.
Qed.

Lemma agree_processPartitionDelete r timestamp c :
  agree r (processPartitionDelete r timestamp c).
Proof.
  intros w1 w2 Hs. destruct (similar_names _ _ _ Hs) as (Hp & _ & _).
  unfold processPartitionDelete.
  rewrite !(bind_Done _ _ _ _ _ (goView_run _ _)).
  fold (pkNames (arrays w1) r) (pkNames (arrays w2) r).
  rewrite Hp. apply agree_Exec. exact Hs.
Qed.

Lemma agree_processRangeDelete r timestamp start end_ :
  agree r (processRangeDelete r timestamp start end_).
Proof.
  intros w1 w2 Hs. destruct (similar_names _ _ _ Hs) as (Hp & Hc & _).
  unfold processRangeDelete.
  rewrite !(bind_Done _ _ _ _ _ (goView_run _ _)).
  fold (pkNames (arrays w1) r) (pkNames (arrays w2) r).
  fold (ckNames (arrays w1) r) (ckNames (arrays w2) r).
  rewrite Hp, Hc.
  destruct (resolveRange start end_ (pkNames (arrays w2) r) (ckNames (arrays w2) r))
    as [queryIdx vals].
  case_decide; [|apply agree_raise; exact Hs].
  destruct (rangeDeleteQueryStrs r !! Z.to_nat queryIdx);
    [apply agree_Exec|apply agree_raise]; exact Hs.
Qed.

Lemma agree_Consume_loop r timestamp delta budget : forall pos,
  agree r (Consume_loop budget r timestamp delta pos).
Proof.
  induction budget as [|budget IH]; intros pos; simpl.
  - case_decide; [apply agree_raise|apply agree_ret].
  - destruct (delta !! pos) as [change|]; [|apply agree_ret].
    assert (Hcont : forall step pos',
               agree r step ->
               agree r (do err <- step ;;
                        match err with
                        | Some e => ret (Some e)
                        | None => Consume_loop budget r timestamp delta pos'
                        end)).
    { intros step pos' Hstep. apply agree_bind; [exact Hstep|].
      intros [e|]; [apply agree_ret|apply IH]. }
    repeat case_decide.
    + apply Hcont, agree_processInsertOrUpdate.
    + apply Hcont, agree_processInsertOrUpdate.
    + apply Hcont, agree_processRowDelete.
    + apply Hcont, agree_processPartitionDelete.
    + destruct (delta !! (pos + 1)) as [end_|]; [|apply agree_raise].
      apply Hcont, agree_processRangeDelete.
    + apply agree_raise.
Qed.

(** A later call behaves as if the earlier ones had not been. *)
Lemma consumeAll_steady r changes : forall w,
  replicator_ok (arrays w) r ->
  replicator_ok (arrays (consumeAll r changes w)) r
  /\ translatorState (arrays (consumeAll r changes w)) r
     = translatorState (arrays w) r.
Proof.
  induction changes as [|c changes IH]; intros w Hw; simpl.
  - split; [exact Hw|reflexivity].
  - destruct (steady_Consume_loop r (GetCassandraTimestamp c) (Delta c)
                (length (Delta c)) 0 w Hw) as [H1 H2].
    destruct (IH _ H1) as [H3 H4]. unfold Consume. split; [exact H3|].
    rewrite H4. exact H2.
Qed.

(** C9. Over every sequence of [Consume] calls on a constructed
    translator, the translator's state is unchanged by every call. A
    translator [NewDeltaReplicator] returns owns the arrays of its column
    lists. From then on the partition-key, clustering-key and regular
    column lists (and the list of all columns) read after every call as
    before, with the capacities they had; the column-type map and the
    precomputed row-delete, partition-delete and range-delete query strings
    are fields that no call assigns. The one write that reaches the memory
    of the translator, that of [append(r.pkColumns, r.ckColumns...)] into
    spare capacity, lies beyond the length of every list, and no later call
    reads it: after any sequence of calls, [Consume] returns and sends what
    it would on the heap the sequence started from. *)
Theorem consume_leaves_translator_unchanged r changes w :
  (forall kmeta meta cons w0,
     heap_ok (arrays w0) ->
     NewDeltaReplicator kmeta meta cons w0 = (Done (inl r), w) ->
     replicator_ok (arrays w) r)
  /\ (replicator_ok (arrays w) r ->
      let w' := consumeAll r changes w in
      replicator_ok (arrays w') r
      /\ translatorState (arrays w') r = translatorState (arrays w) r
      /\ (forall c,
            replicator_ok (arrays (Consume r c w).2) r
            /\ translatorState (arrays (Consume r c w).2) r
               = translatorState (arrays w) r)
      /\ (forall c,
            let rewound := mkWorld (arrays w) (destination w') in
            (Consume r c w').1 = (Consume r c rewound).1
            /\ destination (Consume r c w').2
               = destination (Consume r c rewound).2)).
Proof.
  split; [intros kmeta meta cons w0; apply constructed_replicator_ok|].
  intros Hw. destruct (consumeAll_steady r changes w Hw) as [Hok Hst].
  cbv zeta. split; [exact Hok|]. split; [exact Hst|]. split.
  - intros c. apply (steady_Consume_loop r _ _ _ 0 w Hw).
  - intros c.
    destruct (agree_Consume_loop r (GetCassandraTimestamp c) (Delta c)
                (length (Delta c)) 0 (consumeAll r changes w)
                (mkWorld (arrays w) (destination (consumeAll r changes w))))
      as [E (_ & _ & _ & D)].
    { split; [exact Hok|]. split; [exact Hw|]. split; [exact Hst|reflexivity]. }
    split; [exact E|exact D].
Qed.

(** [NewDeltaReplicator] on the metadata of a table whose ordered columns
    all have a descriptor sends nothing to the session and returns the
    translator of the table, which owns its lists: the partition-key,
    clustering-key and remaining columns are the ordered columns of each
    kind in the catalog's order, the list of all columns is the remaining
    columns, then the partition key, then the clustering key, every column
    has its parsed type, and the three kinds of delete statement are
    precomputed from the key columns, the range-delete table holding the
    template of each depth and pair of bound kinds at its flat index. A
    column without a descriptor makes the construction panic on the nil
    descriptor. *)
Theorem construction_builds_translator kmeta meta cons w :
  heap_ok (arrays w) ->
  (described meta (OrderedColumns meta) ->
   exists pk ck other all w',
     let r := translatorOf meta cons pk ck other all in
     NewDeltaReplicator kmeta meta cons w = (Done (inl r), w')
     /\ destination w' = destination w
     /\ replicator_ok (arrays w') r
     /\ pkNames (arrays w') r = namesWhere meta isPartitionKey (OrderedColumns meta)
     /\ ckNames (arrays w') r = namesWhere meta isClusteringKey (OrderedColumns meta)
     /\ otherNames (arrays w') r = namesWhere meta isOtherKind (OrderedColumns meta)
     /\ allNames (arrays w') r
        = otherNames (arrays w') r ++ pkNames (arrays w') r ++ ckNames (arrays w') r
     /\ typed r (OrderedColumns meta)
     /\ makeBindMarkerAssignmentList r (pkNames (arrays w') r)
        = Done (map (assignmentOf meta) (pkNames (arrays w') r))
     /\ length (rangeDeleteQueryStrs r) = 8 * length (ckNames (arrays w') r)
     /\ (forall d l rk,
           d < length (ckNames (arrays w') r) -> boundedPair l rk ->
           rangeDeleteQueryStrs r !! flatIndex d l rk
           = Some (rangeTemplate (tableName r)
                     (map (assignmentOf meta) (pkNames (arrays w') r))
                     (ckNames (arrays w') r) d l rk)))
  /\ (~ described meta (OrderedColumns meta) ->
      (NewDeltaReplicator kmeta meta cons w).1 = Panicked NilDereference).
Proof.
  intros Hok. split; [|apply NewDeltaReplicator_undescribed].
  intros Hdesc.
  destruct (NewDeltaReplicator_run kmeta meta cons w Hok Hdesc)
    as (pk & ck & other & all & w' & E & Hd & Hr & Ep & Ec & Eo & Ea).
  exists pk, ck, other, all, w'. cbv zeta.
  split; [exact E|]. split; [exact Hd|]. split; [exact Hr|].
  split; [exact Ep|]. split; [exact Ec|]. split; [exact Eo|]. split; [exact Ea|].
  split; [|split; [|split]].
  - unfold typed, translatorOf. simpl.
    eapply Forall_impl; [exact Hdesc|]. intros name [colDesc Hcol].
    rewrite lookup_fmap, Hcol. simpl. eauto.
  - apply assignments_described; [reflexivity|].
    unfold pkNames. simpl pkColumns. rewrite Ep.
    apply described_namesWhere. exact Hdesc.
  - unfold ckNames. simpl. rewrite Ec. apply tableRows_length.
  - intros d l rk. unfold ckNames, pkNames. simpl. rewrite Ec, Ep.
    apply tableRows_at.
Qed.

(** ** Consume: requests and errors *)

Lemma accepted_snoc qs : forall s q,
  accepted s qs -> execAnswer (sends s qs) (history (sends s qs)) q = None ->
  accepted s (qs ++ [q]).
Proof.
  induction qs as [|q0 qs IH]; intros s q Hacc Hq; simpl in *.
  - auto.
  - destruct Hacc as [H0 Hacc]. split; [exact H0|]. apply IH; assumption.
Qed.

Lemma sends_snoc s qs q : sends s (qs ++ [q]) = send q (sends s qs).
Proof. unfold sends. rewrite fold_left_app. reflexivity. Qed.

Lemma sends_cons s q qs : sends s (q :: qs) = sends (send q s) qs.
Proof. reflexivity. Qed.

Lemma orderly_after s q result s' :
  execAnswer s (history s) q = None ->
  orderly (send q s) result s' -> orderly s result s'.
Proof.
  intros Hq. destruct result as [[e|]|p]; simpl.
  - intros (qs & q' & -> & Hacc & He). exists (q :: qs), q'.
    rewrite sends_cons. split; [reflexivity|]. split; [|exact He].
    split; assumption.
  - intros (qs & -> & Hacc). exists (q :: qs). split; [reflexivity|].
    split; assumption.
  - intros (qs & -> & Hacc). exists (q :: qs). split; [reflexivity|].
    split; assumption.
Qed.

Lemma oneRequest_Exec q : oneRequest (Exec q).
Proof. intros w. simpl. exists q. split; reflexivity. Qed.

Lemma oneRequest_raise p : oneRequest (raise p).
Proof. intros w. reflexivity. Qed.

Lemma oneRequest_bind {A : Type} (c : Go A) (k : A -> Go (option string)) :
  heapOnly (fun _ => True) c -> (forall a, oneRequest (k a)) ->
  oneRequest (bind c k).
Proof.
  intros Hc Hk w. unfold bind. destruct (Hc w) as [Hd _].
  destruct (c w) as [[a|p] w1]; simpl in *.
  - specialize (Hk a w1). rewrite Hd in Hk. exact Hk.
  - exact Hd.
Qed.

Lemma oneRequest_processInsertOrUpdate r timestamp isInsert c :
  oneRequest (processInsertOrUpdate r timestamp isInsert c).
Proof.
  unfold processInsertOrUpdate.
  apply oneRequest_bind; [apply heapOnly_goAppendSlice|]. intros keyColumns.
  apply oneRequest_bind; [apply heapOnly_goView|]. intros keyNames.
  apply oneRequest_bind; [apply heapOnly_goView|]. intros others.
  apply oneRequest_bind; [apply heapOnly_lift|]. intros entries.
  apply oneRequest_Exec.
Qed.

Lemma oneRequest_processRowDelete r timestamp c :
  oneRequest (processRowDelete r timestamp c).
Proof.
  unfold processRowDelete.
  apply oneRequest_bind; [apply heapOnly_goView|]. intros pks.
  apply oneRequest_bind; [apply heapOnly_goView|]. intros cks.
  apply oneRequest_Exec.
Qed.

Lemma oneRequest_processPartitionDelete r timestamp c :
  oneRequest (processPartitionDelete r timestamp c).
Proof.
  unfold processPartitionDelete.
  apply oneRequest_bind; [apply heapOnly_goView|]. intros pks.
  apply oneRequest_Exec.
Qed.

Lemma oneRequest_processRangeDelete r timestamp start end_ :
  oneRequest (processRangeDelete r timestamp start end_).
Proof.
  unfold processRangeDelete.
  apply oneRequest_bind; [apply heapOnly_goView|]. intros pks.
  apply oneRequest_bind; [apply heapOnly_goView|]. intros cks.
  destruct (resolveRange start end_ pks cks) as [queryIdx vals].
  case_decide; [|apply oneRequest_raise].
  destruct (rangeDeleteQueryStrs r !! Z.to_nat queryIdx);
    [apply oneRequest_Exec|apply oneRequest_raise].
Qed.

Lemma orderly_here s (result : outcome (option string)) :
  match result with Done (Some _) => False | _ => True end ->
  orderly s result s.
Proof.
  destruct result as [[e|]|p]; simpl; intros H; [contradiction| |];
    exists []; split; [reflexivity|exact I|reflexivity|exact I].
Qed.

(** One event handled, then the rest of the loop. *)
Lemma continue_orderly (step rest : Go (option string)) w :
  oneRequest step ->
  (forall w1, orderly (destination w1) (rest w1).1 (destination (rest w1).2)) ->
  let run := (do err <- step ;;
              match err with
              | Some e => ret (Some e)
              | None => rest
              end) w in
  orderly (destination w) run.1 (destination run.2).
Proof.
  intros Hstep Hrest. cbv zeta. unfold bind. specialize (Hstep w).
  destruct (step w) as [[[e|]|p] w1]; simpl in *.
  - destruct Hstep as (q & -> & He). exists [], q. simpl. auto.
  - destruct Hstep as (q & Hd & Hq). apply (orderly_after _ q); [auto|].
    rewrite <- Hd. apply Hrest.
  - exists []. simpl. auto.
Qed.

Lemma Consume_loop_orderly r timestamp delta budget : forall pos w,
  let run := Consume_loop budget r timestamp delta pos w in
  orderly (destination w) run.1 (destination run.2).
Proof.
  induction budget as [|budget IH]; intros pos w; cbv zeta; simpl.
  - case_decide; apply orderly_here; exact I.
  - destruct (delta !! pos) as [change|]; [|apply orderly_here; exact I].
    repeat case_decide.
    + apply continue_orderly; [apply oneRequest_processInsertOrUpdate|].
      intros w1. apply IH.
    + apply continue_orderly; [apply oneRequest_processInsertOrUpdate|].
      intros w1. apply IH.
    + apply continue_orderly; [apply oneRequest_processRowDelete|].
      intros w1. apply IH.
    + apply continue_orderly; [apply oneRequest_processPartitionDelete|].
      intros w1. apply IH.
    + destruct (delta !! (pos + 1)) as [end_|]; [|apply orderly_here; exact I].
      apply continue_orderly; [apply oneRequest_processRangeDelete|].
      intros w1. apply IH.
    + apply orderly_here. exact I.
Qed.

(** [Consume] stops at the first request the session answers with an
    error and returns that error as it is: every request sent before was
    accepted, the error returned is the session's answer to the last
    request sent, and nothing is sent after it. A run that returns without
    an error, or panics, had all its requests accepted. *)
Theorem consume_returns_first_error r c w :
  let run := Consume r c w in
  orderly (destination w) run.1 (destination run.2)
  /\ (forall e, run.1 = Done (Some e) ->
        exists trace q,
          history (destination run.2) = history (destination w) ++ trace ++ [q]
          /\ execAnswer (destination w) (history (destination w) ++ trace) q = Some e).
Proof.
  cbv zeta. pose proof (Consume_loop_orderly r (GetCassandraTimestamp c) (Delta c)
                          (length (Delta c)) 0 w) as H.
  cbv zeta in H. fold (Consume r c) in H. split; [exact H|].
  intros e He. rewrite He in H. simpl in H.
  destruct H as (qs & q & Hs & _ & Hq).
  assert (Hsends : forall qs s,
            history (sends s qs) = history s ++ qs
            /\ execAnswer (sends s qs) = execAnswer s).
  { clear. induction qs as [|q qs IH]; intros s.
    - simpl. rewrite app_nil_r. auto.
    - rewrite sends_cons. destruct (IH (send q s)) as [H1 H2].
      rewrite H1, H2. simpl. rewrite <- app_assoc. auto. }
  destruct (Hsends qs (destination w)) as [Hh Ha].
  exists qs, q. rewrite Hs. simpl. rewrite Hh, <- app_assoc.
  split; [reflexivity|]. rewrite <- Ha, <- Hh. exact Hq.
Qed.

(** ** Bind markers and bound values *)

Lemma holes_app (a b : string) : holes (a +:+ b) = holes a + holes b.
Proof.
  induction a as [|x a IH]; [reflexivity|].
  change (holes (String x (a +:+ b)) = holes (String x a) + holes b).
  simpl. rewrite IH. lia.
Qed.

Lemma holes_Join k sep l :
  plain sep -> Forall (fun s => holes s = k) l ->
  holes (Join l sep) = k * length l.
Proof.
  intros Hsep. induction 1 as [|x l Hx Hl IH]; [simpl; lia|].
  destruct l as [|y l].
  - simpl. lia.
  - change (Join (x :: y :: l) sep) with (x +:+ sep +:+ Join (y :: l) sep).
    rewrite !holes_app, IH, Hx, Hsep. simpl length. lia.
Qed.

Lemma marker_of_non_tuple typ :
  Type_ typ <> TypeTuple -> makeBindMarkerForType typ = "?".
Proof. intros H. unfold makeBindMarkerForType. rewrite decide_True by exact H. reflexivity. Qed.

Lemma append_non_tuple vals v typ :
  Type_ typ <> TypeTuple -> appendValueByType vals v typ = Done (vals ++ [v]).
Proof. intros H. unfold appendValueByType. rewrite decide_False by exact H. reflexivity. Qed.

Lemma omap_length {A B : Type} (f : A -> outcome B) l : forall ys,
  omap f l = Done ys -> length ys = length l.
Proof.
  induction l as [|x l IH]; intros ys; simpl.
  - intros [= <-]. reflexivity.
  - destruct (f x) as [y|p]; simpl; [|discriminate].
    destruct (omap f l) as [ys'|p]; simpl; [|discriminate].
    intros [= <-]. simpl. rewrite (IH ys') by reflexivity. reflexivity.
Qed.

Lemma omap_Forall_in {A B : Type} (f : A -> outcome B) (P : B -> Prop) l : forall ys,
  omap f l = Done ys -> (forall x y, x ∈ l -> f x = Done y -> P y) -> Forall P ys.
Proof.
  induction l as [|x l IH]; intros ys; simpl.
  - intros [= <-] _. constructor.
  - destruct (f x) as [y|p] eqn:Hfx; simpl; [|discriminate].
    destruct (omap f l) as [ys'|p]; simpl; [|discriminate].
    intros [= <-] H. constructor.
    + apply (H x y); [left|exact Hfx].
    + apply IH; [reflexivity|]. intros x' y' Hin. apply H. right. exact Hin.
Qed.

(** The key conditions hold one marker per key column. *)
Lemma holes_keyConditions r keys conds :
  Forall plain keys -> tupleFree r keys ->
  makeBindMarkerAssignments r keys " AND " = Done conds ->
  holes conds = length keys.
Proof.
  intros Hplain Hfree. unfold makeBindMarkerAssignments.
  destruct (makeBindMarkerAssignmentList r keys) as [assignments|p] eqn:E;
    simpl; [|discriminate].
  intros [= <-]. unfold makeBindMarkerAssignmentList in E.
  rewrite (holes_Join 1); [rewrite (omap_length _ _ _ E); lia|reflexivity|].
  apply (omap_Forall_in _ _ _ _ E). intros name y Hin.
  unfold typeOfColumn. destruct (columnTypes r !! name) as [typ|] eqn:Htyp;
    simpl; [|discriminate].
  intros [= <-]. unfold tupleFree in Hfree. rewrite Forall_forall in Hplain, Hfree.
  rewrite (marker_of_non_tuple typ) by (apply (Hfree name Hin); exact Htyp).
  rewrite !holes_app, (Hplain name Hin). reflexivity.
Qed.

Lemma holes_keyMarkers r keys markers :
  tupleFree r keys -> keyMarkers r keys = Done markers ->
  holes (Join markers ", ") = length keys.
Proof.
  intros Hfree E. unfold keyMarkers in E.
  rewrite (holes_Join 1); [rewrite (omap_length _ _ _ E); lia|reflexivity|].
  apply (omap_Forall_in _ _ _ _ E). intros name y Hin.
  unfold typeOfColumn. destruct (columnTypes r !! name) as [typ|] eqn:Htyp;
    simpl; [|discriminate].
  intros [= <-]. unfold tupleFree in Hfree. rewrite Forall_forall in Hfree.
  rewrite (marker_of_non_tuple typ) by (apply (Hfree name Hin); exact Htyp).
  reflexivity.
Qed.

Lemma plain_Join sep l : plain sep -> Forall plain l -> plain (Join l sep).
Proof.
  intros Hsep Hl. unfold plain. rewrite (holes_Join 0); [lia|exact Hsep|exact Hl].
Qed.

Ltac count_markers :=
  unfold wellBound, appendKeyValuesToBind, plain in *;
  cbn [Stmt Args];
  rewrite ?holes_app, ?length_app, ?length_map;
  simpl; lia.

Lemma wellBound_scalarMutations r c keys conds col typ es :
  plain (tableName r) -> plain col -> holes conds = length keys ->
  Type_ typ <> TypeTuple ->
  scalarMutations r c keys conds col typ = Done es -> Forall wellBound es.
Proof.
  intros HT Hcol Hconds Hnt. unfold scalarMutations.
  rewrite (marker_of_non_tuple typ Hnt), (append_non_tuple _ _ typ Hnt).
  destruct (IsDeleted (GetScalarChange c col)).
  - intros [= <-]. constructor; [count_markers|constructor].
  - destruct (nonNil (Value (GetScalarChange c col))); intros [= <-];
      [|constructor].
    constructor; [count_markers|constructor].
Qed.

Lemma wellBound_listMutations r c timestamp keys conds col typ es :
  plain (tableName r) -> plain col -> holes conds = length keys ->
  Type_ typ = TypeList ->
  listMutations r c timestamp keys conds col typ = Done es -> Forall wellBound es.
Proof.
  intros HT Hcol Hconds Ht.
  assert (Hnt : Type_ typ <> TypeTuple) by (rewrite Ht; discriminate).
  unfold listMutations. rewrite (marker_of_non_tuple typ Hnt).
  match goal with
  | |- obind ?app _ = _ -> _ => destruct app as [appended|p] eqn:Eapp
  end; simpl; [|discriminate].
  match goal with
  | |- obind ?rem _ = _ -> _ => destruct rem as [removed|p] eqn:Erem
  end; simpl; [|discriminate].
  intros [= <-]. apply Forall_app. split; [|apply Forall_app; split].
  - destruct (ListIsReset (GetListChange c col)); [|constructor].
    constructor; [count_markers|constructor].
  - destruct (nonNil (AppendedElements (GetListChange c col)));
      [|injection Eapp as <-; constructor].
    destruct (reflect_MapRange (AppendedElements (GetListChange c col)))
      as [cells|p]; simpl in Eapp; [|discriminate Eapp].
    apply (omap_Forall_in _ _ _ _ Eapp). intros [k v] y _.
    rewrite (append_non_tuple _ _ typ Hnt). simpl. intros [= <-]. count_markers.
  - destruct (nonNil (RemovedElements (GetListChange c col)));
      [|injection Erem as <-; constructor].
    destruct (reflect_Elements (RemovedElements (GetListChange c col)))
      as [els|p]; simpl in Erem; [|discriminate Erem].
    injection Erem as <-. apply Forall_forall. intros e He.
    apply list_elem_of_fmap in He. destruct He as (k & -> & _). count_markers.
Qed.

Lemma wellBound_setOrMapMutations r c keys conds col typ :
  plain (tableName r) -> plain col -> holes conds = length keys ->
  Forall wellBound (setOrMapMutations r c keys conds col typ).
Proof.
  intros HT Hcol Hconds. unfold setOrMapMutations.
  case_decide;
    (destruct (SetIsReset (GetSetChange c col));
     [constructor; [count_markers|constructor]|];
     apply Forall_app; split;
     match goal with
     | |- Forall _ (if ?b then _ else _) =>
         destruct b; [constructor; [count_markers|constructor]|constructor]
     end).
Qed.

Lemma udtElements_plain c col elements :
  plainFields c -> udtElements (ChangeColumns c) col = Done elements ->
  Forall plain elements.
Proof.
  unfold plainFields. induction 1 as [|colInfo infos Hinfo _ IH]; simpl.
  - intros [= <-]. constructor.
  - case_decide; [|exact IH].
    destruct (ColumnTypeInfo colInfo) as [Elements|descr]; [|discriminate].
    intros [= <-]. exact Hinfo.
Qed.

Lemma wellBound_udtMutations r c keys conds col typ es :
  plain (tableName r) -> plain col -> holes conds = length keys ->
  plainFields c -> Type_ typ = TypeUDT ->
  udtMutations r c keys conds col typ = Done es -> Forall wellBound es.
Proof.
  intros HT Hcol Hconds Hfields Ht.
  assert (Hnt : Type_ typ <> TypeTuple) by (rewrite Ht; discriminate).
  unfold udtMutations. rewrite (marker_of_non_tuple typ Hnt).
  destruct (UDTIsReset (GetUDTChange c col)).
  - rewrite (append_non_tuple _ _ typ Hnt). simpl. intros [= <-].
    constructor; [count_markers|constructor].
  - destruct (udtElements (ChangeColumns c) col) as [elements|p] eqn:Eel;
      simpl; [|discriminate].
    pose proof (udtElements_plain _ _ _ Hfields Eel) as Hplain.
    match goal with
    | |- obind ?evs _ = _ -> _ => destruct evs as [evs0|p]
    end; simpl; [|discriminate].
    destruct (removeFields evs0 (RemovedFields (GetUDTChange c col)))
      as [evs|p]; simpl; [|discriminate].
    match goal with
    | |- obind ?per _ = _ -> _ => destruct per as [perField|p] eqn:Eper
    end; simpl; [|discriminate].
    intros [= <-]. apply Forall_concat.
    apply (omap_Forall_in _ _ _ _ Eper). intros [el v] ys Hin.
    assert (Hel : plain el).
    { apply elem_of_zip_l in Hin. rewrite Forall_forall in Hplain. auto. }
    destruct (isUnset v); [intros [= <-]; constructor|].
    destruct (nonNil v).
    + rewrite (append_non_tuple _ _ typ Hnt). simpl. intros [= <-].
      constructor; [count_markers|constructor].
    + simpl. intros [= <-]. constructor; [count_markers|constructor].
Qed.

(** A type that is no tuple is written as a whole or is a non-frozen
    list, set, map or UDT. *)
Lemma columnMutations_wellBound r c timestamp keys conds col es :
  plain (tableName r) -> plain col -> holes conds = length keys ->
  plainFields c ->
  (forall typ, columnTypes r !! col = Some typ -> Type_ typ <> TypeTuple) ->
  columnMutations r c timestamp keys conds col = Done es -> Forall wellBound es.
Proof.
  intros HT Hcol Hconds Hfields Hnt. unfold columnMutations, typeOfColumn.
  destruct (columnTypes r !! col) as [typ|] eqn:Htyp; simpl; [|discriminate].
  specialize (Hnt typ eq_refl).
  destruct (negb (negb (IsFrozen typ) && IsCollection (Type_ typ))).
  - apply wellBound_scalarMutations; assumption.
  - repeat case_decide.
    + apply wellBound_listMutations; assumption.
    + intros [= <-]. apply wellBound_setOrMapMutations; assumption.
    + apply wellBound_udtMutations; assumption.
    + intros [= <-]. constructor.
Qed.

Lemma insertOrUpdateEntries_wellBound r timestamp isInsert c keys others entries :
  plain (tableName r) -> Forall plain (keys ++ others) ->
  tupleFree r (keys ++ others) -> plainFields c ->
  insertOrUpdateEntries r timestamp isInsert c keys others = Done entries ->
  Forall wellBound entries.
Proof.
  intros HT Hplain Hfree Hfields.
  apply Forall_app in Hplain. destruct Hplain as [Pk Po].
  unfold tupleFree in Hfree. apply Forall_app in Hfree. destruct Hfree as [Fk Fo].
  unfold insertOrUpdateEntries.
  destruct (if isInsert then insertMarker r c keys else Done [])
    as [marker|p] eqn:Emarker; simpl; [|discriminate].
  destruct (makeBindMarkerAssignments r keys " AND ") as [conds|p] eqn:Econds;
    simpl; [|discriminate].
  pose proof (holes_keyConditions _ _ _ Pk Fk Econds) as Hconds.
  destruct (omap (columnMutations r c timestamp keys conds) others)
    as [perColumn|p] eqn:Eper; simpl; [|discriminate].
  intros [= <-]. apply Forall_app. split.
  - destruct isInsert; [|injection Emarker as <-; constructor].
    rewrite insertMarker_eq in Emarker.
    destruct (keyMarkers r keys) as [markers|p] eqn:Emarkers;
      simpl in Emarker; [|discriminate Emarker].
    injection Emarker as <-. constructor; [|constructor].
    pose proof (holes_keyMarkers _ _ _ Fk Emarkers) as Hm.
    pose proof (plain_Join ", " keys eq_refl Pk) as Hj.
    unfold rowMarker, keyValue. count_markers.
  - apply Forall_concat. apply (omap_Forall_in _ _ _ _ Eper).
    intros col es Hin. rewrite Forall_forall in Po, Fo.
    apply columnMutations_wellBound;
      [exact HT|apply Po; exact Hin|exact Hconds|exact Hfields|apply Fo; exact Hin].
Qed.

(** In the batch of an insert or an update on a table without tuple
    columns, whose table, column and field names hold no [?], every
    statement has as many bind markers as it is given values; when building
    the statements panics, nothing is sent. *)
Theorem batch_binds_every_marker r w timestamp isInsert c :
  replicator_ok (arrays w) r ->
  let keys := pkNames (arrays w) r ++ ckNames (arrays w) r in
  let others := otherNames (arrays w) r in
  let w' := mkWorld (keyColumnsHeap (arrays w) r) (destination w) in
  plain (tableName r) -> Forall plain (keys ++ others) ->
  tupleFree r (keys ++ others) -> plainFields c ->
  match insertOrUpdateEntries r timestamp isInsert c keys others with
  | Done entries =>
      Forall wellBound entries
      /\ processInsertOrUpdate r timestamp isInsert c w
         = Exec (ReqBatch (mkBatch UnloggedBatch entries (consistency r) timestamp)) w'
  | Panicked p => processInsertOrUpdate r timestamp isInsert c w = (Panicked p, w')
  end.
Proof.
  intros Hw keys others w' HT Hplain Hfree Hfields.
  rewrite processInsertOrUpdate_run by exact Hw. fold keys others w'.
  destruct (insertOrUpdateEntries r timestamp isInsert c keys others)
    as [entries|p] eqn:E; [|reflexivity].
  split; [|reflexivity].
  eapply insertOrUpdateEntries_wellBound; eassumption.
Qed.

(** ** Consume: what the requests carry *)

Lemma sendsStamped_quiet r ts n {A : Type} (step : Go A) :
  heapOnly (fun _ => True) step -> sendsStamped r ts n step.
Proof.
  intros H w. destruct (H w) as [Hd _]. exists []. rewrite Hd, app_nil_r.
  split; [reflexivity|]. split; [constructor|simpl; lia].
Qed.

Lemma sendsStamped_ret r ts n {A : Type} (a : A) : sendsStamped r ts n (ret a).
Proof. apply sendsStamped_quiet, heapOnly_ret. exact I. Qed.

Lemma sendsStamped_raise r ts n {A : Type} p : sendsStamped r ts n (@raise A p).
Proof. apply sendsStamped_quiet, heapOnly_raise. Qed.

Lemma sendsStamped_Exec r ts n q :
  stamped r ts q -> sendsStamped r ts (S n) (Exec q).
Proof.
  intros Hq w. exists [q]. split; [reflexivity|].
  split; [constructor; [exact Hq|constructor]|simpl; lia].
Qed.

Lemma sendsStamped_bind r ts n m {A B : Type} (c : Go A) (k : A -> Go B) :
  sendsStamped r ts n c -> (forall a, sendsStamped r ts m (k a)) ->
  sendsStamped r ts (n + m) (bind c k).
Proof.
  intros Hc Hk w. unfold bind. destruct (Hc w) as (t1 & H1 & F1 & L1).
  destruct (c w) as [[a|p] w1]; simpl in *.
  - destruct (Hk a w1) as (t2 & H2 & F2 & L2). exists (t1 ++ t2).
    rewrite H2, H1, <- app_assoc. split; [reflexivity|].
    split; [apply Forall_app; split; assumption|rewrite length_app; lia].
  - exists t1. split; [exact H1|]. split; [exact F1|lia].
Qed.

Lemma sendsStamped_processInsertOrUpdate r ts isInsert c :
  sendsStamped r ts 1 (processInsertOrUpdate r ts isInsert c).
Proof.
  unfold processInsertOrUpdate.
  apply (sendsStamped_bind r ts 0 1);
    [apply sendsStamped_quiet, heapOnly_goAppendSlice|]. intros keyColumns.
  apply (sendsStamped_bind r ts 0 1); [apply sendsStamped_quiet, heapOnly_goView|].
  intros keyNames.
  apply (sendsStamped_bind r ts 0 1); [apply sendsStamped_quiet, heapOnly_goView|].
  intros others.
  apply (sendsStamped_bind r ts 0 1); [apply sendsStamped_quiet, heapOnly_lift|].
  intros entries. apply sendsStamped_Exec. simpl. auto.
Qed.

Lemma sendsStamped_processRowDelete r ts c :
  sendsStamped r ts 1 (processRowDelete r ts c).
Proof.
  unfold processRowDelete.
  apply (sendsStamped_bind r ts 0 1); [apply sendsStamped_quiet, heapOnly_goView|].
  intros pks.
  apply (sendsStamped_bind r ts 0 1); [apply sendsStamped_quiet, heapOnly_goView|].
  intros cks. apply sendsStamped_Exec. simpl. auto.
Qed.

Lemma sendsStamped_processPartitionDelete r ts c :
  sendsStamped r ts 1 (processPartitionDelete r ts c).
Proof.
  unfold processPartitionDelete.
  apply (sendsStamped_bind r ts 0 1); [apply sendsStamped_quiet, heapOnly_goView|].
  intros pks. apply sendsStamped_Exec. simpl. auto.
Qed.

Lemma sendsStamped_processRangeDelete r ts start end_ :
  sendsStamped r ts 1 (processRangeDelete r ts start end_).
Proof.
  unfold processRangeDelete.
  apply (sendsStamped_bind r ts 0 1); [apply sendsStamped_quiet, heapOnly_goView|].
  intros pks.
  apply (sendsStamped_bind r ts 0 1); [apply sendsStamped_quiet, heapOnly_goView|].
  intros cks. destruct (resolveRange start end_ pks cks) as [queryIdx vals].
  case_decide; [|apply sendsStamped_raise].
  destruct (rangeDeleteQueryStrs r !! Z.to_nat queryIdx);
    [apply sendsStamped_Exec; simpl; auto|apply sendsStamped_raise].
Qed.

Lemma sendsStamped_Consume_loop r ts delta budget : forall pos,
  sendsStamped r ts budget (Consume_loop budget r ts delta pos).
Proof.
  induction budget as [|budget IH]; intros pos; simpl.
  - case_decide; [apply sendsStamped_raise|apply sendsStamped_ret].
  - destruct (delta !! pos) as [change|]; [|apply sendsStamped_ret].
    assert (Hcont : forall step pos',
               sendsStamped r ts 1 step ->
               sendsStamped r ts (S budget)
                 (do err <- step ;;
                  match err with
                  | Some e => ret (Some e)
                  | None => Consume_loop budget r ts delta pos'
                  end)).
    { intros step pos' Hstep. apply (sendsStamped_bind r ts 1 budget); [exact Hstep|].
      intros [e|]; [apply sendsStamped_ret|apply IH]. }
    repeat case_decide.
    + apply Hcont, sendsStamped_processInsertOrUpdate.
    + apply Hcont, sendsStamped_processInsertOrUpdate.
    + apply Hcont, sendsStamped_processRowDelete.
    + apply Hcont, sendsStamped_processPartitionDelete.
    + destruct (delta !! (pos + 1)) as [end_|]; [|apply sendsStamped_raise].
      apply Hcont, sendsStamped_processRangeDelete.
    + apply sendsStamped_raise.
Qed.

(** Whatever the events, [Consume] sends the session nothing but idempotent
    queries and unlogged batches, each with the translator's consistency and
    the timestamp of the change, and at most one for each event of the
    change; it never asks for metadata and never closes the session. *)
Theorem consume_stamps_every_request r c w :
  exists trace,
    history (destination (Consume r c w).2) = history (destination w) ++ trace
    /\ Forall (stamped r (GetCassandraTimestamp c)) trace
    /\ length trace <= length (Delta c)
    /\ metadataAnswer (destination (Consume r c w).2) = metadataAnswer (destination w)
    /\ execAnswer (destination (Consume r c w).2) = execAnswer (destination w).
Proof.
  destruct (sendsStamped_Consume_loop r (GetCassandraTimestamp c) (Delta c)
              (length (Delta c)) 0 w) as (trace & Hh & Hf & Hl).
  fold (Consume r c) in Hh. exists trace.
  split; [exact Hh|]. split; [exact Hf|]. split; [exact Hl|].
  pose proof (Consume_loop_orderly r (GetCassandraTimestamp c) (Delta c)
                (length (Delta c)) 0 w) as Ho.
  cbv zeta in Ho. fold (Consume r c) in Ho.
  assert (Hsends : forall qs s,
            metadataAnswer (sends s qs) = metadataAnswer s
            /\ execAnswer (sends s qs) = execAnswer s).
  { clear. induction qs as [|q qs IH]; intros s; [auto|].
    rewrite sends_cons. destruct (IH (send q s)) as [H1 H2].
    rewrite H1, H2. auto. }
  destruct (Consume r c w).1 as [[e|]|p]; simpl in Ho.
  - destruct Ho as (qs & q & -> & _). simpl. apply Hsends.
  - destruct Ho as (qs & -> & _). apply Hsends.
  - destruct Ho as (qs & -> & _). apply Hsends.
Qed.

(** ** Consumer construction: the table that is there *)

Lemma cut_Some c s before after :
  cut c s = Some (before, after) ->
  s = before +:+ String c after /\ contains_char c before = false.
Proof.
  revert before. induction s as [|a s IH]; intros before; simpl; [discriminate|].
  destruct (Ascii.eqb a c) eqn:Ha.
  - intros [= <- <-]. apply Ascii.eqb_eq in Ha. subst a. auto.
  - destruct (cut c s) as [[b0 a0]|]; [|discriminate].
    intros [= <- <-]. destruct (IH b0 eq_refl) as [-> Hb].
    split; [reflexivity|]. simpl. rewrite Ha. exact Hb.
Qed.

(** For a name [keyspace.table] (split at its first dot) whose table the
    session's metadata lists with a descriptor for every ordered column,
    [CreateChangeConsumer] asks for the keyspace once, leaves the session
    open and returns the translator of that table with the factory's
    consistency; the translator's table name is put together from the
    metadata. *)
Theorem consumer_construction_succeeds rf input w keyspace table kmeta tmeta :
  heap_ok (arrays w) ->
  cut "."%char (TableName input) = Some (keyspace, table) ->
  metadataAnswer (destination w) (history (destination w)) keyspace = inr kmeta ->
  Tables kmeta !! table = Some tmeta ->
  described tmeta (OrderedColumns tmeta) ->
  TableName input = keyspace +:+ "." +:+ table
  /\ contains_char "."%char keyspace = false
  /\ exists pk ck other all w',
       let r := translatorOf tmeta (factoryConsistency rf) pk ck other all in
       CreateChangeConsumer rf input w = (Done (inl r), w')
       /\ history (destination w')
          = history (destination w) ++ [ReqKeyspaceMetadata keyspace]
       /\ replicator_ok (arrays w') r
       /\ tableName r = Keyspace tmeta +:+ "." +:+ Name tmeta
       /\ consistency r = factoryConsistency rf
       /\ pkNames (arrays w') r
          = namesWhere tmeta isPartitionKey (OrderedColumns tmeta)
       /\ ckNames (arrays w') r
          = namesWhere tmeta isClusteringKey (OrderedColumns tmeta)
       /\ otherNames (arrays w') r
          = namesWhere tmeta isOtherKind (OrderedColumns tmeta).
Proof.
  intros Hok Hcut Hmeta Htable Hdesc.
  destruct (cut_Some _ _ _ _ Hcut) as [Hname Hks].
  split; [exact Hname|]. split; [exact Hks|].
  rewrite CreateChangeConsumer_run, Hcut. cbv zeta. rewrite Hmeta, Htable.
  destruct (NewDeltaReplicator_run kmeta tmeta (factoryConsistency rf)
              (mkWorld (arrays w) (send (ReqKeyspaceMetadata keyspace) (destination w)))
              Hok Hdesc)
    as (pk & ck & other & all & w' & E & Hd & Hr & Ep & Ec & Eo & _).
  exists pk, ck, other, all, w'. split; [exact E|].
  split; [rewrite Hd; reflexivity|]. split; [exact Hr|].
  split; [reflexivity|]. split; [reflexivity|].
  split; [exact Ep|]. split; [exact Ec|exact Eo].
Qed.

(** ** UDT columns ([processInsertOrUpdate]) *)

Lemma removeFields_in_range removed : forall evs,
  Forall (fun idx => (0 <= idx < Z.of_nat (length evs))%Z) removed ->
  removeFields evs removed
  = Done (imap (fun i v => if decide (Z.of_nat i ∈ removed) then Nil else v) evs).
Proof.
  induction removed as [|idx removed IH]; intros evs Hr.
  - simpl. f_equal. apply list_eq. intros i. rewrite list_lookup_imap.
    destruct (evs !! i); reflexivity.
  - apply Forall_cons in Hr. destruct Hr as [Hidx Hr]. simpl.
    rewrite decide_True by exact Hidx. rewrite IH.
    2: { rewrite length_insert. exact Hr. }
    f_equal. apply list_eq. intros i. rewrite !list_lookup_imap.
    destruct (decide (i = Z.to_nat idx)) as [->|Hne].
    + rewrite list_lookup_insert_eq by lia.
      destruct (lookup_lt_is_Some_2 evs (Z.to_nat idx) ltac:(lia)) as [v Hv].
      rewrite Hv. simpl.
      rewrite (decide_True (P := Z.of_nat (Z.to_nat idx) ∈ idx :: removed)).
      2: { rewrite Z2Nat.id by lia. left. }
      destruct (decide (Z.of_nat (Z.to_nat idx) ∈ removed)); reflexivity.
    + rewrite list_lookup_insert_ne by congruence.
      destruct (evs !! i) as [v|]; simpl; [|reflexivity].
      destruct (decide (Z.of_nat i ∈ removed)) as [Hin|Hnin].
      * rewrite decide_True by (right; exact Hin). reflexivity.
      * rewrite decide_False; [reflexivity|].
        intros Hin. apply elem_of_cons in Hin. destruct Hin as [Heq|Hin]; [|auto].
        apply Hne. rewrite <- Heq. rewrite Nat2Z.id. reflexivity.
Qed.

Lemma removeFields_out_of_range evs idx rest :
  ~ (0 <= idx < Z.of_nat (length evs))%Z ->
  removeFields evs (idx :: rest)
  = Panicked (IndexOutOfRange InElementValues idx (length evs)).
Proof. intros H. simpl. rewrite decide_False by exact H. reflexivity. Qed.

Lemma udtElements_absent colInfos col :
  Forall (fun colInfo => ColumnName colInfo <> col) colInfos ->
  udtElements colInfos col = Done [].
Proof.
  induction 1 as [|colInfo colInfos Hne _ IH]; simpl; [reflexivity|].
  rewrite decide_False by exact Hne. exact IH.
Qed.

Lemma omap_first_panic {A B : Type} (f : A -> outcome B) p l :
  Exists (fun x => f x = Panicked p) l ->
  Forall (fun x => f x = Panicked p \/ exists y, f x = Done y) l ->
  omap f l = Panicked p.
Proof.
  induction l as [|x l IH]; intros He Hf; [inversion He|].
  apply Forall_cons in Hf. destruct Hf as [Hx Hf]. simpl.
  destruct Hx as [Hx|[y Hx]]; rewrite Hx; simpl; [reflexivity|].
  rewrite IH; [reflexivity| |exact Hf].
  apply Exists_cons in He. destruct He as [He|He]; [congruence|exact He].
Qed.

Lemma columnMutations_udt r c timestamp keys conds col typ :
  columnTypes r !! col = Some typ ->
  IsFrozen typ = false ->
  Type_ typ = TypeUDT ->
  columnMutations r c timestamp keys conds col
  = udtMutations r c keys conds col typ.
Proof.
  intros Htyp Hf Ht. unfold columnMutations, typeOfColumn. rewrite Htyp. simpl.
  rewrite Hf, Ht. reflexivity.
Qed.

(** A non-frozen UDT column. A reset writes the whole value. Otherwise the
    fields are taken in the order the row declares them: a field whose
    index is listed as removed is set to null, also when the change adds
    it; any other field is set when the change adds a value for it that is
    no nil pointer, and is left alone when it does not. A column the row
    does not describe gets no statement, whatever the change adds. An
    index of a removed field beyond the declared fields, and an added value
    that is no pointer, slice or map, make the call panic. *)
Theorem udt_column_statements r c timestamp keys conds col typ :
  columnTypes r !! col = Some typ ->
  IsFrozen typ = false ->
  Type_ typ = TypeUDT ->
  let change := GetUDTChange c col in
  (UDTIsReset change = true ->
   columnMutations r c timestamp keys conds col
   = Done [overwriteColumn r c keys conds col (fieldsValue (AddedFields change))])
  /\ (UDTIsReset change = false ->
      forall elements,
        udtElements (ChangeColumns c) col = Done elements ->
        Forall (fun el => nillable (lookupField (AddedFields change) el)) elements ->
        (Forall (fun idx => (0 <= idx < Z.of_nat (length elements))%Z)
           (RemovedFields change) ->
         columnMutations r c timestamp keys conds col
         = Done (concat (imap (fieldStatements r c keys conds col change) elements)))
        /\ (forall idx rest,
              RemovedFields change = idx :: rest ->
              ~ (0 <= idx < Z.of_nat (length elements))%Z ->
              columnMutations r c timestamp keys conds col
              = Panicked (IndexOutOfRange InElementValues idx (length elements))))
  /\ (UDTIsReset change = false ->
      forall elements,
        udtElements (ChangeColumns c) col = Done elements ->
        Exists (fun el => ~ nillable (lookupField (AddedFields change) el)) elements ->
        columnMutations r c timestamp keys conds col = Panicked ReflectWrongKind)
  /\ (UDTIsReset change = false ->
      Forall (fun colInfo => ColumnName colInfo <> col) (ChangeColumns c) ->
      RemovedFields change = [] ->
      columnMutations r c timestamp keys conds col = Done []).
Proof.
  intros Htyp Hf Ht change.
  assert (Hnt : Type_ typ <> TypeTuple) by (rewrite Ht; discriminate).
  rewrite (columnMutations_udt _ _ _ _ _ _ _ Htyp Hf Ht).
  unfold udtMutations. fold change.
  rewrite (marker_of_non_tuple typ Hnt).
  assert (Hadded : forall elements,
            Forall (fun el => nillable (lookupField (AddedFields change) el)) elements ->
            omap (fun el =>
                    if nonNil (lookupField (AddedFields change) el) then
                      check isNil <- reflect_IsNil (lookupField (AddedFields change) el) ;;
                      Done (if isNil : bool then UnsetValue
                            else lookupField (AddedFields change) el)
                    else Done UnsetValue) elements
            = Done (map (fun el =>
                           if isNilValue (lookupField (AddedFields change) el)
                           then UnsetValue
                           else lookupField (AddedFields change) el) elements)).
  { intros elements Hn. apply omap_Done_map. intros el Hel.
    rewrite Forall_forall in Hn. specialize (Hn el Hel).
    destruct (lookupField (AddedFields change) el) as [| |z|s|[t|]|[l|]|[l|]|[m|]];
      simpl in *; try contradiction; reflexivity. }
  split; [|split; [|split]].
  - intros ->. rewrite (append_non_tuple _ _ typ Hnt). reflexivity.
  - intros -> elements Hel Hn. rewrite Hel. simpl. rewrite (Hadded _ Hn). simpl.
    split.
    + intros Hr. rewrite removeFields_in_range by (rewrite length_map; exact Hr).
      simpl.
      rewrite (omap_Done_map _
                 (fun '(el, v) =>
                    if isUnset v then []
                    else if nonNil v then [setField r c keys conds col el v]
                         else [clearField r c keys conds col el])).
      2: { intros [el v] _. destruct (isUnset v); [reflexivity|].
           destruct (nonNil v); [|reflexivity].
           rewrite (append_non_tuple _ _ typ Hnt). reflexivity. }
      simpl. do 2 f_equal. apply list_eq. intros i.
      rewrite list_lookup_fmap, list_lookup_imap, lookup_zip_with.
      rewrite list_lookup_imap, list_lookup_fmap.
      destruct (elements !! i) as [el|] eqn:Hi; simpl; [|reflexivity].
      f_equal. unfold fieldStatements. fold change.
      destruct (decide (Z.of_nat i ∈ RemovedFields change)); [reflexivity|].
      rewrite Forall_forall in Hn.
      specialize (Hn el (list_elem_of_lookup_2 _ _ _ Hi)).
      destruct (lookupField (AddedFields change) el) as [| |z|s|[t|]|[l|]|[l|]|[m|]];
        simpl in *; try contradiction; reflexivity.
    + intros idx rest Hrem Hout. rewrite Hrem.
      rewrite removeFields_out_of_range by (rewrite length_map; exact Hout).
      rewrite length_map. reflexivity.
  - intros -> elements Hel Hex. rewrite Hel. simpl.
    rewrite (omap_first_panic _ ReflectWrongKind); [reflexivity| |].
    + eapply Exists_impl; [exact Hex|]. intros el. cbv beta.
      destruct (lookupField (AddedFields change) el) as [| |z|s|t|l|l|m];
        simpl; intros Hnn; try reflexivity; exfalso; apply Hnn; exact I.
    + apply Forall_forall. intros el _. cbv zeta.
      destruct (lookupField (AddedFields change) el) as [| |z|s|t|l|l|m];
        simpl; eauto.
  - intros -> Habs Hrem. rewrite (udtElements_absent _ _ Habs), Hrem. reflexivity.
Qed.

(** ** Tuple columns *)

Lemma Unfrozen_tuple typ :
  Type_ typ = TypeTuple -> exists els, Unfrozen typ = TupleType els.
Proof.
  induction typ as [name|e _|e _|k _ v _|name fields|els|inner IH]; simpl;
    try discriminate.
  - intros _. exists els. reflexivity.
  - exact IH.
Qed.

Lemma holes_tuple_marker typ els :
  Type_ typ = TypeTuple -> Unfrozen typ = TupleType els ->
  holes (makeBindMarkerForType typ) = length els.
Proof.
  intros Ht Hu. unfold makeBindMarkerForType.
  rewrite decide_False by (rewrite Ht; auto). rewrite Hu.
  rewrite !holes_app, (holes_Join 1); [|reflexivity|].
  - rewrite length_replicate. simpl. lia.
  - apply Forall_replicate. reflexivity.
Qed.

Lemma holes_Join_sum sep l :
  plain sep -> holes (Join l sep) = sum_list (holes <$> l).
Proof.
  intros Hsep. induction l as [|x l IH]; [reflexivity|].
  destruct l as [|y l].
  - simpl. lia.
  - change (Join (x :: y :: l) sep) with (x +:+ sep +:+ Join (y :: l) sep).
    rewrite !holes_app, IH, Hsep. reflexivity.
Qed.

Lemma sum_ones (l : list string) :
  Forall (fun s => holes s = 1) l -> sum_list (holes <$> l) = length l.
Proof.
  induction 1 as [|x l Hx _ IH]; [reflexivity|].
  rewrite fmap_cons. change (holes x + sum_list (holes <$> l) = S (length l)).
  rewrite Hx, IH. reflexivity.
Qed.

Lemma assignments_one_marker r keys assignments :
  Forall plain keys -> tupleFree r keys ->
  makeBindMarkerAssignmentList r keys = Done assignments ->
  Forall (fun s => holes s = 1) assignments /\ length assignments = length keys.
Proof.
  intros Hplain Hfree E. unfold makeBindMarkerAssignmentList in E.
  split; [|exact (omap_length _ _ _ E)].
  apply (omap_Forall_in _ _ _ _ E). intros name y Hin.
  unfold typeOfColumn. destruct (columnTypes r !! name) as [typ|] eqn:Htyp;
    simpl; [|discriminate].
  intros [= <-]. unfold tupleFree in Hfree. rewrite Forall_forall in Hplain, Hfree.
  rewrite (marker_of_non_tuple typ) by (apply (Hfree name Hin); exact Htyp).
  rewrite !holes_app, (Hplain name Hin). reflexivity.
Qed.

(** A tuple column. Its marker has one [?] for each element type. A regular
    tuple column is written as a whole: the elements of the value, which
    must be a [[]interface{}], are bound one by one, so that markers and
    values agree exactly when the value has as many elements as the type.
    A tuple among the key columns gets its markers in the key conditions
    but one bound value, whatever the number of its elements. *)
Theorem tuple_column_markers_and_values r c timestamp keys conds col typ :
  columnTypes r !! col = Some typ ->
  Type_ typ = TypeTuple ->
  plain (tableName r) -> Forall plain (col :: keys) ->
  exists els,
    Unfrozen typ = TupleType els
    /\ holes (makeBindMarkerForType typ) = length els
    /\ (let change := GetScalarChange c col in
        holes conds = length keys ->
        (IsDeleted change = true ->
         columnMutations r c timestamp keys conds col
         = Done [deleteColumn r c keys conds col])
        /\ (IsDeleted change = false -> Value change = Nil ->
            columnMutations r c timestamp keys conds col = Done [])
        /\ (IsDeleted change = false ->
            forall vs,
              Value change = Interfaces vs ->
              exists e,
                columnMutations r c timestamp keys conds col = Done [e]
                /\ Args e = [Int (GetTTL c)] ++ default [] vs ++ map (keyValue c) keys
                /\ holes (Stmt e) = 1 + length els + length keys
                /\ (wellBound e <-> length (default [] vs) = length els))
        /\ (IsDeleted change = false ->
            Value change <> Nil -> (forall vs, Value change <> Interfaces vs) ->
            columnMutations r c timestamp keys conds col
            = Panicked TypeAssertionFailed))
    /\ (forall ks1 ks2 conds',
          keys = ks1 ++ col :: ks2 ->
          tupleFree r (ks1 ++ ks2) ->
          makeBindMarkerAssignments r keys " AND " = Done conds' ->
          holes conds' = length ks1 + length els + length ks2
          /\ length (appendKeyValuesToBind [] keys c) = length ks1 + 1 + length ks2).
Proof.
  intros Htyp Ht HT Hplain.
  apply Forall_cons in Hplain. destruct Hplain as [Hcol Hkeys].
  destruct (Unfrozen_tuple typ Ht) as [els Hu]. exists els.
  pose proof (holes_tuple_marker typ els Ht Hu) as Hmarker.
  split; [exact Hu|]. split; [exact Hmarker|]. split.
  - cbv zeta. intros Hconds.
    assert (Hrun : columnMutations r c timestamp keys conds col
                   = scalarMutations r c keys conds col typ).
    { unfold columnMutations, typeOfColumn. rewrite Htyp. simpl. rewrite Ht.
      simpl. rewrite andb_false_r. reflexivity. }
    rewrite Hrun. unfold scalarMutations.
    split; [intros ->; reflexivity|].
    split; [intros -> ->; reflexivity|]. split.
    + intros -> vs ->. simpl. unfold appendValueByType.
      rewrite decide_True by exact Ht. simpl. eexists. split; [reflexivity|].
      split; [reflexivity|].
      assert (Hh : holes ("UPDATE " +:+ tableName r +:+ " USING TTL ? SET " +:+ col
                          +:+ " = " +:+ makeBindMarkerForType typ +:+ " WHERE "
                          +:+ conds)
                   = 1 + length els + length keys).
      { rewrite !holes_app, Hmarker, Hconds. unfold plain in HT, Hcol.
        rewrite HT, Hcol. reflexivity. }
      split; [exact Hh|]. unfold wellBound. cbn [Stmt Args]. rewrite Hh.
      unfold appendKeyValuesToBind. rewrite !length_app, length_map. simpl. lia.
    + intros -> Hnn Hni.
      destruct (Value (GetScalarChange c col)) as [| |z|s|t|l|l|m] eqn:Hv;
        simpl; try contradiction; unfold appendValueByType;
        rewrite decide_True by exact Ht; try reflexivity.
      exfalso. apply (Hni l). reflexivity.
  - intros ks1 ks2 conds' -> Hfree. unfold makeBindMarkerAssignments.
    destruct (makeBindMarkerAssignmentList r (ks1 ++ col :: ks2))
      as [assignments|p] eqn:E; simpl; [|discriminate].
    intros [= <-]. unfold makeBindMarkerAssignmentList in E.
    rewrite omap_app in E.
    destruct (omap _ ks1) as [a1|p] eqn:E1; simpl in E; [|discriminate E].
    unfold typeOfColumn in E at 1. rewrite Htyp in E. simpl in E.
    destruct (omap _ ks2) as [a2|p] eqn:E2; simpl in E; [|discriminate E].
    injection E as <-.
    apply Forall_app in Hkeys. destruct Hkeys as [P1 P2].
    apply Forall_cons in P2. destruct P2 as [_ P2].
    unfold tupleFree in Hfree. apply Forall_app in Hfree. destruct Hfree as [F1 F2].
    destruct (assignments_one_marker r ks1 a1 P1 F1 E1) as [O1 L1].
    destruct (assignments_one_marker r ks2 a2 P2 F2 E2) as [O2 L2].
    split.
    + rewrite holes_Join_sum by reflexivity.
      rewrite fmap_app, sum_list_with_app, fmap_cons. simpl.
      rewrite (sum_ones _ O1), (sum_ones _ O2), L1, L2.
      rewrite !holes_app, Hmarker. unfold plain in Hcol. rewrite Hcol. simpl. lia.
    + unfold appendKeyValuesToBind. simpl. rewrite length_map, length_app. simpl. lia.
Qed.

(** ** Consume: changes put together *)

Lemma continue_ext (step rest1 rest2 : Go (option string)) w :
  (forall w1, rest1 w1 = rest2 w1) ->
  (do err <- step ;;
   match err with
   | Some e => ret (Some e)
   | None => rest1
   end) w
  = (do err <- step ;;
     match err with
     | Some e => ret (Some e)
     | None => rest2
     end) w.
Proof.
  intros H. unfold bind. destruct (step w) as [[[e|]|p] w1]; [reflexivity|apply H|reflexivity].
Qed.

(** Turns beyond those the loop needs change nothing. *)
Lemma Consume_loop_enough r ts delta : forall b1 b2 pos w,
  length delta <= pos + b1 -> length delta <= pos + b2 ->
  Consume_loop b1 r ts delta pos w = Consume_loop b2 r ts delta pos w.
Proof.
  induction b1 as [|b1 IH]; intros b2 pos w H1 H2.
  - simpl. rewrite decide_False by lia.
    destruct b2 as [|b2]; simpl; [rewrite decide_False by lia; reflexivity|].
    rewrite (lookup_ge_None_2 delta pos) by lia. reflexivity.
  - destruct b2 as [|b2].
    + simpl. rewrite decide_False by lia.
      rewrite (lookup_ge_None_2 delta pos) by lia. reflexivity.
    + simpl. destruct (delta !! pos) as [change|] eqn:Hpos; [|reflexivity].
      pose proof (lookup_Some_lt _ _ _ Hpos) as Hlt.
      repeat case_decide; try reflexivity;
        try (apply continue_ext; intros w1; apply IH; lia).
      destruct (delta !! (pos + 1)) as [end_|]; [|reflexivity].
      apply continue_ext. intros w1. apply IH; lia.
Qed.

(** The loop on the second part of a sequence none of whose
    RangeDeleteStart events is its last event. *)
Lemma Consume_loop_shift r ts d1 d2 :
  (forall p start, d2 !! p = Some start -> isRangeStart (GetOperation start) ->
                   is_Some (d2 !! (p + 1))) ->
  forall b p w,
    Consume_loop b r ts (d1 ++ d2) (length d1 + p) w = Consume_loop b r ts d2 p w.
Proof.
  intros Hnext.
  induction b as [|b IH]; intros p w; simpl.
  - rewrite length_app.
    destruct (decide (p < length d2)).
    + rewrite decide_True by lia. reflexivity.
    + rewrite decide_False by lia. reflexivity.
  - rewrite lookup_app_r by lia.
    replace (length d1 + p - length d1) with p by lia.
    destruct (d2 !! p) as [change|] eqn:Hp; [|reflexivity].
    replace (length d1 + p + 1) with (length d1 + (p + 1)) by lia.
    replace (length d1 + p + 2) with (length d1 + (p + 2)) by lia.
    repeat case_decide; try reflexivity;
      try (apply continue_ext; intros w1; apply IH).
    rewrite lookup_app_r by lia.
    replace (length d1 + (p + 1) - length d1) with (p + 1) by lia.
    destruct (Hnext p change Hp ltac:(assumption)) as [end_ Hend].
    rewrite Hend. apply continue_ext. intros w1. apply IH.
Qed.

Lemma reaches_le delta p q : reaches delta p q -> p <= q.
Proof. induction 1; lia. Qed.

Lemma continue_then (step rest1 rest2 next : Go (option string)) w :
  (forall w1, rest1 w1
              = match rest2 w1 with
                | (Done None, w2) => next w2
                | other => other
                end) ->
  (do err <- step ;;
   match err with
   | Some e => ret (Some e)
   | None => rest1
   end) w
  = match (do err <- step ;;
           match err with
           | Some e => ret (Some e)
           | None => rest2
           end) w with
    | (Done None, w2) => next w2
    | other => other
    end.
Proof.
  intros H. unfold bind. destruct (step w) as [[[e|]|p] w1]; [reflexivity|apply H|reflexivity].
Qed.

(** The loop on the first part of a sequence, when it comes to stand at
    the end of that part. *)
Lemma Consume_loop_prefix r ts d1 d2 p :
  reaches d1 p (length d1) ->
  forall b b1 w,
    length (d1 ++ d2) <= p + b -> length d1 <= p + b1 ->
    Consume_loop b r ts (d1 ++ d2) p w
    = match Consume_loop b1 r ts d1 p w with
      | (Done None, w1) => Consume_loop b r ts (d1 ++ d2) (length d1) w1
      | other => other
      end.
Proof.
  remember (length d1) as n eqn:Hn.
  induction 1 as [p|p q ev Hp Hns Hreach IH|p q ev Hp Hs Hreach IH];
    intros b b1 w Hb Hb1; subst.
  - destruct b1 as [|b1]; simpl.
    + rewrite decide_False by lia. reflexivity.
    + rewrite (lookup_ge_None_2 d1 (length d1)) by lia. reflexivity.
  - pose proof (lookup_Some_lt _ _ _ Hp) as Hlt. rewrite length_app in Hb.
    destruct b as [|b]; [lia|]. destruct b1 as [|b1]; [lia|].
    assert (Hnext : forall w1,
              Consume_loop b r ts (d1 ++ d2) (p + 1) w1
              = match Consume_loop b1 r ts d1 (p + 1) w1 with
                | (Done None, w2) => Consume_loop (S b) r ts (d1 ++ d2) (length d1) w2
                | other => other
                end).
    { intros w1. rewrite (IH eq_refl b b1 w1) by (rewrite ?length_app; lia).
      destruct (Consume_loop b1 r ts d1 (p + 1) w1) as [[[e|]|pn] w2];
        try reflexivity.
      apply Consume_loop_enough; rewrite length_app; lia. }
    cbn [Consume_loop]. rewrite (lookup_app_l d1 d2 p Hlt), Hp.
    unfold isRangeStart in Hns.
    repeat case_decide; try reflexivity; try (apply continue_then; exact Hnext).
    contradiction.
  - pose proof (lookup_Some_lt _ _ _ Hp) as Hlt.
    pose proof (reaches_le _ _ _ Hreach) as Hle. rewrite length_app in Hb.
    destruct b as [|b]; [lia|]. destruct b1 as [|b1]; [lia|].
    assert (Hnext : forall w1,
              Consume_loop b r ts (d1 ++ d2) (p + 2) w1
              = match Consume_loop b1 r ts d1 (p + 2) w1 with
                | (Done None, w2) => Consume_loop (S b) r ts (d1 ++ d2) (length d1) w2
                | other => other
                end).
    { intros w1. rewrite (IH eq_refl b b1 w1) by (rewrite ?length_app; lia).
      destruct (Consume_loop b1 r ts d1 (p + 2) w1) as [[[e|]|pn] w2];
        try reflexivity.
      apply Consume_loop_enough; rewrite length_app; lia. }
    cbn [Consume_loop]. rewrite (lookup_app_l d1 d2 p Hlt), Hp.
    destruct (lookup_lt_is_Some_2 d1 (p + 1) ltac:(lia)) as [end_ Hend].
    rewrite (lookup_app_l d1 d2 (p + 1)) by lia. rewrite Hend.
    unfold isRangeStart in Hs.
    repeat case_decide;
      try (exfalso; destruct Hs as [Hs|Hs]; rewrite Hs in *; discriminate);
      try (apply continue_then; exact Hnext).
    contradiction.
Qed.

(** When every RangeDeleteStart of [d1] is immediately followed by a
    RangeDeleteEnd, or just when the loop of [Consume] on [d1] comes to
    stand at the end of [d1], and no RangeDeleteStart is the last event of
    [d2], consuming the change [d1 ++ d2] is consuming [d1] and, unless
    that ended in an error or a panic, then [d2], at the same timestamp. *)
Theorem consume_composes r ts d1 d2 w :
  paired d1 \/ reaches d1 0 (length d1) ->
  (forall p start, d2 !! p = Some start -> isRangeStart (GetOperation start) ->
                   is_Some (d2 !! (p + 1))) ->
  Consume r (mkChange ts (d1 ++ d2)) w
  = match Consume r (mkChange ts d1) w with
    | (Done None, w1) => Consume r (mkChange ts d2) w1
    | other => other
    end.
Proof.
  intros Hd1 Hd2.
  assert (Hreach : reaches d1 0 (length d1)).
  { destruct Hd1 as [Hpaired|Hr]; [|exact Hr].
    destruct (reaches_or_after_start d1 (length d1) (le_n _))
      as [Hr|(start & Hge & Hst & His & _)]; [exact Hr|].
    destruct (Hpaired _ _ Hst His) as (end_ & Hend & _).
    apply lookup_Some_lt in Hend. lia. }
  unfold Consume. simpl.
  rewrite (Consume_loop_prefix r ts d1 d2 0 Hreach _ (length d1) w)
    by (simpl; lia).
  destruct (Consume_loop (length d1) r ts d1 0 w) as [[[e|]|p] w1];
    try reflexivity.
  transitivity (Consume_loop (length (d1 ++ d2)) r ts (d1 ++ d2) (length d1 + 0) w1);
    [f_equal; lia|].
  rewrite (Consume_loop_shift r ts d1 d2 Hd2).
  apply Consume_loop_enough; rewrite ?length_app; lia.
Qed.

(** ** Deletes on a constructed translator *)

(** What construction leaves, at any later time. *)
Lemma constructed_translator kmeta meta cons w0 r w changes :
  heap_ok (arrays w0) ->
  NewDeltaReplicator kmeta meta cons w0 = (Done (inl r), w) ->
  described meta (OrderedColumns meta)
  /\ (exists pk ck other all, r = translatorOf meta cons pk ck other all)
  /\ replicator_ok (arrays (consumeAll r changes w)) r
  /\ pkNames (arrays (consumeAll r changes w)) r
     = namesWhere meta isPartitionKey (OrderedColumns meta)
  /\ ckNames (arrays (consumeAll r changes w)) r
     = namesWhere meta isClusteringKey (OrderedColumns meta)
  /\ otherNames (arrays (consumeAll r changes w)) r
     = namesWhere meta isOtherKind (OrderedColumns meta).
Proof.
  intros Hok Hrun.
  destruct (described_dec meta (OrderedColumns meta)) as [Hd|Hd].
  2:{ pose proof (NewDeltaReplicator_undescribed kmeta meta cons w0 Hd) as H.
      rewrite Hrun in H. discriminate H. }
  destruct (NewDeltaReplicator_run kmeta meta cons w0 Hok Hd)
    as (pk & ck & other & all & w1 & E & _ & Hr & Ep & Ec & Eo & _).
  rewrite E in Hrun. injection Hrun as <- <-.
  destruct (consumeAll_steady _ changes w1 Hr) as [Hok' Hst].
  unfold translatorState in Hst. injection Hst as Hp Hc Ho _.
  split; [exact Hd|]. split; [exists pk, ck, other, all; reflexivity|].
  split; [exact Hok'|].
  rewrite Hp, Hc, Ho. unfold pkNames, ckNames, otherNames. simpl.
  split; [exact Ep|]. split; [exact Ec|exact Eo].
Qed.

Lemma processRowDelete_run r ts c w :
  processRowDelete r ts c w
  = Exec (ReqQuery (rowDeleteQueryStr r)
            (map (keyValue c) (pkNames (arrays w) r ++ ckNames (arrays w) r))
            (consistency r) true ts) w.
Proof.
  unfold processRowDelete.
  rewrite (bind_Done _ _ _ _ _ (goView_run _ _)).
  rewrite (bind_Done _ _ _ _ _ (goView_run _ _)).
  rewrite !appendKeyValuesToBind_eq, map_app. reflexivity.
Qed.

Lemma processPartitionDelete_run r ts c w :
  processPartitionDelete r ts c w
  = Exec (ReqQuery (partitionDeleteQueryStr r)
            (map (keyValue c) (pkNames (arrays w) r)) (consistency r) true ts) w.
Proof.
  unfold processPartitionDelete.
  rewrite (bind_Done _ _ _ _ _ (goView_run _ _)).
  rewrite !appendKeyValuesToBind_eq. reflexivity.
Qed.

Lemma processRangeDelete_run r ts start end_ w d lb rb queryStr :
  isRangeStart (GetOperation start) -> isRangeEnd (GetOperation end_) ->
  rangeBounds start end_ (ckNames (arrays w) r) d lb rb ->
  rangeDeleteQueryStrs r !! flatIndex d (kindOf lb (startKind (GetOperation start)))
                                        (kindOf rb (endKind (GetOperation end_)))
  = Some queryStr ->
  processRangeDelete r ts start end_ w
  = Exec (ReqQuery queryStr
            (map (keyValue start) (pkNames (arrays w) r)
             ++ map (keyValue start) (take d (ckNames (arrays w) r))
             ++ option_list lb ++ option_list rb)
            (consistency r) true ts) w.
Proof.
  intros Hs He Hb Hq.
  destruct (resolveRange_bounds start end_ (pkNames (arrays w) r) _ d lb rb Hs He Hb)
    as (Hres & _).
  unfold processRangeDelete.
  rewrite (bind_Done _ _ _ _ _ (goView_run _ _)).
  rewrite (bind_Done _ _ _ _ _ (goView_run _ _)).
  fold (pkNames (arrays w) r). fold (ckNames (arrays w) r).
  rewrite Hres. rewrite decide_True by lia. rewrite Nat2Z.id, Hq. reflexivity.
Qed.

(** Without clustering columns the resolver asks for the template of
    index 0, and the table of templates is empty. *)
Lemma processRangeDelete_no_clustering r ts start end_ w :
  ckNames (arrays w) r = [] -> rangeDeleteQueryStrs r = [] ->
  processRangeDelete r ts start end_ w
  = (Panicked (IndexOutOfRange InRangeQueries 0 0), w).
Proof.
  intros Hck Hq. unfold processRangeDelete.
  rewrite (bind_Done _ _ _ _ _ (goView_run _ _)).
  rewrite (bind_Done _ _ _ _ _ (goView_run _ _)).
  fold (ckNames (arrays w) r). rewrite Hck, Hq. reflexivity.
Qed.

(** The delete requests of a translator [NewDeltaReplicator] has
    built, at any later time. A row delete is [DELETE FROM T WHERE] with
    the assignments of the partition-key and clustering-key columns, bound
    to the row's values of those columns in that order; a partition delete
    is the same over the partition key alone; a range delete whose first
    clustering column is bound on some side is the template of the bounds
    the scan finds, bound to the partition-key values, the clustering
    values below the depth and the bounds present. A key column the row has
    no value for is bound to the unset value. On a table without clustering
    columns a range delete panics on the empty table of templates. *)
Theorem constructed_translator_deletes kmeta meta cons w0 r w changes ts :
  heap_ok (arrays w0) ->
  NewDeltaReplicator kmeta meta cons w0 = (Done (inl r), w) ->
  let pks := namesWhere meta isPartitionKey (OrderedColumns meta) in
  let cks := namesWhere meta isClusteringKey (OrderedColumns meta) in
  let T := Keyspace meta +:+ "." +:+ Name meta in
  let w' := consumeAll r changes w in
  (forall c,
     processRowDelete r ts c w'
     = Exec (ReqQuery ("DELETE FROM " +:+ T +:+ " WHERE "
                       +:+ Join (map (assignmentOf meta) (pks ++ cks)) " AND ")
               (map (keyValue c) (pks ++ cks)) cons true ts) w')
  /\ (forall c,
        processPartitionDelete r ts c w'
        = Exec (ReqQuery ("DELETE FROM " +:+ T +:+ " WHERE "
                          +:+ Join (map (assignmentOf meta) pks) " AND ")
                  (map (keyValue c) pks) cons true ts) w')
  /\ (forall start end_ c0 rest,
        isRangeStart (GetOperation start) -> isRangeEnd (GetOperation end_) ->
        cks = c0 :: rest ->
        is_Some (GetValue start c0) \/ is_Some (GetValue end_ c0) ->
        exists d lb rb,
          rangeBounds start end_ cks d lb rb
          /\ processRangeDelete r ts start end_ w'
             = Exec (ReqQuery
                       (rangeTemplate T (map (assignmentOf meta) pks) cks d
                          (kindOf lb (startKind (GetOperation start)))
                          (kindOf rb (endKind (GetOperation end_))))
                       (map (keyValue start) pks ++ map (keyValue start) (take d cks)
                        ++ option_list lb ++ option_list rb)
                       cons true ts) w')
  /\ (cks = [] ->
      forall start end_,
        processRangeDelete r ts start end_ w'
        = (Panicked (IndexOutOfRange InRangeQueries 0 0), w')).
Proof.
  intros Hok Hrun. cbv zeta.
  destruct (constructed_translator kmeta meta cons w0 r w changes Hok Hrun)
    as (Hd & (pk & ck & other & all & ->) & Hr & Hp & Hc & Ho).
  split; [|split; [|split]].
  - intros c. rewrite processRowDelete_run, Hp, Hc. reflexivity.
  - intros c. rewrite processPartitionDelete_run, Hp. reflexivity.
  - intros start end_ c0 rest Hs He Hcks Hsome.
    destruct (rangeBounds_total start end_ c0 rest Hsome) as (d & lb & rb & Hb).
    rewrite <- Hcks in Hb. exists d, lb, rb. split; [exact Hb|].
    assert (Hb' := Hb). rewrite <- Hc in Hb'.
    destruct (resolveRange_bounds start end_ [] _ d lb rb Hs He Hb)
      as (_ & _ & Hlt & Hpair).
    rewrite (processRangeDelete_run _ ts start end_ _ d lb rb
               (rangeTemplate (Keyspace meta +:+ "." +:+ Name meta)
                  (map (assignmentOf meta)
                     (namesWhere meta isPartitionKey (OrderedColumns meta)))
                  (namesWhere meta isClusteringKey (OrderedColumns meta)) d
                  (kindOf lb (startKind (GetOperation start)))
                  (kindOf rb (endKind (GetOperation end_)))) Hs He Hb').
    + rewrite Hp, Hc. reflexivity.
    + simpl rangeDeleteQueryStrs. apply tableRows_at; assumption.
  - intros Hcks start end_. apply processRangeDelete_no_clustering.
    + rewrite Hc. exact Hcks.
    + simpl rangeDeleteQueryStrs. rewrite Hcks. reflexivity.
Qed.

Lemma holes_boundCond ck op :
  plain ck -> plain op ->
  sum_list (holes <$> boundCond ck op) = if decide (op = "") then 0 else 1.
Proof.
  intros Hck Hop. unfold boundCond. unfold plain in *.
  destruct (decide (op = "")) as [->|Hne].
  - reflexivity.
  - rewrite decide_True by exact Hne. simpl. rewrite !holes_app, Hck, Hop.
    reflexivity.
Qed.

(** A range-delete template has a marker for each partition-key column,
    for each clustering column below the depth and for each bound. *)
Lemma holes_rangeTemplate T pkConds cks d lb rb sk ek :
  plain T -> Forall (fun s => holes s = 1) pkConds -> Forall plain cks ->
  d < length cks -> sk <= 1 -> ek <= 1 ->
  holes (rangeTemplate T pkConds cks d (kindOf lb sk) (kindOf rb ek))
  = length pkConds + d
    + length (option_list (A := value) lb) + length (option_list (A := value) rb).
Proof.
  intros HT Hpk Hcks Hd Hsk Hek. unfold rangeTemplate. cbv zeta.
  assert (Hck : plain (default "" (cks !! d))).
  { destruct (cks !! d) as [ck|] eqn:E; [|reflexivity].
    rewrite Forall_forall in Hcks. apply Hcks.
    apply (list_elem_of_lookup_2 _ _ _ E). }
  assert (Heq : Forall (fun s => holes s = 1)
                  (map (fun c => c +:+ " = ?") (take d cks))).
  { apply Forall_map. apply Forall_take. eapply Forall_impl; [exact Hcks|].
    intros c Hc. simpl. rewrite holes_app, Hc. reflexivity. }
  rewrite !holes_app, holes_Join_sum by reflexivity.
  rewrite !fmap_app, !sum_list_with_app.
  rewrite (sum_ones pkConds Hpk), (sum_ones _ Heq), length_map, length_take.
  rewrite !holes_boundCond;
    try exact Hck;
    try (destruct lb; simpl; [destruct sk as [|[|]]; [reflexivity|reflexivity|lia]
                             |reflexivity]);
    try (destruct rb; simpl; [destruct ek as [|[|]]; [reflexivity|reflexivity|lia]
                             |reflexivity]).
  unfold plain in HT. rewrite HT.
  destruct lb, rb; simpl kindOf; simpl option_list; simpl length;
    destruct sk as [|[|]], ek as [|[|]]; try lia; simpl; lia.
Qed.

Lemma assignmentOf_one_marker meta cons pk ck other all names :
  described meta names -> Forall plain names ->
  tupleFree (translatorOf meta cons pk ck other all) names ->
  Forall (fun s => holes s = 1) (map (assignmentOf meta) names).
Proof.
  intros Hd Hplain Hfree.
  apply (assignments_one_marker (translatorOf meta cons pk ck other all) names);
    [exact Hplain|exact Hfree|].
  apply assignments_described; [reflexivity|exact Hd].
Qed.

(** On a table whose keyspace, table and key-column names hold no
    [?] and whose key columns are no tuples, every delete request of a
    constructed translator (row, partition, and range with the first
    clustering column bound on some side) carries a statement with exactly
    as many bind markers as values. *)
Theorem delete_requests_bind_every_marker kmeta meta cons w0 r w changes ts :
  heap_ok (arrays w0) ->
  NewDeltaReplicator kmeta meta cons w0 = (Done (inl r), w) ->
  let pks := namesWhere meta isPartitionKey (OrderedColumns meta) in
  let cks := namesWhere meta isClusteringKey (OrderedColumns meta) in
  plain (Keyspace meta) -> plain (Name meta) ->
  Forall plain (pks ++ cks) -> tupleFree r (pks ++ cks) ->
  let w' := consumeAll r changes w in
  (forall c, exists stmt args,
     processRowDelete r ts c w' = Exec (ReqQuery stmt args cons true ts) w'
     /\ holes stmt = length args)
  /\ (forall c, exists stmt args,
        processPartitionDelete r ts c w' = Exec (ReqQuery stmt args cons true ts) w'
        /\ holes stmt = length args)
  /\ (forall start end_ c0 rest,
        isRangeStart (GetOperation start) -> isRangeEnd (GetOperation end_) ->
        cks = c0 :: rest ->
        is_Some (GetValue start c0) \/ is_Some (GetValue end_ c0) ->
        exists stmt args,
          processRangeDelete r ts start end_ w'
          = Exec (ReqQuery stmt args cons true ts) w'
          /\ holes stmt = length args).
Proof.
  intros Hok Hrun pks cks HK HN Hplain Hfree. cbv zeta.
  destruct (constructed_translator kmeta meta cons w0 r w changes Hok Hrun)
    as (Hd & (pk & ck & other & all & ->) & Hr & Hp & Hc & Ho).
  fold pks in Hp. fold cks in Hc.
  assert (HT : plain (Keyspace meta +:+ "." +:+ Name meta)).
  { unfold plain in HK, HN. unfold plain. rewrite !holes_app, HK, HN. reflexivity. }
  assert (Hdp : described meta pks) by (apply described_namesWhere; exact Hd).
  assert (Hdc : described meta cks) by (apply described_namesWhere; exact Hd).
  apply Forall_app in Hplain as [Pp Pc].
  unfold tupleFree in Hfree. apply Forall_app in Hfree as [Fp Fc].
  pose proof (assignmentOf_one_marker meta cons pk ck other all pks Hdp Pp Fp) as Mp.
  pose proof (assignmentOf_one_marker meta cons pk ck other all cks Hdc Pc Fc) as Mc.
  unfold plain in HK, HN.
  split; [|split].
  - intros c. eexists _, _. rewrite processRowDelete_run, Hp, Hc.
    split; [reflexivity|]. simpl rowDeleteQueryStr. fold pks cks.
    rewrite !holes_app, HK, HN, (holes_Join 1), !length_map; [simpl; lia|reflexivity|].
    rewrite map_app. apply Forall_app. split; assumption.
  - intros c. eexists _, _. rewrite processPartitionDelete_run, Hp.
    split; [reflexivity|]. simpl partitionDeleteQueryStr. fold pks.
    rewrite !holes_app, HK, HN, (holes_Join 1), !length_map; [simpl; lia|reflexivity|].
    exact Mp.
  - intros start end_ c0 rest Hs He Hcks Hsome.
    destruct (rangeBounds_total start end_ c0 rest Hsome) as (d & lb & rb & Hb).
    rewrite <- Hcks in Hb.
    assert (Hb' := Hb). rewrite <- Hc in Hb'.
    destruct (resolveRange_bounds start end_ [] _ d lb rb Hs He Hb)
      as (_ & _ & Hlt & Hpair).
    eexists _, _.
    rewrite (processRangeDelete_run _ ts start end_ _ d lb rb
               (rangeTemplate (Keyspace meta +:+ "." +:+ Name meta)
                  (map (assignmentOf meta) pks) cks d
                  (kindOf lb (startKind (GetOperation start)))
                  (kindOf rb (endKind (GetOperation end_)))) Hs He Hb').
    + split; [reflexivity|].
      pose proof (kind_le_1 (GetOperation start)) as [Hsk _].
      pose proof (kind_le_1 (GetOperation end_)) as [_ Hek].
      rewrite holes_rangeTemplate by assumption.
      rewrite Hp, Hc, !length_app, !length_map, length_take. lia.
    + simpl rangeDeleteQueryStrs. apply tableRows_at; assumption.
Qed.

(** ** Columns without a type *)

Lemma nilSafe_obind {A B : Type} (c : outcome A) (k : A -> outcome B) :
  nilSafe c -> (forall a, nilSafe (k a)) -> nilSafe (obind c k).
Proof. destruct c; simpl; auto. Qed.

Lemma nilSafe_omap {A B : Type} (f : A -> outcome B) l :
  Forall (fun x => nilSafe (f x)) l -> nilSafe (omap f l).
Proof.
  induction 1 as [|x l Hx _ IH]; simpl; [exact I|].
  apply nilSafe_obind; [exact Hx|]. intros y.
  apply nilSafe_obind; [exact IH|]. intros ys. exact I.
Qed.

Lemma nilSafe_omap_all {A B : Type} (f : A -> outcome B) l :
  (forall x, nilSafe (f x)) -> nilSafe (omap f l).
Proof. intros Hf. apply nilSafe_omap, Forall_forall. intros x _. apply Hf. Qed.

Lemma nilSafe_typeOfColumn r name :
  is_Some (columnTypes r !! name) -> nilSafe (typeOfColumn r name).
Proof. intros [typ H]. unfold typeOfColumn. rewrite H. exact I. Qed.

Lemma nilSafe_appendValueByType vals v typ : nilSafe (appendValueByType vals v typ).
Proof.
  unfold appendValueByType. case_decide; [destruct v|]; simpl; try exact I; discriminate.
Qed.

Lemma nilSafe_reflect_IsNil v : nilSafe (reflect_IsNil v).
Proof. destruct v; simpl; try exact I; discriminate. Qed.

Lemma nilSafe_reflect_MapRange v : nilSafe (reflect_MapRange v).
Proof. destruct v; simpl; try exact I; discriminate. Qed.

Lemma nilSafe_reflect_Elements v : nilSafe (reflect_Elements v).
Proof.
  destruct v as [| | | | | | |[[|? ?]|]]; simpl; try exact I; discriminate.
Qed.

Lemma nilSafe_udtElements colInfos colName : nilSafe (udtElements colInfos colName).
Proof.
  induction colInfos as [|colInfo rest IH]; simpl; [exact I|].
  case_decide; [destruct (ColumnTypeInfo colInfo); simpl; [exact I|discriminate]
               |exact IH].
Qed.

Lemma nilSafe_removeFields removed : forall elementValues,
  nilSafe (removeFields elementValues removed).
Proof.
  induction removed as [|idx rest IH]; intros vs; simpl; [exact I|].
  case_decide; [apply IH|simpl; discriminate].
Qed.

Create HintDb nilSafe.
#[local] Hint Resolve nilSafe_appendValueByType nilSafe_reflect_IsNil
  nilSafe_reflect_MapRange nilSafe_reflect_Elements nilSafe_udtElements
  nilSafe_removeFields : nilSafe.

Ltac nilSafe_step :=
  match goal with
  | |- nilSafe (Done _) => exact I
  | |- nilSafe (obind _ _) => apply nilSafe_obind; [|intros ?]
  | |- nilSafe (omap _ _) => apply nilSafe_omap_all; intros ?
  | |- nilSafe (if ?b then _ else _) => destruct b
  | |- nilSafe (match ?x with _ => _ end) => destruct x
  | |- nilSafe _ => solve [auto with nilSafe]
  end.

Lemma nilSafe_assignments r names sep :
  typed r names -> nilSafe (makeBindMarkerAssignments r names sep).
Proof.
  intros Ht. unfold makeBindMarkerAssignments, makeBindMarkerAssignmentList.
  apply nilSafe_obind; [|intros; exact I].
  apply nilSafe_omap. eapply Forall_impl; [exact Ht|]. intros name Hn. simpl.
  apply nilSafe_obind; [apply nilSafe_typeOfColumn; exact Hn|intros; exact I].
Qed.

Lemma nilSafe_insertMarker r c keys :
  typed r keys -> nilSafe (insertMarker r c keys).
Proof.
  intros Ht. unfold insertMarker.
  apply nilSafe_obind; [|intros; exact I].
  apply nilSafe_omap. eapply Forall_impl; [exact Ht|]. intros name Hn. simpl.
  apply nilSafe_obind; [apply nilSafe_typeOfColumn; exact Hn|intros; exact I].
Qed.

Lemma nilSafe_columnMutations r c timestamp keys conds col :
  is_Some (columnTypes r !! col) ->
  nilSafe (columnMutations r c timestamp keys conds col).
Proof.
  intros Ht. unfold columnMutations.
  apply nilSafe_obind; [apply nilSafe_typeOfColumn; exact Ht|]. intros typ.
  unfold scalarMutations, listMutations, udtMutations.
  repeat nilSafe_step.
Qed.

Lemma nilSafe_insertOrUpdateEntries r timestamp isInsert c keys others :
  typed r keys -> typed r others ->
  nilSafe (insertOrUpdateEntries r timestamp isInsert c keys others).
Proof.
  intros Hk Ho. unfold insertOrUpdateEntries.
  apply nilSafe_obind;
    [destruct isInsert; [apply nilSafe_insertMarker; exact Hk|exact I]|].
  intros marker.
  apply nilSafe_obind; [apply nilSafe_assignments; exact Hk|]. intros conds.
  apply nilSafe_obind; [|intros; exact I].
  apply nilSafe_omap. eapply Forall_impl; [exact Ho|]. intros col Hc.
  apply nilSafe_columnMutations. exact Hc.
Qed.

Lemma nilSafe_processInsertOrUpdate r ts isInsert c w :
  replicator_ok (arrays w) r ->
  typed r (pkNames (arrays w) r ++ ckNames (arrays w) r) ->
  typed r (otherNames (arrays w) r) ->
  nilSafe (processInsertOrUpdate r ts isInsert c w).1.
Proof.
  intros Hr Hk Ho. rewrite processInsertOrUpdate_run by exact Hr.
  pose proof (nilSafe_insertOrUpdateEntries r ts isInsert c _ _ Hk Ho) as H.
  destruct (insertOrUpdateEntries _ _ _ _ _ _); [exact I|exact H].
Qed.

Lemma nilSafe_processRangeDelete r ts start end_ w :
  nilSafe (processRangeDelete r ts start end_ w).1.
Proof.
  unfold processRangeDelete.
  rewrite (bind_Done _ _ _ _ _ (goView_run _ _)).
  rewrite (bind_Done _ _ _ _ _ (goView_run _ _)).
  destruct (resolveRange _ _ _ _) as [queryIdx vals].
  case_decide; [|simpl; discriminate].
  destruct (rangeDeleteQueryStrs r !! Z.to_nat queryIdx); [exact I|simpl; discriminate].
Qed.

(** The loop of [Consume] on a translator whose columns all have a type. *)
Lemma Consume_loop_nilSafe r ts delta pks cks others :
  typed r (pks ++ cks) -> typed r others ->
  forall budget pos w,
    replicator_ok (arrays w) r ->
    pkNames (arrays w) r = pks -> ckNames (arrays w) r = cks ->
    otherNames (arrays w) r = others ->
    nilSafe (Consume_loop budget r ts delta pos w).1.
Proof.
  intros Hk Ho.
  induction budget as [|budget IH]; intros pos w Hr Ep Ec Eo.
  - simpl. case_decide; simpl; [discriminate|exact I].
  - assert (Hcont : forall step pos',
               steady r step -> nilSafe (step w).1 ->
               nilSafe ((do err <- step ;;
                         match err with
                         | Some e => ret (Some e)
                         | None => Consume_loop budget r ts delta pos'
                         end) w).1).
    { intros step pos' Hsteady Hsafe. unfold bind.
      destruct (Hsteady w Hr) as [Hr1 Hst].
      destruct (step w) as [[[e|]|p] w1]; simpl in *; [exact I| |exact Hsafe].
      unfold translatorState in Hst. injection Hst as Hp Hc Hoth _.
      apply IH; [exact Hr1|congruence|congruence|congruence]. }
    cbn [Consume_loop].
    destruct (delta !! pos) as [change|]; [|exact I].
    repeat case_decide.
    + apply Hcont; [apply steady_processInsertOrUpdate|].
      apply nilSafe_processInsertOrUpdate; [exact Hr|rewrite Ep, Ec; exact Hk
                                          |rewrite Eo; exact Ho].
    + apply Hcont; [apply steady_processInsertOrUpdate|].
      apply nilSafe_processInsertOrUpdate; [exact Hr|rewrite Ep, Ec; exact Hk
                                          |rewrite Eo; exact Ho].
    + apply Hcont; [apply steady_processRowDelete|].
      rewrite processRowDelete_run. exact I.
    + apply Hcont; [apply steady_processPartitionDelete|].
      rewrite processPartitionDelete_run. exact I.
    + destruct (delta !! (pos + 1)) as [end_|]; [|simpl; discriminate].
      apply Hcont; [apply steady_processRangeDelete|].
      apply nilSafe_processRangeDelete.
    + simpl. discriminate.
Qed.

(** A key column without a type stops every insert and update. *)
Lemma untyped_key_panics r ts isInsert c keys others :
  Exists (fun name => columnTypes r !! name = None) keys ->
  insertOrUpdateEntries r ts isInsert c keys others = Panicked NilDereference.
Proof.
  intros Hex.
  assert (Hall : forall (g : string -> TypeInfo -> string),
             omap (fun name => check typ <- typeOfColumn r name ;; Done (g name typ)) keys
             = Panicked NilDereference).
  { intros g. apply omap_first_panic.
    - eapply Exists_impl; [exact Hex|]. intros name Hn. simpl.
      unfold typeOfColumn. rewrite Hn. reflexivity.
    - apply Forall_forall. intros name _. unfold typeOfColumn.
      destruct (columnTypes r !! name) as [typ|]; simpl; eauto. }
  unfold insertOrUpdateEntries, insertMarker, makeBindMarkerAssignments,
    makeBindMarkerAssignmentList.
  destruct isInsert.
  - rewrite (Hall (fun _ typ => makeBindMarkerForType typ)). reflexivity.
  - simpl. rewrite (Hall (fun name typ => name +:+ " = " +:+ makeBindMarkerForType typ)).
    reflexivity.
Qed.

(** [Consume] never panics on a missing column type when every
    column of the translator's lists has a type, as is so for a translator
    [NewDeltaReplicator] has built, at any later time; a key column
    without a type makes every insert and update panic on the nil type
    before anything is sent. *)
Theorem typed_translator_never_dereferences_nil r w :
  replicator_ok (arrays w) r ->
  let keys := pkNames (arrays w) r ++ ckNames (arrays w) r in
  let others := otherNames (arrays w) r in
  (typed r (keys ++ others) ->
   forall changes c,
     (Consume r c (consumeAll r changes w)).1 <> Panicked NilDereference)
  /\ (forall kmeta meta cons w0,
        heap_ok (arrays w0) ->
        NewDeltaReplicator kmeta meta cons w0 = (Done (inl r), w) ->
        typed r (keys ++ others))
  /\ (Exists (fun name => columnTypes r !! name = None) keys ->
      forall ts isInsert row,
        (processInsertOrUpdate r ts isInsert row w).1 = Panicked NilDereference
        /\ destination (processInsertOrUpdate r ts isInsert row w).2
           = destination w).
Proof.
  intros Hr. cbv zeta. split; [|split].
  - intros Ht changes c. unfold typed in Ht. apply Forall_app in Ht as [Hk Ho].
    destruct (consumeAll_steady r changes w Hr) as [Hr' Hst].
    unfold translatorState in Hst. injection Hst as Hp Hc Hoth _.
    pose proof (Consume_loop_nilSafe r (GetCassandraTimestamp c) (Delta c) _ _ _
                  Hk Ho (length (Delta c)) 0 _ Hr' Hp Hc Hoth) as Hsafe.
    unfold Consume. intros E. rewrite E in Hsafe. apply Hsafe. reflexivity.
  - intros kmeta meta cons w0 Hok Hrun.
    destruct (constructed_translator kmeta meta cons w0 r w [] Hok Hrun)
      as (Hd & (pk & ck & other & all & ->) & _ & Hp & Hc & Ho).
    simpl consumeAll in Hp, Hc, Ho. rewrite Hp, Hc, Ho.
    assert (Hty : forall p, typed (translatorOf meta cons pk ck other all)
                              (namesWhere meta p (OrderedColumns meta))).
    { intros p. pose proof (described_namesWhere meta p _ Hd) as H.
      eapply Forall_impl; [exact H|]. intros name [colDesc Hcol]. simpl.
      rewrite lookup_fmap, Hcol. simpl. eauto. }
    unfold typed in *. rewrite !Forall_app. auto.
  - intros Hex ts isInsert row.
    rewrite processInsertOrUpdate_run by exact Hr.
    rewrite (untyped_key_panics r ts isInsert row _ _ Hex). split; reflexivity.
Qed.

(** ** List columns without a reset, and rows without a change *)

(** A non-frozen list column. Without a reset there is no clear statement:
    the column gets one append per appended cell, then one removal per
    removed cell. The appended elements must be a map and the removed
    elements a slice, a string or an empty map: any other non-nil value
    makes the call panic in reflection, with or without a reset. *)
Theorem list_change_statements r c timestamp keys conds col typ :
  columnTypes r !! col = Some typ ->
  IsFrozen typ = false ->
  Type_ typ = TypeList ->
  let change := GetListChange c col in
  let run := columnMutations r c timestamp keys conds col in
  (ListIsReset change = false ->
   forall cells removed,
     appendedCells change = Done cells -> removedCells change = Done removed ->
     run = Done (map (appendCell r c keys conds col) cells
                 ++ map (removeCell r c keys conds col) removed))
  /\ (nonNil (AppendedElements change) = true ->
      (forall m, AppendedElements change <> Map m) ->
      run = Panicked ReflectWrongKind)
  /\ (forall cells,
        appendedCells change = Done cells ->
        (exists kv rest, RemovedElements change = Map (Some (kv :: rest)))
        \/ (exists z, RemovedElements change = Int z)
        \/ (exists t, RemovedElements change = Pointer t)
        \/ RemovedElements change = UnsetValue ->
        run = Panicked ReflectWrongKind)
  /\ (AppendedElements change = Map None -> RemovedElements change = Nil ->
      ListIsReset change = false -> run = Done []).
Proof.
  intros Htyp Hf Ht change run.
  assert (Hrun : run = listMutations r c timestamp keys conds col typ).
  { unfold run, columnMutations, typeOfColumn. rewrite Htyp. simpl.
    rewrite Hf, Ht. reflexivity. }
  assert (Happ : forall v vals, appendValueByType vals v typ = Done (vals ++ [v])).
  { intros v vals. apply append_non_tuple. rewrite Ht. discriminate. }
  split; [|split; [|split]].
  - intros Hreset cells removed Hcells Hrem.
    unfold run.
    rewrite (columnMutations_list r c timestamp keys conds col typ cells removed
               Htyp Hf Ht Hcells Hrem).
    fold change. rewrite Hreset. reflexivity.
  - intros Hnn Hnot. rewrite Hrun. unfold listMutations. fold change. rewrite Hnn.
    destruct (AppendedElements change) as [| | | | | | |m] eqn:E;
      try reflexivity; try discriminate Hnn.
    exfalso. apply (Hnot m). reflexivity.
  - intros cells Hcells Hbad. rewrite Hrun. unfold listMutations. fold change.
    unfold appendedCells in Hcells.
    assert (Hfirst : (if nonNil (AppendedElements change)
                      then
                        check cells0 <- reflect_MapRange (AppendedElements change) ;;
                        omap (fun '(k, v) =>
                                check vals <- appendValueByType [Int (GetTTL c); k] v typ ;;
                                Done (mkEntry
                                        ("UPDATE " +:+ tableName r +:+ " USING TTL ? SET "
                                         +:+ col +:+ "[SCYLLA_TIMEUUID_LIST_INDEX(?)] = "
                                         +:+ makeBindMarkerForType typ +:+ " WHERE "
                                         +:+ conds)
                                        (appendKeyValuesToBind vals keys c)))
                             cells0
                      else Done [])
                     = Done (map (fun kv =>
                                    mkEntry
                                      ("UPDATE " +:+ tableName r +:+ " USING TTL ? SET "
                                       +:+ col +:+ "[SCYLLA_TIMEUUID_LIST_INDEX(?)] = "
                                       +:+ makeBindMarkerForType typ +:+ " WHERE "
                                       +:+ conds)
                                      (appendKeyValuesToBind
                                         ([Int (GetTTL c); fst kv] ++ [snd kv]) keys c))
                                 cells)).
    { destruct (nonNil (AppendedElements change)).
      - rewrite Hcells. simpl. apply omap_Done_map.
        intros [k v] _. rewrite Happ. reflexivity.
      - injection Hcells as <-. reflexivity. }
    cbv zeta. rewrite Hfirst. simpl.
    destruct Hbad as [(kv & rest & E)|[(z & E)|[(t & E)|E]]]; rewrite E; reflexivity.
  - intros Ha Hr Hreset. rewrite Hrun. unfold listMutations. fold change.
    rewrite Ha, Hr, Hreset. reflexivity.
Qed.

Lemma typed_keyConditions r keys :
  typed r keys -> exists conds, keyConditions r keys = Done conds.
Proof.
  intros Ht. unfold keyConditions, makeBindMarkerAssignments,
    makeBindMarkerAssignmentList.
  assert (H : exists assignments,
             omap (fun name => check typ <- typeOfColumn r name ;;
                               Done (name +:+ " = " +:+ makeBindMarkerForType typ)) keys
             = Done assignments).
  { induction Ht as [|name names [typ Hn] _ [assignments IH]]; simpl; [eauto|].
    unfold typeOfColumn at 1. rewrite Hn. simpl. rewrite IH. simpl. eauto. }
  destruct H as [assignments ->]. simpl. eauto.
Qed.

(** A row that changes no column. [processInsertOrUpdate] does not skip
    it: an update sends the destination an unlogged batch without a
    statement, an insert a batch that holds the row marker alone. *)
Theorem unchanged_row_sends_empty_batch r w timestamp c :
  replicator_ok (arrays w) r ->
  let keys := pkNames (arrays w) r ++ ckNames (arrays w) r in
  let others := otherNames (arrays w) r in
  typed r keys ->
  Forall (untouched r c) others ->
  let w' := mkWorld (keyColumnsHeap (arrays w) r) (destination w) in
  let empty := ReqBatch (mkBatch UnloggedBatch [] (consistency r) timestamp) in
  processUpdate r timestamp c w = Exec empty w'
  /\ history (destination (processUpdate r timestamp c w).2)
     = history (destination w) ++ [empty]
  /\ exists markers,
       keyMarkers r keys = Done markers
       /\ processInsert r timestamp c w
          = Exec (ReqBatch (mkBatch UnloggedBatch [rowMarker r c keys markers]
                              (consistency r) timestamp)) w'.
Proof.
  intros Hr keys others Ht Hun w' empty.
  destruct (typed_keyConditions r keys Ht) as [conds Hconds].
  pose proof (keyMarkers_keyConditions r keys) as Hkm. rewrite Hconds in Hkm.
  destruct Hkm as [markers Hmarkers].
  assert (Hup : processUpdate r timestamp c w = Exec empty w').
  { unfold processUpdate. rewrite processInsertOrUpdate_run by exact Hr.
    fold keys others.
    rewrite (insertOrUpdateEntries_eq _ _ _ _ _ _ _ Hconds).
    rewrite (omap_untouched _ _ _ _ _ _ Hun). simpl.
    rewrite concat_map_nil. reflexivity. }
  split; [exact Hup|]. split; [rewrite Hup; reflexivity|].
  exists markers. split; [exact Hmarkers|].
  unfold processInsert. rewrite processInsertOrUpdate_run by exact Hr.
  fold keys others.
  rewrite (insertOrUpdateEntries_eq _ _ _ _ _ _ _ Hconds), Hmarkers.
  rewrite (omap_untouched _ _ _ _ _ _ Hun). simpl.
  rewrite concat_map_nil. reflexivity.
Qed.

End Replicator.

(** * The example table *)

Lemma exampleReplicator_ok : replicator_ok exampleHeap exampleReplicator.
Proof.
  unfold replicator_ok, heap_ok, valid, apart, cap, backing. simpl.
  repeat split; try lia; left; lia.
Qed.

Lemma example_keyConditions :
  keyConditions exampleReplicator
    (pkNames (arrays exampleWorld) exampleReplicator
     ++ ckNames (arrays exampleWorld) exampleReplicator)
  = Done "id = ? AND seq = ?".
Proof. vm_compute. reflexivity. Qed.

(** The template table of [ks.t]: eight entries, the one of (depth 0,
    inclusive, absent) at index 6. *)
Lemma range_delete_template_table_example :
  exists r' w',
    computeRangeDeleteQueries doubling exampleReplicator exampleWorld = (Done r', w')
    /\ length (rangeDeleteQueryStrs r') = 8
    /\ rangeDeleteQueryStrs r' !! 6 = Some "DELETE FROM ks.t WHERE id = ? AND seq >= ?".
Proof.
  assert (Hok : heap_ok (arrays exampleWorld)) by reflexivity.
  assert (Hck : valid (arrays exampleWorld) (ckColumns exampleReplicator))
    by (unfold valid, cap, backing; simpl; lia).
  assert (Hpk : makeBindMarkerAssignmentList exampleReplicator
                  (pkNames (arrays exampleWorld) exampleReplicator)
                = Done ["id = ?"]) by (vm_compute; reflexivity).
  destruct (range_delete_template_table doubling exampleReplicator exampleWorld
              ["id = ?"] Hok Hck Hpk) as (r' & w' & Hrun & Hlen & Hat & _).
  exists r', w'. split; [exact Hrun|]. split; [exact Hlen|].
  apply (Hat 0 0 2); [simpl; lia|]. unfold boundedPair. lia.
Defined.

(** Scenario 5: the start event carries [seq = 5] with the Inclusive
    sub-kind, the end event no [seq]; the statement of index 6 is executed
    with (1, 5). *)
Lemma range_bound_resolution_example :
  processRangeDelete exampleReplicator 1000 exampleRangeStart exampleRangeEnd exampleWorld
  = Exec (ReqQuery "DELETE FROM ks.t WHERE id = ? AND seq >= ?" [Int 1; Int 5]
            One true 1000) exampleWorld.
Proof.
  assert (Hs : isRangeStart (GetOperation exampleRangeStart)) by (left; reflexivity).
  assert (He : isRangeEnd (GetOperation exampleRangeEnd)) by (left; reflexivity).
  assert (Hcks : ckNames (arrays exampleWorld) exampleReplicator = "seq" :: [])
    by reflexivity.
  assert (Hsome : is_Some (GetValue exampleRangeStart "seq")
                  \/ is_Some (GetValue exampleRangeEnd "seq"))
    by (left; exists (Int 5); reflexivity).
  destruct (range_bound_resolution exampleReplicator exampleWorld 1000
              exampleRangeStart exampleRangeEnd "seq" [] Hs He Hcks Hsome)
    as [(d & lb & rb & _ & _ & _ & _ & Hres & Hproc) _].
  assert (E : resolveRange exampleRangeStart exampleRangeEnd
                (pkNames (arrays exampleWorld) exampleReplicator)
                (ckNames (arrays exampleWorld) exampleReplicator)
              = (6%Z, [Int 1; Int 5])) by reflexivity.
  rewrite E in Hres.
  pose proof (f_equal fst Hres) as Hidx. pose proof (f_equal snd Hres) as Hbinds.
  cbn [fst snd] in Hidx, Hbinds.
  assert (Hnat : flatIndex d (kindOf lb (startKind (GetOperation exampleRangeStart)))
                   (kindOf rb (endKind (GetOperation exampleRangeEnd))) = 6) by lia.
  rewrite Hbinds. apply Hproc. rewrite Hnat. reflexivity.
Defined.

(** The spec gives depth i - 1 when column i is absent on both sides. With
    the first clustering column (i = 0) absent on both sides the code takes
    depth 0, the last column, and binds two nil bounds. *)
Lemma range_resolution_without_first_bound :
  GetValue unboundedStart "seq" = None
  /\ GetValue unboundedEnd "seq" = None
  /\ baseIdx (resolveBounds unboundedStart unboundedEnd ["id"] ["seq"]) <> (0 - 1)%Z
  /\ resolveRange unboundedStart unboundedEnd ["id"] ["seq"] = (0%Z, [Int 1; Nil; Nil]).
Proof. repeat split. vm_compute. discriminate. Qed.

(** Scenario 4: a reset of [items] with one appended cell at timestamp 1000
    clears at 999 and appends in a batch at 1000. *)
Lemma list_reset_example :
  processUpdate doubling exampleReplicator 1000 exampleResetItems exampleWorld
  = Exec (ReqBatch
            (mkBatch UnloggedBatch
               [mkEntry "DELETE items FROM ks.t USING TIMESTAMP ? WHERE id = ? AND seq = ?"
                  [Int 999; Int 1; Int 1];
                mkEntry "UPDATE ks.t USING TTL ? SET items[SCYLLA_TIMEUUID_LIST_INDEX(?)] = ? WHERE id = ? AND seq = ?"
                  [Int 0; Text "K1"; Text "x"; Int 1; Int 1]]
               One 1000))
         (mkWorld (keyColumnsHeap doubling exampleHeap exampleReplicator) exampleSession).
Proof.
  assert (Htyp : columnTypes exampleReplicator !! "items"
                 = Some (ListType (NativeType "text"))) by (vm_compute; reflexivity).
  destruct (list_reset_clears_before_appends doubling exampleReplicator exampleWorld
              1000 false exampleResetItems "items" (ListType (NativeType "text"))
              "id = ? AND seq = ?" ["val"; "tags"] [] [(Text "K1", Text "x")] []
              exampleReplicator_ok example_keyConditions Htyp eq_refl eq_refl
              eq_refl eq_refl eq_refl)
    as (_ & _ & _ & _ & Hbatch).
  destruct (Hbatch
              [mkEntry "DELETE items FROM ks.t USING TIMESTAMP ? WHERE id = ? AND seq = ?"
                 [Int 999; Int 1; Int 1];
               mkEntry "UPDATE ks.t USING TTL ? SET items[SCYLLA_TIMEUUID_LIST_INDEX(?)] = ? WHERE id = ? AND seq = ?"
                 [Int 0; Text "K1"; Text "x"; Int 1; Int 1]])
    as [_ Hsent].
  - reflexivity.
  - vm_compute. reflexivity.
  - exact Hsent.
Defined.

(** The spec gives the event timestamp to a reset without appended cells.
    With an empty map that is not nil as appended elements, the event
    carries no appended cell and the clear is still stamped 999 at event
    timestamp 1000. *)
Lemma list_reset_without_cells_clears_earlier :
  appendedCells (GetListChange exampleResetItemsOnly "items") = Done []
  /\ columnMutations exampleReplicator exampleResetItemsOnly 1000 ["id"; "seq"]
       "id = ? AND seq = ?" "items"
     = Done [mkEntry "DELETE items FROM ks.t USING TIMESTAMP ? WHERE id = ? AND seq = ?"
               [Int 999; Int 1; Int 1]]
  /\ Int 999 <> Int 1000.
Proof. split; [reflexivity|]. split; [vm_compute; reflexivity|discriminate]. Qed.

(** Scenario 1: the batch of an insert starts with the row marker. *)
Lemma insert_marker_example :
  processInsert doubling exampleReplicator 1000 exampleInsert exampleWorld
  = Exec (ReqBatch
            (mkBatch UnloggedBatch
               [mkEntry "INSERT INTO ks.t (id, seq) VALUES (?, ?) USING TTL ?"
                  [Int 1; Int 1; Int 100];
                mkEntry "UPDATE ks.t USING TTL ? SET val = ? WHERE id = ? AND seq = ?"
                  [Int 100; Int 5; Int 1; Int 1]]
               One 1000))
         (mkWorld (keyColumnsHeap doubling exampleHeap exampleReplicator) exampleSession).
Proof.
  pose proof (insert_is_marker_then_update doubling exampleReplicator exampleWorld
                1000 exampleInsert exampleReplicator_ok) as H.
  cbv zeta in H.
  assert (E : insertOrUpdateEntries exampleReplicator 1000 false exampleInsert
                (pkNames (arrays exampleWorld) exampleReplicator
                 ++ ckNames (arrays exampleWorld) exampleReplicator)
                (otherNames (arrays exampleWorld) exampleReplicator)
              = Done [mkEntry "UPDATE ks.t USING TTL ? SET val = ? WHERE id = ? AND seq = ?"
                        [Int 100; Int 5; Int 1; Int 1]])
    by (vm_compute; reflexivity).
  rewrite E in H. destruct H as (markers & Hmarkers & Hinsert & _).
  assert (M : keyMarkers exampleReplicator
                (pkNames (arrays exampleWorld) exampleReplicator
                 ++ ckNames (arrays exampleWorld) exampleReplicator)
              = Done ["?"; "?"]) by (vm_compute; reflexivity).
  rewrite M in Hmarkers. injection Hmarkers as <-. exact Hinsert.
Defined.

(** Scenario 3: elements added to and removed from [tags] in one event. *)
Lemma set_edit_example :
  columnMutations exampleReplicator exampleEditTags 1000 ["id"; "seq"]
    "id = ? AND seq = ?" "tags"
  = Done [mkEntry "UPDATE ks.t USING TTL ? SET tags = tags + ? WHERE id = ? AND seq = ?"
            [Int 0; Slice (Some [Text "a"]); Int 1; Int 1];
          mkEntry "UPDATE ks.t USING TTL ? SET tags = tags - ? WHERE id = ? AND seq = ?"
            [Int 0; Slice (Some [Text "b"]); Int 1; Int 1]].
Proof.
  assert (Htyp : columnTypes exampleReplicator !! "tags"
                 = Some (SetType (NativeType "text"))) by (vm_compute; reflexivity).
  destruct (set_or_map_column_statements exampleReplicator exampleEditTags 1000
              ["id"; "seq"] "id = ? AND seq = ?" "tags" (SetType (NativeType "text"))
              Htyp eq_refl (or_introl eq_refl)) as [_ Hedit].
  destruct (Hedit eq_refl) as (es & Hcol & Hes & _).
  rewrite Hcol, Hes. reflexivity.
Defined.

(** The spec lets the addition be emitted only for non-empty added
    elements. An empty set that is not nil is still written. *)
Lemma empty_addition_is_written :
  AddedElements (GetSetChange exampleAddNothing "tags") = Slice (Some [])
  /\ columnMutations exampleReplicator exampleAddNothing 1000 ["id"; "seq"]
       "id = ? AND seq = ?" "tags"
     = Done [mkEntry "UPDATE ks.t USING TTL ? SET tags = tags + ? WHERE id = ? AND seq = ?"
               [Int 0; Slice (Some []); Int 1; Int 1]].
Proof. split; [reflexivity|vm_compute; reflexivity]. Qed.

(** Scenario 2: an update that only deletes [val] sends one statement. *)
Lemma scalar_delete_example :
  processUpdate doubling exampleReplicator 1000 exampleDeleteVal exampleWorld
  = Exec (ReqBatch
            (mkBatch UnloggedBatch
               [mkEntry "DELETE val FROM ks.t WHERE id = ? AND seq = ?" [Int 1; Int 1]]
               One 1000))
         (mkWorld (keyColumnsHeap doubling exampleHeap exampleReplicator) exampleSession).
Proof.
  assert (Htyp : columnTypes exampleReplicator !! "val" = Some (NativeType "int"))
    by (vm_compute; reflexivity).
  assert (Hothers : Forall (untouched exampleReplicator exampleDeleteVal)
                      ([] ++ ["tags"; "items"])).
  { repeat constructor.
    - exists (SetType (NativeType "text")).
      split; [vm_compute; reflexivity|]. repeat split. exists []. reflexivity.
    - exists (ListType (NativeType "text")).
      split; [vm_compute; reflexivity|]. repeat split. exists []. reflexivity. }
  destruct (whole_value_column_statements doubling exampleReplicator exampleWorld
              1000 exampleDeleteVal "val" (NativeType "int") "id = ? AND seq = ?"
              [] ["tags"; "items"] exampleReplicator_ok example_keyConditions Htyp
              (or_introl eq_refl)) as (_ & _ & _ & Hbatch).
  exact (Hbatch eq_refl Hothers eq_refl).
Defined.

(** A pre-image row the loop comes to stand at stops [Consume]. *)
Lemma unsupported_operation_example :
  (Consume doubling exampleReplicator
     (mkChange 1000 [exampleDeleteVal; examplePreImage]) exampleWorld).1
  <> Done None.
Proof.
  assert (Hun : ~ dispatchable (GetOperation examplePreImage)).
  { unfold dispatchable, isRangeStart. simpl.
    intros [H|[H|[H|[H|[H|H]]]]]; discriminate H. }
  assert (Hns : ~ isRangeStart (GetOperation exampleDeleteVal)).
  { unfold isRangeStart. simpl. intros [H|H]; discriminate H. }
  destruct (unsupported_operation_halts doubling exampleReplicator
              (mkChange 1000 [exampleDeleteVal; examplePreImage]) exampleWorld
              1 examplePreImage eq_refl Hun) as (Hhalt & Hstand & _).
  apply Hhalt, Hstand. right. exists exampleDeleteVal.
  split; [reflexivity|exact Hns].
Defined.

(** The spec lets every event of another kind halt [Consume]. A pre-image
    row right after a RangeDeleteStart is taken as the end of the range:
    the call sends the range delete and returns without an error. *)
Lemma unchecked_range_end_is_consumed :
  In examplePreImage [exampleRangeStart; examplePreImage]
  /\ ~ dispatchable (GetOperation examplePreImage)
  /\ ~ isRangeEnd (GetOperation examplePreImage)
  /\ (Consume doubling exampleReplicator
        (mkChange 1000 [exampleRangeStart; examplePreImage]) exampleWorld).1
     = Done None
  /\ history (destination
       (Consume doubling exampleReplicator
          (mkChange 1000 [exampleRangeStart; examplePreImage]) exampleWorld).2)
     = [ReqQuery "DELETE FROM ks.t WHERE id = ? AND seq >= ?" [Int 1; Int 5]
          One true 1000].
Proof.
  split; [right; left; reflexivity|]. split; [|split; [|split]].
  - unfold dispatchable, isRangeStart. simpl.
    intros [H|[H|[H|[H|[H|H]]]]]; discriminate H.
  - unfold isRangeEnd. simpl. intros [H|H]; discriminate H.
  - vm_compute. reflexivity.
  - vm_compute. reflexivity.
Qed.

(** Two changes consumed in turn: the partition-key array received the
    clustering name in its spare cell, and the translator reads as before. *)
Lemma consume_leaves_translator_unchanged_example :
  translatorState
    (arrays (consumeAll doubling exampleReplicator
               [mkChange 1000 [exampleDeleteVal]; mkChange 1001 [exampleInsert]]
               exampleWorld))
    exampleReplicator
  = translatorState exampleHeap exampleReplicator
  /\ arrays (consumeAll doubling exampleReplicator
               [mkChange 1000 [exampleDeleteVal]; mkChange 1001 [exampleInsert]]
               exampleWorld)
     = [[]; ["id"; "seq"]; ["seq"]; ["val"; "tags"; "items"; ""];
        ["val"; "tags"; "items"; "id"; "seq"; ""]].
Proof.
  split.
  - apply (proj2 (consume_leaves_translator_unchanged doubling exampleParseType
                    exampleReplicator
                    [mkChange 1000 [exampleDeleteVal]; mkChange 1001 [exampleInsert]]
                    exampleWorld) exampleReplicator_ok).
  - vm_compute. reflexivity.
Defined.

(** The translator of [ks.t], constructed in a fresh world. *)
Lemma construction_example :
  exists pk ck other all w',
    NewDeltaReplicator doubling exampleParseType exampleKeyspace exampleMeta One
      freshWorld
    = (Done (inl (translatorOf exampleParseType exampleMeta One pk ck other all)), w')
    /\ view (arrays w') pk = ["id"]
    /\ view (arrays w') ck = ["seq"]
    /\ view (arrays w') other = ["val"; "tags"; "items"]
    /\ view (arrays w') all = ["val"; "tags"; "items"; "id"; "seq"]
    /\ rowDeleteQueryStr (translatorOf exampleParseType exampleMeta One pk ck other all)
       = "DELETE FROM ks.t WHERE id = ? AND seq = ?".
Proof.
  assert (Hok : heap_ok (arrays freshWorld)) by reflexivity.
  assert (Hdesc : described exampleMeta (OrderedColumns exampleMeta)).
  { unfold described. repeat constructor; vm_compute; eauto. }
  destruct (proj1 (construction_builds_translator doubling exampleParseType
                     exampleKeyspace exampleMeta One freshWorld Hok) Hdesc)
    as (pk & ck & other & all & w' & E & _ & _ & Ep & Ec & Eo & Ea & _).
  exists pk, ck, other, all, w'. split; [exact E|].
  unfold pkNames, ckNames, otherNames, allNames in *. simpl in Ep, Ec, Eo, Ea.
  rewrite Ea, Ep, Ec, Eo. repeat split; reflexivity.
Defined.

(** A start with its end: the access to the end is within the sequence. *)
Lemma paired_range_start_example :
  (Consume doubling exampleReplicator
     (mkChange 1000 [exampleRangeStart; exampleRangeEnd]) exampleWorld).1
  <> Panicked (IndexOutOfRange InDelta 2 2).
Proof.
  apply (proj1 (paired_range_start_access_in_bounds doubling exampleReplicator
                  (mkChange 1000 [exampleRangeStart; exampleRangeEnd]))).
  intros pos start Hpos Hs. destruct pos as [|[|pos]]; simpl in Hpos.
  - exists exampleRangeEnd. split; [reflexivity|left; reflexivity].
  - injection Hpos as <-. destruct Hs as [H|H]; discriminate H.
  - discriminate Hpos.
Defined.

(** A table that is there, a table that is not, a name without a dot. *)
Lemma consumer_construction_example :
  (exists err,
     (CreateChangeConsumer doubling exampleParseType (mkFactory One)
        (mkInput "ks.missing") freshWorld).1 = Done (inr err))
  /\ (CreateChangeConsumer doubling exampleParseType (mkFactory One)
        (mkInput "t") freshWorld).1
     = Done (inr "table name is not fully qualified: t").
Proof.
  split.
  - apply (proj1 (consumer_construction_errors doubling exampleParseType
                    (mkFactory One) (mkInput "ks.missing") freshWorld)).
    right. intros (keyspace & table & kmeta & tmeta & Hcut & Hmeta & Htable).
    vm_compute in Hcut. injection Hcut as <- <-.
    vm_compute in Hmeta. injection Hmeta as <-.
    vm_compute in Htable. discriminate Htable.
  - reflexivity.
Defined.

(** Three events and a session that fails the second write: [Consume]
    returns that error after two requests, and the third event is never
    sent. *)
Lemma consume_returns_first_error_example :
  (Consume doubling exampleReplicator
     (mkChange 1000 [exampleDeleteVal; exampleInsert; exampleDeleteVal])
     timeoutWorld).1 = Done (Some "write timeout")
  /\ length (history (destination
       (Consume doubling exampleReplicator
          (mkChange 1000 [exampleDeleteVal; exampleInsert; exampleDeleteVal])
          timeoutWorld).2)) = 2
  /\ exists trace q,
       history (destination
         (Consume doubling exampleReplicator
            (mkChange 1000 [exampleDeleteVal; exampleInsert; exampleDeleteVal])
            timeoutWorld).2)
       = history (destination timeoutWorld) ++ trace ++ [q]
       /\ execAnswer (destination timeoutWorld)
            (history (destination timeoutWorld) ++ trace) q
          = Some "write timeout".
Proof.
  assert (He : (Consume doubling exampleReplicator
                  (mkChange 1000 [exampleDeleteVal; exampleInsert; exampleDeleteVal])
                  timeoutWorld).1 = Done (Some "write timeout"))
    by (vm_compute; reflexivity).
  split; [exact He|]. split; [vm_compute; reflexivity|].
  exact (proj2 (consume_returns_first_error doubling exampleReplicator
                  (mkChange 1000 [exampleDeleteVal; exampleInsert; exampleDeleteVal])
                  timeoutWorld) "write timeout" He).
Defined.

(** The loop of [Consume] on a change of three events ends within the
    three turns it is given. *)
Lemma consume_terminates_example :
  (Consume doubling exampleReplicator
     (mkChange 1000 [exampleDeleteVal; exampleInsert; exampleRangeStart])
     exampleWorld).1
  = Panicked (IndexOutOfRange InDelta 3 3)
  /\ (Consume doubling exampleReplicator
        (mkChange 1000 [exampleDeleteVal; exampleInsert; exampleRangeStart])
        exampleWorld).1
     <> Panicked LoopBudgetExhausted.
Proof.
  split; [vm_compute; reflexivity|].
  apply (Consume_loop_budget doubling exampleReplicator
           (mkChange 1000 [exampleDeleteVal; exampleInsert; exampleRangeStart])
           exampleWorld).
Defined.

Lemma example_names_plain :
  Forall plain ((pkNames (arrays exampleWorld) exampleReplicator
                 ++ ckNames (arrays exampleWorld) exampleReplicator)
                ++ otherNames (arrays exampleWorld) exampleReplicator).
Proof. repeat constructor. Qed.

Lemma example_tupleFree :
  tupleFree exampleReplicator
    ((pkNames (arrays exampleWorld) exampleReplicator
      ++ ckNames (arrays exampleWorld) exampleReplicator)
     ++ otherNames (arrays exampleWorld) exampleReplicator).
Proof.
  unfold tupleFree.
  repeat constructor; intros typ H; vm_compute in H; injection H as <-; discriminate.
Qed.

(** Scenario 1 again: the two statements of the insert have three and four
    bind markers and as many values. *)
Lemma batch_binds_every_marker_example :
  exists entries,
    processInsert doubling exampleReplicator 1000 exampleInsert exampleWorld
    = Exec (ReqBatch (mkBatch UnloggedBatch entries One 1000))
        (mkWorld (keyColumnsHeap doubling exampleHeap exampleReplicator) exampleSession)
    /\ map (fun e => holes (Stmt e)) entries = [3; 4]
    /\ Forall wellBound entries.
Proof.
  pose proof (batch_binds_every_marker doubling exampleReplicator exampleWorld 1000
                true exampleInsert exampleReplicator_ok eq_refl example_names_plain
                example_tupleFree (Forall_nil_2 _)) as H.
  cbv zeta in H.
  assert (E : insertOrUpdateEntries exampleReplicator 1000 true exampleInsert
                (pkNames (arrays exampleWorld) exampleReplicator
                 ++ ckNames (arrays exampleWorld) exampleReplicator)
                (otherNames (arrays exampleWorld) exampleReplicator)
              = Done [mkEntry "INSERT INTO ks.t (id, seq) VALUES (?, ?) USING TTL ?"
                        [Int 1; Int 1; Int 100];
                      mkEntry "UPDATE ks.t USING TTL ? SET val = ? WHERE id = ? AND seq = ?"
                        [Int 100; Int 5; Int 1; Int 1]])
    by (vm_compute; reflexivity).
  rewrite E in H. destruct H as [Hbound Hsent].
  eexists. split; [exact Hsent|]. split; [reflexivity|exact Hbound].
Defined.

(** The consumer of [ks.t]: one metadata request, no [Close]. *)
Lemma consumer_construction_succeeds_example :
  exists pk ck other all w',
    CreateChangeConsumer doubling exampleParseType (mkFactory Quorum)
      (mkInput "ks.t") freshWorld
    = (Done (inl (translatorOf exampleParseType exampleMeta Quorum pk ck other all)), w')
    /\ history (destination w') = [ReqKeyspaceMetadata "ks"].
Proof.
  assert (Hok : heap_ok (arrays freshWorld)) by reflexivity.
  assert (Hcut : cut "."%char (TableName (mkInput "ks.t")) = Some ("ks", "t"))
    by reflexivity.
  assert (Hmeta : metadataAnswer (destination freshWorld)
                    (history (destination freshWorld)) "ks" = inr exampleKeyspace)
    by reflexivity.
  assert (Htable : Tables exampleKeyspace !! "t" = Some exampleMeta)
    by (vm_compute; reflexivity).
  assert (Hdesc : described exampleMeta (OrderedColumns exampleMeta)).
  { unfold described. repeat constructor; vm_compute; eauto. }
  destruct (consumer_construction_succeeds doubling exampleParseType
              (mkFactory Quorum) (mkInput "ks.t") freshWorld "ks" "t"
              exampleKeyspace exampleMeta Hok Hcut Hmeta Htable Hdesc)
    as (_ & _ & pk & ck & other & all & w' & E & Hh & _).
  exists pk, ck, other, all, w'. split; [exact E|exact Hh].
Defined.

(** The street is set, the city with its nil pointer is left alone, and the
    zip, added and removed at once, is set to null. *)
Lemma udt_column_statements_example :
  columnMutations exampleWideReplicator exampleUdtEdit 1000 ["id"; "seq"]
    "id = ? AND seq = ?" "addr"
  = Done [mkEntry "UPDATE ks.t USING TTL ? SET addr.street = ? WHERE id = ? AND seq = ?"
            [Int 0; Pointer (Some (Text "Main")); Int 1; Int 1];
          mkEntry "UPDATE ks.t USING TTL ? SET addr.zip = null WHERE id = ? AND seq = ?"
            [Int 0; Int 1; Int 1]].
Proof.
  assert (Htyp : columnTypes exampleWideReplicator !! "addr"
                 = Some (UDTType "address"
                           [("street", NativeType "text"); ("city", NativeType "text");
                            ("zip", NativeType "int")]))
    by (vm_compute; reflexivity).
  destruct (udt_column_statements exampleWideReplicator exampleUdtEdit 1000
              ["id"; "seq"] "id = ? AND seq = ?" "addr" _ Htyp eq_refl eq_refl)
    as (_ & Hedit & _).
  destruct (Hedit eq_refl ["street"; "city"; "zip"] eq_refl) as [Hin _].
  - repeat constructor.
  - rewrite Hin; [reflexivity|]. repeat constructor; simpl; lia.
Defined.

(** The tuple (3, 4) written to [pos]: five markers, five values. *)
Lemma tuple_column_example :
  exists e,
    columnMutations exampleWideReplicator exampleTupleWrite 1000 ["id"; "seq"]
      "id = ? AND seq = ?" "pos" = Done [e]
    /\ Stmt e = "UPDATE ks.t USING TTL ? SET pos = (?, ?) WHERE id = ? AND seq = ?"
    /\ Args e = [Int 0; Int 3; Int 4; Int 1; Int 1]
    /\ wellBound e.
Proof.
  assert (Htyp : columnTypes exampleWideReplicator !! "pos"
                 = Some (TupleType [NativeType "int"; NativeType "int"]))
    by (vm_compute; reflexivity).
  assert (Hplain : Forall plain ["pos"; "id"; "seq"]) by (repeat constructor).
  destruct (tuple_column_markers_and_values exampleWideReplicator exampleTupleWrite
              1000 ["id"; "seq"] "id = ? AND seq = ?" "pos" _ Htyp eq_refl eq_refl
              Hplain) as (els & Hu & _ & Hcol & _).
  injection Hu as <-.
  destruct (Hcol eq_refl) as (_ & _ & Hwrite & _).
  destruct (Hwrite eq_refl (Some [Int 3; Int 4]) eq_refl) as (e & He & Hargs & _ & Hwb).
  exists e. split; [exact He|].
  assert (E : columnMutations exampleWideReplicator exampleTupleWrite 1000
                ["id"; "seq"] "id = ? AND seq = ?" "pos"
              = Done [mkEntry
                        "UPDATE ks.t USING TTL ? SET pos = (?, ?) WHERE id = ? AND seq = ?"
                        [Int 0; Int 3; Int 4; Int 1; Int 1]])
    by (vm_compute; reflexivity).
  rewrite E in He. injection He as <-.
  split; [reflexivity|]. split; [reflexivity|]. apply Hwb. reflexivity.
Defined.

(** A range delete and a column delete, then an insert: the change made of
    the four events is consumed as the first three and then the fourth. *)
Lemma consume_composes_example :
  Consume doubling exampleReplicator
    (mkChange 1000 ([exampleRangeStart; exampleRangeEnd; exampleDeleteVal]
                    ++ [exampleInsert]))
    exampleWorld
  = match Consume doubling exampleReplicator
            (mkChange 1000 [exampleRangeStart; exampleRangeEnd; exampleDeleteVal])
            exampleWorld with
    | (Done None, w1) =>
        Consume doubling exampleReplicator (mkChange 1000 [exampleInsert]) w1
    | other => other
    end.
Proof.
  apply (consume_composes doubling exampleReplicator 1000
           [exampleRangeStart; exampleRangeEnd; exampleDeleteVal]
           [exampleInsert] exampleWorld).
  - right.
    apply (reaches_skip_two _ 0 3 exampleRangeStart);
      [reflexivity|left; reflexivity|].
    apply (reaches_skip_one _ 2 3 exampleDeleteVal);
      [reflexivity|intros [H|H]; discriminate H|].
    apply reaches_here.
  - intros p start Hp Hs. destruct p as [|p]; [|discriminate Hp].
    injection Hp as <-. destruct Hs as [H|H]; discriminate H.
Defined.

(** The translator of [ks.t] as constructed in a fresh world: its row and
    partition deletes. *)
Lemma constructed_translator_deletes_example :
  exists r w,
    NewDeltaReplicator doubling exampleParseType exampleKeyspace exampleMeta One
      freshWorld
    = (Done (inl r), w)
    /\ (forall c,
          processRowDelete r 1000 c w
          = Exec (ReqQuery "DELETE FROM ks.t WHERE id = ? AND seq = ?"
                    [keyValue c "id"; keyValue c "seq"] One true 1000) w)
    /\ (forall c,
          processPartitionDelete r 1000 c w
          = Exec (ReqQuery "DELETE FROM ks.t WHERE id = ?"
                    [keyValue c "id"] One true 1000) w).
Proof.
  exists (translatorOf exampleParseType exampleMeta One
            (mkSlice 1 1) (mkSlice 2 1) (mkSlice 5 3) (mkSlice 8 5)),
         (NewDeltaReplicator doubling exampleParseType exampleKeyspace exampleMeta One
            freshWorld).2.
  assert (E : NewDeltaReplicator doubling exampleParseType exampleKeyspace
                exampleMeta One freshWorld
              = (Done (inl (translatorOf exampleParseType exampleMeta One
                              (mkSlice 1 1) (mkSlice 2 1) (mkSlice 5 3) (mkSlice 8 5))),
                 (NewDeltaReplicator doubling exampleParseType exampleKeyspace
                    exampleMeta One freshWorld).2))
    by (vm_compute; reflexivity).
  split; [exact E|].
  destruct (constructed_translator_deletes doubling exampleParseType exampleKeyspace
              exampleMeta One freshWorld _ _ [] 1000 eq_refl E)
    as (Hrow & Hpart & _).
  split; [exact Hrow|exact Hpart].
Defined.

(** The same translator: its row delete has two markers and two values. *)
Lemma delete_requests_bind_every_marker_example :
  exists r w,
    NewDeltaReplicator doubling exampleParseType exampleKeyspace exampleMeta One
      freshWorld
    = (Done (inl r), w)
    /\ forall c, exists stmt args,
         processRowDelete r 1000 c w = Exec (ReqQuery stmt args One true 1000) w
         /\ holes stmt = length args.
Proof.
  exists (translatorOf exampleParseType exampleMeta One
            (mkSlice 1 1) (mkSlice 2 1) (mkSlice 5 3) (mkSlice 8 5)),
         (NewDeltaReplicator doubling exampleParseType exampleKeyspace exampleMeta One
            freshWorld).2.
  assert (E : NewDeltaReplicator doubling exampleParseType exampleKeyspace
                exampleMeta One freshWorld
              = (Done (inl (translatorOf exampleParseType exampleMeta One
                              (mkSlice 1 1) (mkSlice 2 1) (mkSlice 5 3) (mkSlice 8 5))),
                 (NewDeltaReplicator doubling exampleParseType exampleKeyspace
                    exampleMeta One freshWorld).2))
    by (vm_compute; reflexivity).
  split; [exact E|].
  assert (Hn : namesWhere exampleMeta isPartitionKey (OrderedColumns exampleMeta)
               ++ namesWhere exampleMeta isClusteringKey (OrderedColumns exampleMeta)
               = ["id"; "seq"]) by (vm_compute; reflexivity).
  refine (proj1 (delete_requests_bind_every_marker doubling exampleParseType
                   exampleKeyspace exampleMeta One freshWorld _ _ [] 1000 eq_refl E
                   eq_refl eq_refl _ _)).
  - rewrite Hn. repeat constructor.
  - rewrite Hn. unfold tupleFree.
    repeat constructor; intros typ H; vm_compute in H; injection H as <-; discriminate.
Defined.

(** The example translator has a type for each of its columns. *)
Lemma typed_translator_example :
  (Consume doubling exampleReplicator
     (mkChange 1000 [exampleInsert; exampleDeleteVal]) exampleWorld).1
  <> Panicked NilDereference.
Proof.
  refine (proj1 (typed_translator_never_dereferences_nil doubling exampleParseType
                   exampleReplicator exampleWorld exampleReplicator_ok) _ []
            (mkChange 1000 [exampleInsert; exampleDeleteVal])).
  unfold typed. repeat constructor; vm_compute; eauto.
Defined.

(** An append and a removal on [items]: the append comes first, and
    nothing clears the list. *)
Lemma list_change_statements_example :
  columnMutations exampleReplicator exampleEditItems 1000 ["id"; "seq"]
    "id = ? AND seq = ?" "items"
  = Done [mkEntry
            "UPDATE ks.t USING TTL ? SET items[SCYLLA_TIMEUUID_LIST_INDEX(?)] = ? WHERE id = ? AND seq = ?"
            [Int 0; Text "K2"; Text "y"; Int 1; Int 1];
          mkEntry
            "UPDATE ks.t SET items[SCYLLA_TIMEUUID_LIST_INDEX(?)] = null WHERE id = ? AND seq = ?"
            [Text "K1"; Int 1; Int 1]].
Proof.
  assert (Htyp : columnTypes exampleReplicator !! "items"
                 = Some (ListType (NativeType "text")))
    by (vm_compute; reflexivity).
  exact (proj1 (list_change_statements exampleReplicator exampleEditItems 1000
                  ["id"; "seq"] "id = ? AND seq = ?" "items"
                  (ListType (NativeType "text")) Htyp eq_refl eq_refl)
           eq_refl [(Text "K2", Text "y")] [Text "K1"] eq_refl eq_refl).
Defined.

(** An update of [ks.t] that changes nothing is sent as an empty batch. *)
Lemma unchanged_row_example :
  processUpdate doubling exampleReplicator 1000 exampleNoChange exampleWorld
  = Exec (ReqBatch (mkBatch UnloggedBatch [] One 1000))
      (mkWorld (keyColumnsHeap doubling exampleHeap exampleReplicator) exampleSession)
  /\ length (history (destination
       (processUpdate doubling exampleReplicator 1000 exampleNoChange exampleWorld).2))
     = 1.
Proof.
  assert (Ht : typed exampleReplicator
                 (pkNames (arrays exampleWorld) exampleReplicator
                  ++ ckNames (arrays exampleWorld) exampleReplicator)).
  { unfold typed. repeat constructor; vm_compute; eauto. }
  assert (Hun : Forall (untouched exampleReplicator exampleNoChange)
                  (otherNames (arrays exampleWorld) exampleReplicator)).
  { repeat constructor;
      (eexists; split; [vm_compute; reflexivity|];
       repeat split; try reflexivity; eexists; reflexivity). }
  split.
  - exact (proj1 (unchanged_row_sends_empty_batch doubling exampleReplicator
                    exampleWorld 1000 exampleNoChange exampleReplicator_ok Ht Hun)).
  - vm_compute. reflexivity.
Defined.
